(** * passporter: the privacy-contact discovery engine and its batch scheduler

    A shallow embedding of [db/scraper.ts] and [db/server.ts], and of the
    client's [utils/csv.ts], [utils/exportCsv.ts] and [hooks/useEntries.ts]
    where they feed the import and read what the server sends.

    - JavaScript strings are sequences of code units; the embedding uses
      [string], whose characters are the code units U+0000..U+00FF.
    - [new URL(..)] of [node:url], [cheerio], the regular-expression engine,
      [fetch] and the Prisma client are libraries the program calls.  The
      URL constructor is modelled from the WHATWG URL Standard (module
      [Url]); the others are parameters of the functions that call them. *)

From Stdlib Require Import Strings.String Strings.Ascii ZArith NArith List Lia Bool.
From Stdlib Require DecimalString HexadecimalString.
From stdpp Require Import base numbers list gmap strings.

Open Scope string_scope.
Open Scope bool_scope.

(** stdpp keeps [simpl] from unfolding string concatenation; the proofs
    below compute with it. *)
Arguments String.append !s1 s2 : simpl nomatch.

(* ================================================================== *)
(** * JavaScript string primitives *)
(* ================================================================== *)

Module Js.

Definition code (c : ascii) : N := N_of_ascii c.

Definition in_range (lo hi : N) (c : ascii) : bool :=
  (lo <=? code c)%N && (code c <=? hi)%N.

Definition is_digit (c : ascii) : bool := in_range 48 57 c.
Definition is_upper (c : ascii) : bool := in_range 65 90 c.
Definition is_lower (c : ascii) : bool := in_range 97 122 c.
Definition is_alpha (c : ascii) : bool := is_upper c || is_lower c.
Definition is_alnum (c : ascii) : bool := is_alpha c || is_digit c.

(** [String.prototype.toLowerCase] on one code unit below U+0100: the
    ASCII capitals and the Latin-1 capitals U+00C0..U+00DE, U+00D7 (the
    multiplication sign) apart. *)
Definition lower_char (c : ascii) : ascii :=
  if is_upper c || (in_range 192 222 c && negb (code c =? 215)%N)
  then ascii_of_N (code c + 32)
  else c.

(** ASCII lower-casing, as the URL Standard uses it. *)
Definition ascii_lower_char (c : ascii) : ascii :=
  if is_upper c then ascii_of_N (code c + 32) else c.

Fixpoint map_string (f : ascii -> ascii) (s : string) : string :=
  match s with
  | EmptyString => EmptyString
  | String c s' => String (f c) (map_string f s')
  end.

Definition toLowerCase (s : string) : string := map_string lower_char s.

(** White space and line terminators of ECMAScript below U+0100:
    TAB, LF, VT, FF, CR, SPACE and NO-BREAK SPACE. *)
Definition is_js_space (c : ascii) : bool :=
  in_range 9 13 c || (code c =? 32)%N || (code c =? 160)%N.

Fixpoint drop_while (p : ascii -> bool) (s : string) : string :=
  match s with
  | EmptyString => EmptyString
  | String c s' => if p c then drop_while p s' else s
  end.

(** Drops the longest suffix whose characters all satisfy [p]. *)
Fixpoint drop_while_end (p : ascii -> bool) (s : string) : string :=
  match s with
  | EmptyString => EmptyString
  | String c s' =>
      match drop_while_end p s' with
      | EmptyString => if p c then EmptyString else String c EmptyString
      | t => String c t
      end
  end.

Definition trim (s : string) : string :=
  drop_while_end is_js_space (drop_while is_js_space s).

(** [s.includes(sub)] *)
Fixpoint includes (sub s : string) : bool :=
  String.prefix sub s ||
  match s with
  | EmptyString => false
  | String _ s' => includes sub s'
  end.

(** [s.split(sep)] for a separator of one code unit: never empty. *)
Fixpoint split (sep : ascii) (s : string) : list string :=
  match s with
  | EmptyString => [EmptyString]
  | String c s' =>
      if Ascii.eqb c sep then EmptyString :: split sep s'
      else match split sep s' with
           | h :: t => String c h :: t
           | [] => [String c EmptyString]
           end
  end.

(** [parts.join(sep)] *)
Fixpoint join (sep : string) (parts : list string) : string :=
  match parts with
  | [] => EmptyString
  | [x] => x
  | x :: rest => x ++ sep ++ join sep rest
  end.

(** [arr[i] ?? d] *)
Definition at_or (d : string) (i : nat) (arr : list string) : string :=
  nth i arr d.

(** [arr.pop() ?? d]: the last element. *)
Definition pop_or (d : string) (arr : list string) : string :=
  List.last arr d.

(** [s.slice(0, n)] *)
Fixpoint take (n : nat) (s : string) : string :=
  match n, s with
  | S n', String c s' => String c (take n' s')
  | _, _ => EmptyString
  end.

Fixpoint all_chars (p : ascii -> bool) (s : string) : bool :=
  match s with
  | EmptyString => true
  | String c s' => p c && all_chars p s'
  end.

Definition has_char (c : ascii) (s : string) : bool :=
  negb (all_chars (fun x => negb (Ascii.eqb x c)) s).

(** Membership in a [Set<string>] or an array of strings. *)
Definition mem (x : string) (l : list string) : bool :=
  existsb (String.eqb x) l.

(** [set.add(x)] on a [Set<string>] kept in insertion order. *)
Definition set_add (x : string) (l : list string) : list string :=
  if mem x l then l else l ++ [x].

(** JavaScript truthiness of a string. *)
Definition truthy (s : string) : bool := negb (String.eqb s "").

(** Truthiness of a [string | null]. *)
Definition truthy_opt (o : option string) : bool :=
  match o with
  | Some s => truthy s
  | None => false
  end.

End Js.

(* ================================================================== *)
(** * scraper.ts: candidate validation *)
(* ================================================================== *)

Definition ASSET_EXTENSIONS : list string :=
  [ "png"; "jpg"; "jpeg"; "gif"; "svg"; "webp"; "ico"; "bmp"; "tiff"; "avif";
    "pdf"; "woff"; "woff2"; "ttf"; "eot"; "otf"; "mp4"; "webm"; "mp3"; "wav" ].

Definition isLikelyEmail (s : string) : bool :=
  let trimmed := Js.toLowerCase (Js.trim s) in
  if negb (Js.includes "@" trimmed) then false
  else
    let afterAt := Js.at_or "" 1 (Js.split "@" trimmed) in
    let lastPart := Js.pop_or "" (Js.split "." afterAt) in
    negb (Js.mem lastPart ASSET_EXTENSIONS).

(** The validation as the specification words it: no trimming, and the
    text after the LAST [@]. *)
Definition isLikelyEmail_as_specified (s : string) : bool :=
  let lowered := Js.toLowerCase s in
  if negb (Js.includes "@" lowered) then false
  else
    let afterLastAt := Js.pop_or "" (Js.split "@" lowered) in
    let lastPart := Js.pop_or "" (Js.split "." afterLastAt) in
    negb (Js.mem lastPart ASSET_EXTENSIONS).

(* ================================================================== *)
(** * The URL constructor of [node:url] *)
(* ================================================================== *)

(** Modelled from the WHATWG URL Standard, which [node:url] implements:
    the library is not part of the repository.  [parse] is the basic URL
    parser without a base URL, kept to what the program reads ([protocol],
    [hostname], [origin]): path, query and fragment are only delimited,
    never stored (an opaque path apart, which the origin of a [blob:] URL
    needs).  Two limits of [parse]: a host of a special scheme that holds
    a code unit above U+007F goes through Unicode IDNA processing in the
    Standard and is rejected here, and a label starting with [xn--] is
    accepted without Punycode validation.  [parse_with], at the end of
    the module, is the parser with that processing as a function of its
    own. *)
Module Url.

Import Js.

Inductive Host : Type :=
| Domain (d : string)
| IPv4 (address : N)
| IPv6 (pieces : list N)
| OpaqueHost (h : string)
| EmptyHost.

Record URL : Type := mkURL {
  scheme : string;
  host : option Host;
  port : option N;
  opaque_path : option string
}.

(** ** Characters and numbers *)

Definition is_c0_or_space (c : ascii) : bool := (code c <=? 32)%N.

Definition is_tab_or_newline (c : ascii) : bool :=
  (code c =? 9)%N || (code c =? 10)%N || (code c =? 13)%N.

Definition is_ascii_char (c : ascii) : bool := (code c <=? 127)%N.

Definition is_hex (c : ascii) : bool :=
  is_digit c || in_range 65 70 c || in_range 97 102 c.

Definition is_octal (c : ascii) : bool := in_range 48 55 c.

Definition digit_val (c : ascii) : N := (code c - 48)%N.

Definition hex_val (c : ascii) : N :=
  if is_digit c then (code c - 48)%N
  else if in_range 65 70 c then (code c - 55)%N
  else (code c - 87)%N.

(** The value of a string of radix-[r] digits. *)
Fixpoint radix_value (r : N) (acc : N) (s : string) : N :=
  match s with
  | EmptyString => acc
  | String c s' => radix_value r (acc * r + hex_val c)%N s'
  end.

Definition dec (n : N) : string :=
  DecimalString.NilZero.string_of_uint (N.to_uint n).

(** Shortest lower-case hexadecimal numeral. *)
Definition hex (n : N) : string :=
  HexadecimalString.NilZero.string_of_uint (N.to_hex_uint n).

Definition upper_hex_digit (n : N) : ascii :=
  if (n <? 10)%N then ascii_of_N (48 + n) else ascii_of_N (55 + n).

Definition percent_byte (b : N) : string :=
  String "%" (String (upper_hex_digit (b / 16)) (String (upper_hex_digit (b mod 16)) "")).

(** UTF-8 percent-encoding of one code point below U+0100. *)
Definition utf8_percent_encode (c : ascii) : string :=
  if (code c <? 128)%N then percent_byte (code c)
  else percent_byte (192 + code c / 64) ++ percent_byte (128 + code c mod 64).

(** The C0 control percent-encode set. *)
Definition in_c0_control_set (c : ascii) : bool :=
  (code c <? 32)%N || (126 <? code c)%N.

Fixpoint percent_encode_c0 (s : string) : string :=
  match s with
  | EmptyString => EmptyString
  | String c s' =>
      (if in_c0_control_set c then utf8_percent_encode c else String c "")
      ++ percent_encode_c0 s'
  end.

Fixpoint percent_decode (s : string) : string :=
  match s with
  | String c s' =>
      if Ascii.eqb c "%" then
        match s' with
        | String a (String b r) =>
            if is_hex a && is_hex b
            then String (ascii_of_N (hex_val a * 16 + hex_val b)) (percent_decode r)
            else String c (percent_decode s')
        | _ => String c (percent_decode s')
        end
      else String c (percent_decode s')
  | EmptyString => EmptyString
  end.

Fixpoint filter_string (p : ascii -> bool) (s : string) : string :=
  match s with
  | EmptyString => EmptyString
  | String c s' => if p c then String c (filter_string p s') else filter_string p s'
  end.

Fixpoint take_while (p : ascii -> bool) (s : string) : string :=
  match s with
  | EmptyString => EmptyString
  | String c s' => if p c then String c (take_while p s') else EmptyString
  end.

Definition is_forbidden_host (c : ascii) : bool :=
  existsb (N.eqb (code c)) [0; 9; 10; 13; 32; 35; 47; 58; 60; 62; 63; 64; 91; 92; 93; 94; 124]%N.

Definition is_forbidden_domain (c : ascii) : bool :=
  is_forbidden_host c || (code c <? 32)%N || (code c =? 37)%N || (code c =? 127)%N.

(** ** IPv4 *)

(** The IPv4 number parser: hexadecimal after [0x], octal after a leading
    [0], decimal otherwise. *)
Definition ipv4_number (input : string) : option N :=
  match input with
  | EmptyString => None
  | String "0" (String x rest) =>
      if Ascii.eqb x "x" || Ascii.eqb x "X" then
        if all_chars is_hex rest then Some (radix_value 16 0 rest) else None
      else
        if all_chars is_octal (String x rest)
        then Some (radix_value 8 0 (String x rest)) else None
  | _ =>
      if all_chars is_digit input then Some (radix_value 10 0 input) else None
  end.

(** [parts] without its last item when that item is empty and [parts] has
    more than one item. *)
Definition drop_last_empty (parts : list string) : list string :=
  if String.eqb (List.last parts "x") "" && (1 <? List.length parts)%nat
  then removelast parts else parts.

Definition ends_in_number (input : string) : bool :=
  let parts := split "." input in
  if String.eqb (List.last parts "x") "" && (List.length parts =? 1)%nat then false
  else
    let last := List.last (drop_last_empty parts) "" in
    if negb (String.eqb last "") && all_chars is_digit last then true
    else match ipv4_number last with Some _ => true | None => false end.

Fixpoint ipv4_numbers (parts : list string) : option (list N) :=
  match parts with
  | [] => Some []
  | p :: rest =>
      match ipv4_number p, ipv4_numbers rest with
      | Some n, Some ns => Some (n :: ns)
      | _, _ => None
      end
  end.

(** The sum of the leading numbers, each weighted by its position. *)
Fixpoint ipv4_sum (counter : nat) (numbers : list N) : N :=
  match numbers with
  | [] => 0
  | n :: rest => (n * 256 ^ (3 - N.of_nat counter) + ipv4_sum (S counter) rest)%N
  end.

Definition ipv4_parse (input : string) : option N :=
  let parts := drop_last_empty (split "." input) in
  if (4 <? List.length parts)%nat then None
  else
    match ipv4_numbers parts with
    | None => None
    | Some numbers =>
        let leading := removelast numbers in
        let final := List.last numbers 0%N in
        if existsb (fun n => (255 <? n)%N) leading then None
        else if (256 ^ (5 - N.of_nat (List.length numbers)) <=? final)%N then None
        else Some (final + ipv4_sum 0 leading)%N
    end.

Definition ipv4_serialize (address : N) : string :=
  dec (address / 16777216 mod 256) ++ "." ++
  dec (address / 65536 mod 256) ++ "." ++
  dec (address / 256 mod 256) ++ "." ++
  dec (address mod 256).

(** ** IPv6 *)

(** Reads at most [n] hexadecimal digits: the value read, the number of
    digits, the rest of the input. *)
Fixpoint read_hex (n : nat) (s : string) (value : N) (len : nat) : N * nat * string :=
  match n, s with
  | S n', String c s' =>
      if is_hex c then read_hex n' s' (value * 16 + hex_val c)%N (S len)
      else (value, len, s)
  | _, _ => (value, len, s)
  end.

(** One decimal part of an IPv4 address embedded in an IPv6 address: no
    leading zero, at most 255. *)
Fixpoint read_ipv4_piece (s : string) (piece : option N) : option (N * string) :=
  match s with
  | String c s' =>
      if is_digit c then
        match piece with
        | None => read_ipv4_piece s' (Some (digit_val c))
        | Some 0%N => None
        | Some p =>
            let p' := (p * 10 + digit_val c)%N in
            if (255 <? p')%N then None else read_ipv4_piece s' (Some p')
        end
      else option_map (fun p => (p, s)) piece
  | EmptyString => option_map (fun p => (p, s)) piece
  end.

Fixpoint ipv4_in_ipv6 (fuel : nat) (s : string) (address : list N)
    (pieceIndex numbersSeen : nat) : option (list N * nat) :=
  match s with
  | EmptyString => if (numbersSeen =? 4)%nat then Some (address, pieceIndex) else None
  | String c s' =>
      match fuel with
      | O => None
      | S fuel' =>
          let after_dot :=
            if (0 <? numbersSeen)%nat then
              if Ascii.eqb c "." && (numbersSeen <? 4)%nat then Some s' else None
            else Some s in
          match after_dot with
          | None => None
          | Some r =>
              match r with
              | String d _ =>
                  if is_digit d then
                    match read_ipv4_piece r None with
                    | None => None
                    | Some (ipv4Piece, r') =>
                        let address' :=
                          <[pieceIndex := (nth pieceIndex address 0 * 256 + ipv4Piece)%N]> address in
                        let seen := S numbersSeen in
                        let pieceIndex' :=
                          if (seen =? 2)%nat || (seen =? 4)%nat then S pieceIndex else pieceIndex in
                        ipv4_in_ipv6 fuel' r' address' pieceIndex' seen
                    end
                  else None
              | EmptyString => None
              end
          end
      end
  end.

Fixpoint ipv6_loop (fuel : nat) (s : string) (address : list N) (pieceIndex : nat)
    (compress : option nat) : option (list N * nat * option nat) :=
  match s with
  | EmptyString => Some (address, pieceIndex, compress)
  | String c s' =>
      match fuel with
      | O => None
      | S fuel' =>
          if (pieceIndex =? 8)%nat then None
          else if Ascii.eqb c ":" then
            match compress with
            | Some _ => None
            | None => ipv6_loop fuel' s' address (S pieceIndex) (Some (S pieceIndex))
            end
          else
            let '(value, len, r) := read_hex 4 s 0 0 in
            match r with
            | EmptyString =>
                Some (<[pieceIndex := value]> address, S pieceIndex, compress)
            | String d r' =>
                if Ascii.eqb d "." then
                  if (len =? 0)%nat then None
                  else if (6 <? pieceIndex)%nat then None
                  else
                    match ipv4_in_ipv6 (S (String.length s)) s address pieceIndex 0 with
                    | Some (address', pieceIndex') => Some (address', pieceIndex', compress)
                    | None => None
                    end
                else if Ascii.eqb d ":" then
                  match r' with
                  | EmptyString => None
                  | _ =>
                      ipv6_loop fuel' r' (<[pieceIndex := value]> address) (S pieceIndex)
                                compress
                  end
                else None
            end
      end
  end.

(** The closing loop of the parser: the pieces read after [::] move to
    the end of the address. *)
Fixpoint ipv6_swap (swaps pieceIndex compress : nat) (address : list N) : list N :=
  match swaps, pieceIndex with
  | S swaps', S pieceIndex' =>
      let j := (compress + swaps')%nat in
      let a := nth pieceIndex address 0%N in
      let b := nth j address 0%N in
      ipv6_swap swaps' pieceIndex' compress (<[j := a]> (<[pieceIndex := b]> address))
  | _, _ => address
  end.

(** The end of the parser: with [::] the pieces read after it move to the
    end; without it eight pieces must have been read. *)
Definition ipv6_finish (looped : option (list N * nat * option nat)) : option (list N) :=
  match looped with
  | None => None
  | Some (address, pieceIndex, Some k) => Some (ipv6_swap (pieceIndex - k) 7 k address)
  | Some (address, pieceIndex, None) =>
      if (pieceIndex =? 8)%nat then Some address else None
  end.

Definition ipv6_parse (input : string) : option (list N) :=
  let zero := repeat 0%N 8 in
  match input with
  | String c r0 =>
      if Ascii.eqb c ":" then
        match r0 with
        | String c2 r =>
            if Ascii.eqb c2 ":"
            then ipv6_finish (ipv6_loop (S (String.length r)) r zero 1 (Some 1%nat))
            else None
        | EmptyString => None
        end
      else ipv6_finish (ipv6_loop (S (String.length input)) input zero 0 None)
  | EmptyString => ipv6_finish (ipv6_loop 1 input zero 0 None)
  end.

(** The index of the first longest run of two or more zero pieces.
    The state is (longestIndex, longestSize, foundIndex, foundSize). *)
Fixpoint find_compress (pieces : list N) (pieceIndex : nat)
    (st : option nat * nat * option nat * nat) : option nat :=
  let '(longestIndex, longestSize, foundIndex, foundSize) := st in
  match pieces with
  | [] => if (longestSize <? foundSize)%nat then foundIndex else longestIndex
  | p :: rest =>
      if (p =? 0)%N then
        find_compress rest (S pieceIndex)
          (longestIndex, longestSize,
           match foundIndex with None => Some pieceIndex | some => some end,
           S foundSize)
      else
        find_compress rest (S pieceIndex)
          (if (longestSize <? foundSize)%nat
           then (foundIndex, foundSize, None, 0%nat)
           else (longestIndex, longestSize, None, 0%nat))
  end.

Definition is_compress (compress : option nat) (pieceIndex : nat) : bool :=
  match compress with
  | Some k => (k =? pieceIndex)%nat
  | None => false
  end.

Fixpoint ipv6_serialize_loop (pieces : list N) (pieceIndex : nat)
    (compress : option nat) (ignore0 : bool) : string :=
  match pieces with
  | [] => EmptyString
  | p :: rest =>
      if ignore0 && (p =? 0)%N then ipv6_serialize_loop rest (S pieceIndex) compress true
      else if is_compress compress pieceIndex then
        (if (pieceIndex =? 0)%nat then "::" else ":")
        ++ ipv6_serialize_loop rest (S pieceIndex) compress true
      else
        hex p ++ (if (pieceIndex =? 7)%nat then "" else ":")
        ++ ipv6_serialize_loop rest (S pieceIndex) compress false
  end.

Definition ipv6_serialize (pieces : list N) : string :=
  ipv6_serialize_loop pieces 0 (find_compress pieces 0 (None, 1%nat, None, 0%nat)) false.

(** ** Hosts *)

Definition opaque_host_parse (input : string) : option Host :=
  if negb (all_chars (fun c => negb (is_forbidden_host c)) input) then None
  else if String.eqb input "" then Some EmptyHost
  else Some (OpaqueHost (percent_encode_c0 input)).

Definition domain_parse (input : string) : option Host :=
  let domain := percent_decode input in
  if negb (all_chars is_ascii_char domain) then None
  else
    let asciiDomain := map_string ascii_lower_char domain in
    if String.eqb asciiDomain "" then None
    else if negb (all_chars (fun c => negb (is_forbidden_domain c)) asciiDomain) then None
    else if ends_in_number asciiDomain then option_map IPv4 (ipv4_parse asciiDomain)
    else Some (Domain asciiDomain).

Definition last_char (s : string) : option ascii :=
  String.get (String.length s - 1) s.

(** [s] without its first and its last code unit. *)
Definition inner (s : string) : string :=
  String.substring 1 (String.length s - 2) s.

Definition starts_with (c : ascii) (s : string) : bool :=
  match s with
  | String x _ => Ascii.eqb x c
  | EmptyString => false
  end.

Definition ends_with (c : ascii) (s : string) : bool :=
  match last_char s with
  | Some x => Ascii.eqb x c
  | None => false
  end.

Definition host_parse (input : string) (isOpaque : bool) : option Host :=
  if starts_with "[" input then
    if ends_with "]" input then option_map IPv6 (ipv6_parse (inner input)) else None
  else if isOpaque then opaque_host_parse input
  else domain_parse input.

Definition host_serialize (h : Host) : string :=
  match h with
  | Domain d => d
  | IPv4 a => ipv4_serialize a
  | IPv6 p => "[" ++ ipv6_serialize p ++ "]"
  | OpaqueHost o => o
  | EmptyHost => ""
  end.

(** ** The basic URL parser, without a base URL *)

Definition is_special (scheme : string) : bool :=
  mem scheme ["ftp"; "file"; "http"; "https"; "ws"; "wss"].

Definition default_port (scheme : string) : option N :=
  if String.eqb scheme "ftp" then Some 21%N
  else if String.eqb scheme "http" || String.eqb scheme "ws" then Some 80%N
  else if String.eqb scheme "https" || String.eqb scheme "wss" then Some 443%N
  else None.

(** Leading and trailing C0 controls and spaces go, then every tab and
    newline. *)
Definition preprocess (input : string) : string :=
  filter_string (fun c => negb (is_tab_or_newline c))
    (drop_while_end is_c0_or_space (drop_while is_c0_or_space input)).

Definition is_scheme_char (c : ascii) : bool :=
  is_alnum c || Ascii.eqb c "+" || Ascii.eqb c "-" || Ascii.eqb c ".".

(** Scheme state: the buffer up to the first [:], and what follows it. *)
Fixpoint scan_scheme (s : string) : option (string * string) :=
  match s with
  | EmptyString => None
  | String c s' =>
      if Ascii.eqb c ":" then Some (EmptyString, s')
      else if is_scheme_char c then
        match scan_scheme s' with
        | Some (buffer, rest) => Some (String (ascii_lower_char c) buffer, rest)
        | None => None
        end
      else None
  end.

(** Scheme start state; without a scheme and without a base URL the
    parser fails. *)
Definition parse_scheme (s : string) : option (string * string) :=
  match s with
  | String c _ => if is_alpha c then scan_scheme s else None
  | EmptyString => None
  end.

Definition is_slash (c : ascii) : bool := Ascii.eqb c "/" || Ascii.eqb c "\".

Definition is_authority_end (special : bool) (c : ascii) : bool :=
  Ascii.eqb c "/" || Ascii.eqb c "?" || Ascii.eqb c "#" || (special && Ascii.eqb c "\").

(** What follows the last [@], when there is one. *)
Fixpoint after_last_at (s : string) : option string :=
  match s with
  | EmptyString => None
  | String c s' =>
      match after_last_at s' with
      | Some r => Some r
      | None => if Ascii.eqb c "@" then Some s' else None
      end
  end.

(** Host state: the buffer up to the first [:] outside brackets, and the
    port text after it. *)
Fixpoint split_host_port (insideBrackets : bool) (s : string) : string * option string :=
  match s with
  | EmptyString => (EmptyString, None)
  | String c s' =>
      if Ascii.eqb c ":" && negb insideBrackets then (EmptyString, Some s')
      else
        let inside :=
          if Ascii.eqb c "[" then true
          else if Ascii.eqb c "]" then false
          else insideBrackets in
        let '(buffer, p) := split_host_port inside s' in
        (String c buffer, p)
  end.

(** Port state: [None] is failure, [Some None] a null port. *)
Definition parse_port (scheme : string) (buffer : string) : option (option N) :=
  if negb (all_chars is_digit buffer) then None
  else if String.eqb buffer "" then Some None
  else
    let p := radix_value 10 0 buffer in
    if (65535 <? p)%N then None
    else if bool_decide (default_port scheme = Some p) then Some None
    else Some (Some p).

(** Authority state, host state and port state. *)
Definition parse_authority (scheme : string) (special : bool) (input : string)
    : option (Host * option N) :=
  let authority := take_while (fun c => negb (is_authority_end special c)) input in
  let '(atSignSeen, hostport) :=
    match after_last_at authority with
    | Some r => (true, r)
    | None => (false, authority)
    end in
  if atSignSeen && String.eqb hostport "" then None
  else
    match split_host_port false hostport with
    | (buffer, Some portText) =>
        if String.eqb buffer "" then None
        else
          match host_parse buffer (negb special), parse_port scheme portText with
          | Some h, Some p => Some (h, p)
          | _, _ => None
          end
    | (buffer, None) =>
        if special && String.eqb buffer "" then None
        else option_map (fun h => (h, None)) (host_parse buffer (negb special))
    end.

Definition is_windows_drive_letter (s : string) : bool :=
  match s with
  | String a (String b EmptyString) => is_alpha a && (Ascii.eqb b ":" || Ascii.eqb b "|")
  | _ => false
  end.

Definition is_localhost (h : Host) : bool :=
  match h with
  | Domain d => String.eqb d "localhost"
  | _ => false
  end.

(** File state, file slash state and file host state. *)
Definition parse_file_host (input : string) : option Host :=
  match input with
  | String a (String b r) =>
      if is_slash a && is_slash b then
        let buffer :=
          take_while (fun c => negb (is_slash c || Ascii.eqb c "?" || Ascii.eqb c "#")) r in
        if is_windows_drive_letter buffer then Some EmptyHost
        else if String.eqb buffer "" then Some EmptyHost
        else option_map (fun h => if is_localhost h then EmptyHost else h)
                        (host_parse buffer false)
      else Some EmptyHost
  | _ => Some EmptyHost
  end.

(** Opaque path state, up to the query or the fragment. *)
Fixpoint parse_opaque_path (s : string) : string :=
  match s with
  | EmptyString => EmptyString
  | String c s' =>
      if Ascii.eqb c "?" || Ascii.eqb c "#" then EmptyString
      else
        (if Ascii.eqb c " " then
           match s' with
           | String d _ => if Ascii.eqb d "?" || Ascii.eqb d "#" then "%20" else " "
           | EmptyString => " "
           end
         else if in_c0_control_set c then utf8_percent_encode c
         else String c EmptyString)
        ++ parse_opaque_path s'
  end.

Definition parse (input : string) : option URL :=
  match parse_scheme (preprocess input) with
  | None => None
  | Some (scheme, rest) =>
      if String.eqb scheme "file" then
        option_map (fun h => mkURL scheme (Some h) None None) (parse_file_host rest)
      else if is_special scheme then
        option_map (fun hp => mkURL scheme (Some (fst hp)) (snd hp) None)
                   (parse_authority scheme true (drop_while is_slash rest))
      else
        match rest with
        | String "/" (String "/" r) =>
            option_map (fun hp => mkURL scheme (Some (fst hp)) (snd hp) None)
                       (parse_authority scheme false r)
        | String "/" _ => Some (mkURL scheme None None None)
        | _ => Some (mkURL scheme None None (Some (parse_opaque_path rest)))
        end
  end.

(** ** The members the program reads *)

(** [u.protocol] *)
Definition protocol (u : URL) : string := scheme u ++ ":".

(** [u.hostname] *)
Definition hostname (u : URL) : string :=
  match host u with
  | Some h => host_serialize h
  | None => ""
  end.

(** The serialisation of a tuple origin. *)
Definition tuple_origin (u : URL) : string :=
  scheme u ++ "://" ++ hostname u ++
  match port u with
  | Some p => ":" ++ dec p
  | None => ""
  end.

Definition has_tuple_origin (scheme : string) : bool :=
  mem scheme ["ftp"; "http"; "https"; "ws"; "wss"].

(** [u.origin]: a tuple origin for the special schemes other than
    [file:], the origin of the URL in its path for [blob:] when that is an
    [http:] or [https:] URL, the opaque origin ["null"] otherwise. *)
Definition origin (u : URL) : string :=
  if String.eqb (scheme u) "blob" then
    match opaque_path u with
    | Some path =>
        match parse path with
        | Some pathURL =>
            if mem (scheme pathURL) ["http"; "https"] then tuple_origin pathURL
            else "null"
        | None => "null"
        end
    | None => "null"
    end
  else if has_tuple_origin (scheme u) then tuple_origin u
  else "null".

(** ** The parser with IDNA

    [domain_parse] above is the domain parser as far as it goes without
    IDNA: it fails on a domain that is not ASCII, and takes an [xn--]
    label as it is written.  The platform applies domain to ASCII there
    (UTS 46, with the flags the URL standard fixes).  The definitions of
    this section are the same parser with that step left to a function
    [idna] of the host string, which stands for the percent-decoding,
    the UTF-8 decoding and the domain to ASCII of the platform, [None]
    being a failure.  On an ASCII domain none of whose labels starts with
    [xn--], in whatever case, the standard makes the step ASCII
    lowercasing, and [idna] is not asked. *)

Section WithIdna.

Variable idna : string -> option string.

Definition domain_to_ascii_with (input : string) : option string :=
  let domain := percent_decode input in
  let lowered := map_string ascii_lower_char domain in
  if all_chars is_ascii_char domain && negb (existsb (String.prefix "xn--") (split "." lowered))
  then Some lowered
  else idna input.

Definition domain_parse_with (input : string) : option Host :=
  match domain_to_ascii_with input with
  | None => None
  | Some asciiDomain =>
      if String.eqb asciiDomain "" then None
      else if negb (all_chars (fun c => negb (is_forbidden_domain c)) asciiDomain) then None
      else if ends_in_number asciiDomain then option_map IPv4 (ipv4_parse asciiDomain)
      else Some (Domain asciiDomain)
  end.

Definition host_parse_with (input : string) (isOpaque : bool) : option Host :=
  if starts_with "[" input then
    if ends_with "]" input then option_map IPv6 (ipv6_parse (inner input)) else None
  else if isOpaque then opaque_host_parse input
  else domain_parse_with input.

Definition parse_authority_with (scheme : string) (special : bool) (input : string)
    : option (Host * option N) :=
  let authority := take_while (fun c => negb (is_authority_end special c)) input in
  let '(atSignSeen, hostport) :=
    match after_last_at authority with
    | Some r => (true, r)
    | None => (false, authority)
    end in
  if atSignSeen && String.eqb hostport "" then None
  else
    match split_host_port false hostport with
    | (buffer, Some portText) =>
        if String.eqb buffer "" then None
        else
          match host_parse_with buffer (negb special), parse_port scheme portText with
          | Some h, Some p => Some (h, p)
          | _, _ => None
          end
    | (buffer, None) =>
        if special && String.eqb buffer "" then None
        else option_map (fun h => (h, None)) (host_parse_with buffer (negb special))
    end.

Definition parse_file_host_with (input : string) : option Host :=
  match input with
  | String a (String b r) =>
      if is_slash a && is_slash b then
        let buffer :=
          take_while (fun c => negb (is_slash c || Ascii.eqb c "?" || Ascii.eqb c "#")) r in
        if is_windows_drive_letter buffer then Some EmptyHost
        else if String.eqb buffer "" then Some EmptyHost
        else option_map (fun h => if is_localhost h then EmptyHost else h)
                        (host_parse_with buffer false)
      else Some EmptyHost
  | _ => Some EmptyHost
  end.

Definition parse_with (input : string) : option URL :=
  match parse_scheme (preprocess input) with
  | None => None
  | Some (scheme, rest) =>
      if String.eqb scheme "file" then
        option_map (fun h => mkURL scheme (Some h) None None) (parse_file_host_with rest)
      else if is_special scheme then
        option_map (fun hp => mkURL scheme (Some (fst hp)) (snd hp) None)
                   (parse_authority_with scheme true (drop_while is_slash rest))
      else
        match rest with
        | String "/" (String "/" r) =>
            option_map (fun hp => mkURL scheme (Some (fst hp)) (snd hp) None)
                       (parse_authority_with scheme false r)
        | String "/" _ => Some (mkURL scheme None None None)
        | _ => Some (mkURL scheme None None (Some (parse_opaque_path rest)))
        end
  end.

Definition origin_with (u : URL) : string :=
  if String.eqb (scheme u) "blob" then
    match opaque_path u with
    | Some path =>
        match parse_with path with
        | Some pathURL =>
            if mem (scheme pathURL) ["http"; "https"] then tuple_origin pathURL
            else "null"
        | None => "null"
        end
    | None => "null"
    end
  else if has_tuple_origin (scheme u) then tuple_origin u
  else "null".

End WithIdna.

(** The step that makes the parser with IDNA the parser above: a domain
    that is not ASCII fails, and an ASCII domain is lowercased. *)
Definition without_idna (input : string) : option string :=
  let domain := percent_decode input in
  if all_chars is_ascii_char domain then Some (map_string ascii_lower_char domain)
  else None.

End Url.

(** [new URL(s)]: [None] when the constructor throws. *)
Definition URL_new (s : string) : option Url.URL := Url.parse s.

(** [new URL(s)] on a platform whose domain to ASCII is [idna]. *)
Definition URL_new_with (idna : string -> option string) (s : string) : option Url.URL :=
  Url.parse_with idna s.

(* ================================================================== *)
(** * Effects: exceptions and state *)
(* ================================================================== *)

(** A thrown value: an [Error] with its message, or any other value. *)
Inductive thrown : Type :=
| JsError (message : string)
| JsOther.

Inductive Outcome (A : Type) : Type :=
| Ok (a : A)
| Throw (e : thrown).

Arguments Ok {A} a.
Arguments Throw {A} e.

(** A computation over a state [S] that returns or throws. *)
Definition M (S A : Type) : Type := S -> Outcome A * S.

Definition ret {S A} (a : A) : M S A := fun s => (Ok a, s).

Definition throw {S A} (e : thrown) : M S A := fun s => (Throw e, s).

Definition bind {S A B} (m : M S A) (k : A -> M S B) : M S B :=
  fun s =>
    match m s with
    | (Ok a, s') => k a s'
    | (Throw e, s') => (Throw e, s')
    end.

(** [try { m } catch (e) { handler e }] *)
Definition try_catch {S A} (m : M S A) (handler : thrown -> M S A) : M S A :=
  fun s =>
    match m s with
    | (Ok a, s') => (Ok a, s')
    | (Throw e, s') => handler e s'
    end.

Notation "'do' x <- m ; k" := (bind m (fun x => k))
  (at level 10, x name, m at level 100, k at level 200).
Notation "'await' m ; k" := (bind m (fun _ => k))
  (at level 10, m at level 100, k at level 200).

(* ================================================================== *)
(** * scraper.ts *)
(* ================================================================== *)

Record ScrapeResult : Type := mkResult {
  privacyUrl : option string;
  emails : list string
}.

(** An anchor element as the program reads it: [$(el).attr("href")] and
    [$(el).text()]. *)
Record Anchor : Type := mkAnchor {
  a_href : string;
  a_text : string
}.

(** What cheerio makes of a page: the elements matching [a[href]] in
    document order and [$.text()], and where cheerio throws on the page
    (a page nested too deeply for its recursion ends in a [RangeError]):
    the error of [cheerio.load(html)], the error of [$(el).text()] on the
    element of a given index, and the error of [$.text()]. *)
Record Document : Type := mkDocument {
  doc_anchors : list Anchor;
  doc_text : string;
  doc_load_error : option thrown;
  doc_anchor_error : nat -> option thrown;
  doc_text_error : option thrown
}.

(** One call of [fetchText]: the URL and whether an abort signal came
    with it. *)
Record Request : Type := mkRequest {
  req_url : string;
  req_signal : bool
}.

(** The libraries and the network around the scraper. *)
Record Externals : Type := mkExternals {
  (** [cheerio.load(html)] and what is read from the page it loads, with
      the calls that throw on that page *)
  cheerio_load : string -> Document;
  (** [text.match(EMAIL_REGEX)], the empty list for [null] *)
  email_matches : string -> list string;
  (** [new URL(href, base).toString()] once [base] has been parsed; [None]
      when the constructor throws *)
  url_relative : Url.URL -> string -> option string;
  (** what [fetchText] does for a request, given the requests made before
      it: the text of a 2xx response, or the error thrown *)
  fetch_outcome : list Request -> Request -> Outcome string
}.

Definition normalizeOrigin (rawUrl : string) : string :=
  match URL_new rawUrl with
  | Some u => Url.origin u
  | None => rawUrl
  end.

(** [normalizeOrigin] on a platform whose domain to ASCII is [idna]. *)
Definition normalizeOrigin_with (idna : string -> option string) (rawUrl : string) : string :=
  match URL_new_with idna rawUrl with
  | Some u => Url.origin_with idna u
  | None => rawUrl
  end.

Definition getMainDomainOrigin (origin : string) : option string :=
  match URL_new origin with
  | Some u =>
      let labels := Js.split "." (Url.hostname u) in
      if (List.length labels <=? 2)%nat then None
      else
        let mainHost := Js.join "." (skipn 1 labels) in
        Some (Url.protocol u ++ "//" ++ mainHost)
  | None => None
  end.

Definition originHasSubdomain (origin : string) : bool :=
  match URL_new origin with
  | Some u => (2 <? List.length (Js.split "." (Url.hostname u)))%nat
  | None => false
  end.

Definition buildPrivacyCandidates (origin : string) : list string :=
  let suffixes :=
    [ "/privacy"; "/privacy-policy"; "/privacy_policy"; "/legal/privacy";
      "/policies/privacy" ] in
  map (fun s => Js.drop_while_end (Ascii.eqb "/") origin ++ s) suffixes.

(** [href.replace(/^mailto:/i, "")] *)
Definition strip_mailto (href : string) : string :=
  if String.eqb (Js.map_string Js.ascii_lower_char (Js.take 7 href)) "mailto:"
  then String.substring 7 (String.length href - 7) href
  else href.

Section Scraper.

Variable X : Externals.

(** [new URL(href, base)]: the base is parsed first. *)
Definition URL_new_base (href base : string) : option string :=
  match URL_new base with
  | Some b => url_relative X b href
  | None => None
  end.

Definition resolveLink (origin href : string) : option string :=
  URL_new_base href origin.

Definition fetchText (url : string) (signal : bool) : M (list Request) string :=
  fun net =>
    let request := mkRequest url signal in
    (fetch_outcome X net request, (net ++ [request])%list).

(** The body of the callback over [a[href^="mailto:"]]. *)
Definition collectMailto (emails : list string) (el : Anchor) : list string :=
  let href := a_href el in
  if negb (Js.truthy href) then emails
  else
    let email := Js.trim (Js.at_or "" 0 (Js.split "?" (strip_mailto href))) in
    if negb (Js.truthy email) || negb (isLikelyEmail email) then emails
    else Js.set_add email emails.

Definition collectEmailsFromHtml (html : string) (emails : list string) : list string :=
  let doc := cheerio_load X html in
  let mailtoAnchors :=
    filter (fun el => String.prefix "mailto:" (a_href el)) (doc_anchors doc) in
  let emails1 := fold_left collectMailto mailtoAnchors emails in
  fold_left (fun acc m => if isLikelyEmail m then Js.set_add m acc else acc)
            (email_matches X (doc_text doc)) emails1.

(** Does the anchor mention privacy in its text or its href? *)
Definition mentionsPrivacy (el : Anchor) : bool :=
  let text := Js.toLowerCase (a_text el) in
  let hrefLower := Js.toLowerCase (a_href el) in
  Js.includes "privacy" text || Js.includes "privacy" hrefLower.

(** The body of the callback over [a[href]]. *)
Definition privacyLinkStep (origin : string) (found : option string) (el : Anchor)
    : option string :=
  if Js.truthy_opt found then found
  else if mentionsPrivacy el then
    match resolveLink origin (a_href el) with
    | Some resolved => if Js.truthy resolved then Some resolved else found
    | None => found
    end
  else found.

Definition findPrivacyLink (html origin : string) : option string :=
  fold_left (privacyLinkStep origin) (doc_anchors (cheerio_load X html)) None.

(** ** The calls of the two readers

    [findPrivacyLink] and [collectEmailsFromHtml] above are what the two
    functions compute on a page cheerio reads to its end.  A call of
    either throws what cheerio throws; [collectEmailsFromHtml] works on
    the [Set] of its caller, so what it added before a throw stays
    added. *)

(** The callback of [findPrivacyLink] over the elements from index [i]
    on: it returns at once when a link is found, and reads
    [$(el).text()] otherwise. *)
Fixpoint walkAnchors (doc : Document) (origin : string) (i : nat)
    (anchors : list Anchor) (found : option string) : Outcome (option string) :=
  match anchors with
  | [] => Ok found
  | el :: rest =>
      if Js.truthy_opt found then walkAnchors doc origin (S i) rest found
      else
        match doc_anchor_error doc i with
        | Some e => Throw e
        | None => walkAnchors doc origin (S i) rest (privacyLinkStep origin found el)
        end
  end.

(** A call of [findPrivacyLink]. *)
Definition findPrivacyLink_call (html origin : string) : Outcome (option string) :=
  let doc := cheerio_load X html in
  match doc_load_error doc with
  | Some e => Throw e
  | None => walkAnchors doc origin 0 (doc_anchors doc) None
  end.

(** The first loop of [collectEmailsFromHtml]: the addresses of the
    [mailto:] links. *)
Definition collectMailtoLinks (html : string) (emails : list string) : list string :=
  fold_left collectMailto
            (filter (fun el => String.prefix "mailto:" (a_href el))
                    (doc_anchors (cheerio_load X html)))
            emails.

(** A call of [collectEmailsFromHtml] on the set [emails]: its outcome,
    and the set as the call leaves it. *)
Definition collectEmailsFromHtml_call (html : string) : M (list string) unit :=
  fun emails =>
    let doc := cheerio_load X html in
    match doc_load_error doc with
    | Some e => (Throw e, emails)
    | None =>
        let emails1 := collectMailtoLinks html emails in
        match doc_text_error doc with
        | Some e => (Throw e, emails1)
        | None =>
            (Ok tt,
             fold_left (fun acc m => if isLikelyEmail m then Js.set_add m acc else acc)
                       (email_matches X (doc_text doc)) emails1)
        end
    end.

(** The loop over the candidates.  The [try] holds the fetch, the
    assignment to [privacyUrl], the call of [collectEmailsFromHtml] and
    the [break], in this order, and the [catch] is empty: a candidate
    that cannot be fetched changes nothing, and a candidate whose page
    makes [collectEmailsFromHtml] throw is the privacy URL, has added
    what it added, and sends the loop on to the next candidate. *)
Fixpoint tryCandidates (candidates : list string) (signal : bool)
    (privacyUrl : option string) (emails : list string)
    : M (list Request) (option string * list string) :=
  match candidates with
  | [] => ret (privacyUrl, emails)
  | candidate :: rest =>
      do fetched <- try_catch (do html <- fetchText candidate signal; ret (Some html))
                              (fun _ => ret None);
      match fetched with
      | Some html =>
          match collectEmailsFromHtml_call html emails with
          | (Ok _, emails) => ret (Some candidate, emails)
          | (Throw _, emails) => tryCandidates rest signal (Some candidate) emails
          end
      | None => tryCandidates rest signal privacyUrl emails
      end
  end.

(** The homepage is read outside any [try]: what cheerio throws on it
    leaves [scrapeOrigin].  On the page of the link the throw is caught,
    and the emails added before it stay. *)
Definition scrapeOrigin (origin : string) (signal : bool) : M (list Request) ScrapeResult :=
  let emails := [] in
  do homepageHtml <- try_catch (do html <- fetchText origin signal; ret (Some html))
                               (fun _ => ret None);
  do home <-
    match homepageHtml with
    | Some html =>
        if Js.truthy html then
          match findPrivacyLink_call html origin with
          | Ok privacyUrl =>
              match collectEmailsFromHtml_call html emails with
              | (Ok _, emails) => ret (privacyUrl, emails)
              | (Throw e, _) => throw e
              end
          | Throw e => throw e
          end
        else ret (None, emails)
    | None => ret (None, emails)
    end;
  let '(privacyUrl, emails) := home in
  do found <-
    match privacyUrl with
    | Some link =>
        if Js.truthy link then
          do page <- try_catch (do html <- fetchText link signal; ret (Some html))
                               (fun _ => ret None);
          match page with
          | Some html => ret (privacyUrl, snd (collectEmailsFromHtml_call html emails))
          | None => ret (privacyUrl, emails)
          end
        else tryCandidates (buildPrivacyCandidates origin) signal privacyUrl emails
    | None => tryCandidates (buildPrivacyCandidates origin) signal privacyUrl emails
    end;
  ret (mkResult (fst found) (snd found)).

End Scraper.

(** [[...new Set(xs)]] *)
Definition dedupe (xs : list string) : list string :=
  fold_left (fun acc x => Js.set_add x acc) xs [].

(** [a ?? b] *)
Definition nullish_or (a b : option string) : option string :=
  match a with
  | Some _ => a
  | None => b
  end.

Section Wrapper.

(** [scrapeOrigin] as the wrapper sees it: a call that may throw. *)
Variable scrape : string -> bool -> M (list Request) ScrapeResult.

Definition findPrivacyPolicyAndEmails_over (rawUrl : string)
    : M (list Request) ScrapeResult :=
  let origin := normalizeOrigin rawUrl in
  do result <- try_catch (scrape origin true) (fun _ => ret (mkResult None []));
  let shouldTryMainDomain :=
    negb (Js.truthy_opt (privacyUrl result)) &&
    (List.length (emails result) =? 0)%nat &&
    originHasSubdomain origin in
  if shouldTryMainDomain then
    match getMainDomainOrigin origin with
    | Some mainOrigin =>
        if Js.truthy mainOrigin then
          try_catch
            (do mainResult <- scrape mainOrigin false;
             ret (mkResult (nullish_or (privacyUrl mainResult) (privacyUrl result))
                           (dedupe (emails result ++ emails mainResult)%list)))
            (fun _ => ret result)
        else ret result
    | None => ret result
    end
  else ret result.

End Wrapper.

Definition findPrivacyPolicyAndEmails (X : Externals) (rawUrl : string)
    : M (list Request) ScrapeResult :=
  findPrivacyPolicyAndEmails_over (scrapeOrigin X) rawUrl.

(* ================================================================== *)
(** * server.ts: entries and the store *)
(* ================================================================== *)

(** A row of the [Entry] table (its two timestamps are left out: no
    function below reads them). *)
Record Entry : Type := mkEntry {
  e_id : Z;
  e_siteName : option string;
  e_url : string;
  e_username : option string;
  e_sourceEmail : option string;
  e_scrapedEmails : option string;
  e_privacyUrl : option string;
  e_status : string;
  e_errorMessage : option string
}.

Record ApiEntry : Type := mkApiEntry {
  api_id : Z;
  api_siteName : option string;
  api_url : string;
  api_username : option string;
  api_sourceEmail : option string;
  api_scrapedEmails : list string;
  api_privacyUrl : option string;
  api_status : string;
  api_errorMessage : option string
}.

(** The [data] of [db.entry.update]: a field is written only when it is
    supplied. *)
Record EntryData : Type := mkData {
  d_status : option string;
  d_errorMessage : option (option string);
  d_privacyUrl : option (option string);
  d_scrapedEmails : option (option string)
}.

Definition applyData (data : EntryData) (e : Entry) : Entry :=
  {| e_id := e_id e;
     e_siteName := e_siteName e;
     e_url := e_url e;
     e_username := e_username e;
     e_sourceEmail := e_sourceEmail e;
     e_scrapedEmails := default (e_scrapedEmails e) (d_scrapedEmails data);
     e_privacyUrl := default (e_privacyUrl e) (d_privacyUrl data);
     e_status := default (e_status e) (d_status data);
     e_errorMessage := default (e_errorMessage e) (d_errorMessage data) |}.

(** The world of one request handler: the requests sent so far, the rows
    of the table, and the faults the store has in wait, one per call of the
    client ([None]: the call goes through). *)
Record World : Type := mkWorld {
  w_requests : list Request;
  w_rows : gmap Z Entry;
  w_faults : list (option thrown)
}.

(** Prisma's error for a missing record (code P2025). *)
Definition recordNotFound : thrown :=
  JsError "An operation failed because it depends on one or more records that were required but not found.".

(** One call of the Prisma client. *)
Definition db_call {A} (op : gmap Z Entry -> Outcome A * gmap Z Entry) : M World A :=
  fun w =>
    match w_faults w with
    | Some e :: later => (Throw e, mkWorld (w_requests w) (w_rows w) later)
    | fault =>
        let '(o, rows) := op (w_rows w) in
        (o, mkWorld (w_requests w) rows (tail fault))
    end.

(** [db.entry.findUnique({ where: { id } })] *)
Definition findUnique (id : Z) : M World (option Entry) :=
  db_call (fun rows => (Ok (rows !! id), rows)).

(** [db.entry.update({ where: { id }, data })] *)
Definition update (id : Z) (data : EntryData) : M World Entry :=
  db_call (fun rows =>
    match rows !! id with
    | Some e => (Ok (applyData data e), <[id := applyData data e]> rows)
    | None => (Throw recordNotFound, rows)
    end).

(** A computation of the scraper, run in the world of the handler. *)
Definition lift_net {A} (m : M (list Request) A) : M World A :=
  fun w =>
    let '(o, net) := m (w_requests w) in
    (o, mkWorld net (w_rows w) (w_faults w)).

Definition lift_outcome {S A} (o : Outcome A) : M S A := fun s => (o, s).

(** ** JSON.stringify of a string array *)

Definition dquote : ascii := ascii_of_N 34.

Definition lower_hex_digit (n : N) : ascii :=
  if (n <? 10)%N then ascii_of_N (48 + n) else ascii_of_N (87 + n).

Definition json_escape_char (c : ascii) : string :=
  let n := Js.code c in
  if (n =? 8)%N then "\b"
  else if (n =? 9)%N then "\t"
  else if (n =? 10)%N then "\n"
  else if (n =? 12)%N then "\f"
  else if (n =? 13)%N then "\r"
  else if (n =? 34)%N then String "\" (String dquote "")
  else if (n =? 92)%N then "\\"
  else if (n <? 32)%N then
    "\u00" ++ String (lower_hex_digit (n / 16)) (String (lower_hex_digit (n mod 16)) "")
  else String c "".

Fixpoint json_escape (s : string) : string :=
  match s with
  | EmptyString => EmptyString
  | String c s' => json_escape_char c ++ json_escape s'
  end.

Definition json_quote (s : string) : string :=
  String dquote (json_escape s ++ String dquote "").

Definition JSON_stringify (xs : list string) : string :=
  "[" ++ Js.join "," (map json_quote xs) ++ "]".

(** ** scrapeEntry *)

Section Server.

(** [JSON.parse] of the stored column, read as a string array. *)
Variable JSON_parse : string -> Outcome (list string).

(** [findPrivacyPolicyAndEmails], as imported from the scraper. *)
Variable discover : string -> M (list Request) ScrapeResult.

Definition mapRow (row : Entry) : Outcome ApiEntry :=
  let parsed :=
    if Js.truthy_opt (e_scrapedEmails row)
    then JSON_parse (default "" (e_scrapedEmails row))
    else Ok [] in
  match parsed with
  | Ok scraped =>
      Ok {| api_id := e_id row;
            api_siteName := e_siteName row;
            api_url := e_url row;
            api_username := e_username row;
            api_sourceEmail := e_sourceEmail row;
            api_scrapedEmails := scraped;
            api_privacyUrl := e_privacyUrl row;
            api_status := e_status row;
            api_errorMessage := e_errorMessage row |}
  | Throw e => Throw e
  end.

(** The message the [catch] block stores. *)
Definition errorMessageOf (err : thrown) : string :=
  match err with
  | JsError message => Js.take 500 message
  | JsOther => "Unknown error"
  end.

(** The [try] block of [scrapeEntry]. *)
Definition scrapeEntry_try (id : Z) (existing : Entry) : M World unit :=
  do result <- lift_net (discover (e_url existing));
  if negb (Js.truthy_opt (privacyUrl result)) && (List.length (emails result) =? 0)%nat
  then
    await update id (mkData (Some "no_results") None None None);
    ret tt
  else
    await update id (mkData (Some "done") (Some None) (Some (privacyUrl result))
                          (Some (Some (JSON_stringify (emails result)))));
    ret tt.

(** The [catch] block of [scrapeEntry]. *)
Definition scrapeEntry_catch (id : Z) (err : thrown) : M World unit :=
  let message := errorMessageOf err in
  await update id (mkData (Some "error") (Some (Some message)) None None);
  ret tt.

Definition scrapeEntry (id : Z) : M World ApiEntry :=
  do existing <- findUnique id;
  match existing with
  | None => throw (JsError "Entry not found")
  | Some existing =>
      await update id (mkData (Some "in_progress") (Some None) None None);
      await try_catch (scrapeEntry_try id existing) (scrapeEntry_catch id);
      do updated <- findUnique id;
      match updated with
      | None => throw (JsError "Entry disappeared")
      | Some row => lift_outcome (mapRow row)
      end
  end.

End Server.

(* ================================================================== *)
(** * server.ts: the batch scheduler *)
(* ================================================================== *)

(** The state of one call of [processScrapeQueue].  [queue] and
    [activeCount] are the variables of the code.  [completions] counts the
    settlements of the returned promise (the calls of [resolve], or the
    early [return]); [started] lists the ids given to [scrapeEntry], in
    order; [inFlight] lists the calls of [scrapeEntry] not yet settled. *)
Record Batch : Type := mkBatch {
  queue : list Z;
  activeCount : Z;
  completions : nat;
  started : list Z;
  inFlight : list Z
}.

Definition resolve (b : Batch) : Batch :=
  mkBatch (queue b) (activeCount b) (S (completions b)) (started b) (inFlight b).

(** The [while] loop of [processNext]. *)
Fixpoint processLoop (concurrency : Z) (queue : list Z) (activeCount : Z)
    (started inFlight : list Z) : list Z * Z * list Z * list Z :=
  match queue with
  | id :: rest =>
      if (activeCount <? concurrency)%Z
      then processLoop concurrency rest (activeCount + 1)%Z
                       (started ++ [id])%list (inFlight ++ [id])%list
      else (queue, activeCount, started, inFlight)
  | [] => (queue, activeCount, started, inFlight)
  end.

Definition processNext (concurrency : Z) (b : Batch) : Batch :=
  let '(q, a, s, f) :=
    processLoop concurrency (queue b) (activeCount b) (started b) (inFlight b) in
  let b' := mkBatch q a (completions b) s f in
  if (a =? 0)%Z && (List.length q =? 0)%nat then resolve b' else b'.

(** The [finally] callback of the call at position [k] of [inFlight]. *)
Definition onFinally (concurrency : Z) (k : nat) (b : Batch) : Batch :=
  let b1 := mkBatch (queue b) (activeCount b - 1)%Z (completions b) (started b)
                    (delete k (inFlight b)) in
  if (0 <? List.length (queue b1))%nat then processNext concurrency b1
  else if (activeCount b1 =? 0)%Z then resolve b1
  else b1.

(** [scrapeEntry(id).finally(..).catch(() => {})] once [scrapeEntry(id)]
    has settled with [outcome]: the callback runs either way, and a
    rejection ends in the empty handler. *)
Definition settle (concurrency : Z) (k : nat) (outcome : Outcome ApiEntry) (b : Batch)
    : Outcome unit * Batch :=
  match inFlight b !! k with
  | None => (Ok tt, b)
  | Some _ =>
      let b' := onFinally concurrency k b in
      let afterFinally : Outcome unit :=
        match outcome with
        | Ok _ => Ok tt
        | Throw e => Throw e
        end in
      let afterCatch : Outcome unit :=
        match afterFinally with
        | Ok _ => Ok tt
        | Throw _ => Ok tt
        end in
      (afterCatch, b')
  end.

Definition processScrapeQueue (entryIds : list Z) (concurrency : Z) : Batch :=
  if (List.length entryIds =? 0)%nat then mkBatch [] 0 1 [] []
  else processNext concurrency (mkBatch entryIds 0 0 [] []).

(** A settlement: the call at position [k] of [inFlight] settles with
    [outcome]. *)
Record Settlement : Type := mkSettlement {
  s_position : nat;
  s_outcome : Outcome ApiEntry
}.

(** The batch after the given settlements, in order. *)
Definition after (concurrency : Z) (settlements : list Settlement) (b : Batch) : Batch :=
  fold_left (fun b s => snd (settle concurrency (s_position s) (s_outcome s) b))
            settlements b.

(** ** The vocabulary of the scheduler's properties *)

(** The ids still to be settled: queued or in flight. *)
Definition remaining (b : Batch) : nat :=
  (List.length (queue b) + List.length (inFlight b))%nat.

(** Nothing queued and nothing in flight. *)
Definition idle (b : Batch) : bool :=
  match queue b, inFlight b with
  | [], [] => true
  | _, _ => false
  end.

(** The invariant of a batch over [ids] with ceiling [C]. *)
Record Inv (C : Z) (ids : list Z) (b : Batch) : Prop := mkInv {
  inv_count : activeCount b = Z.of_nat (List.length (inFlight b));
  inv_full : activeCount b = Z.min C (Z.of_nat (remaining b));
  inv_fifo : (started b ++ queue b)%list = ids;
  inv_done : completions b = if idle b then 1%nat else 0%nat
}.

(** ** The vocabulary of the properties of [scrapeEntry] *)

(** The result of a discovery that found nothing. *)
Definition foundNothing (result : ScrapeResult) : bool :=
  negb (Js.truthy_opt (privacyUrl result)) && (List.length (emails result) =? 0)%nat.

(** A store with one entry, scraped with success before and in error
    since. *)
Definition sampleEntry : Entry :=
  mkEntry 1 (Some "Example") "https://example.com" None (Some "me@example.com")
          (Some (JSON_stringify ["old@example.com"])) (Some "https://example.com/privacy")
          "error" (Some "HTTP 500").

Definition sampleWorld (faults : list (option thrown)) : World :=
  mkWorld [] (<[1%Z := sampleEntry]> ∅) faults.

(** ** The vocabulary of the properties of the scraper *)

(** The result of the first attempt of the wrapper, once a throw has
    collapsed to the empty result. *)
Definition collapsed (o : Outcome ScrapeResult) : ScrapeResult :=
  match o with
  | Ok result => result
  | Throw _ => mkResult None []
  end.

(** The absolute URL an anchor leads to, when its href resolves. *)
Definition resolved (X : Externals) (origin : string) (el : Anchor) : option string :=
  match resolveLink X origin (a_href el) with
  | Some url => if Js.truthy url then Some url else None
  | None => None
  end.

(** What the homepage gave: the privacy link and the emails of steps 1 and
    2 of the discovery, from the outcome of fetching the homepage; or
    what cheerio threw on it. *)
Definition homepageFindings (X : Externals) (origin : string) (fetched : Outcome string)
    : Outcome (option string * list string) :=
  match fetched with
  | Ok html =>
      if Js.truthy html then
        match findPrivacyLink_call X html origin with
        | Ok privacyUrl =>
            match collectEmailsFromHtml_call X html [] with
            | (Ok _, emails) => Ok (privacyUrl, emails)
            | (Throw e, _) => Throw e
            end
        | Throw e => Throw e
        end
      else Ok (None, [])
  | Throw _ => Ok (None, [])
  end.

(** Does cheerio read a page to its end, whatever is looked for in it? *)
Definition readable (X : Externals) (html : string) : bool :=
  match doc_load_error (cheerio_load X html), doc_text_error (cheerio_load X html) with
  | None, None => true
  | _, _ => false
  end.

(** Does the attempt at a candidate end the loop: its page was fetched
    and read to its end. *)
Definition settles (X : Externals) (fetched : Outcome string) : bool :=
  match fetched with
  | Ok html => readable X html
  | Throw _ => false
  end.

(** The privacy URL and the emails after an attempt that did not end the
    loop. *)
Definition passedOver (X : Externals) (candidate : string) (fetched : Outcome string)
    (state : option string * list string) : option string * list string :=
  match fetched with
  | Ok html => (Some candidate, snd (collectEmailsFromHtml_call X html (snd state)))
  | Throw _ => state
  end.

(** The requests for the first [n] of the given URLs. *)
Definition requestsFor (signal : bool) (n : nat) (urls : list string) : list Request :=
  map (fun url => mkRequest url signal) (firstn n urls).

(** What fetching the candidate of index [j] gives, the candidates
    before it having been asked for. *)
Definition attempt (X : Externals) (signal : bool) (net : list Request)
    (candidates : list string) (j : nat) : Outcome string :=
  fetch_outcome X (net ++ requestsFor signal j candidates)%list
                (mkRequest (nth j candidates "") signal).

(** The privacy URL and the emails after the first [n] candidates, none
    of which ended the loop. *)
Fixpoint passedOverFirst (X : Externals) (signal : bool) (net : list Request)
    (candidates : list string) (n : nat) (state : option string * list string)
    : option string * list string :=
  match n with
  | O => state
  | S m =>
      passedOver X (nth m candidates "") (attempt X signal net candidates m)
                 (passedOverFirst X signal net candidates m state)
  end.

(** A page with one anchor, and a page with two; the libraries around
    them.  [sampleRelative] gives what [new URL(href, base).toString()]
    gives for the hrefs of these pages: a path is appended to the origin of
    the base, and [http://:80/privacy], which has no host, throws. *)
Definition onePrivacyAnchor : Document :=
  mkDocument [mkAnchor "/privacy" "Privacy Policy"] "Privacy Policy"
             None (fun _ => None) None.

Definition twoPrivacyAnchors : Document :=
  mkDocument [mkAnchor "http://:80/privacy" "Legal"; mkAnchor "/privacy" "Privacy Policy"]
             "Legal Privacy Policy" None (fun _ => None) None.

Definition sampleRelative (base : Url.URL) (href : string) : option string :=
  if String.prefix "/" href && negb (String.prefix "//" href)
  then Some (Url.tuple_origin base ++ href)
  else None.

Definition sampleExternals (doc : Document) : Externals :=
  mkExternals (fun _ => doc) (fun _ => []) sampleRelative (fun _ _ => Throw JsOther).

(** A privacy page with a [mailto:] link and two matches of the email
    pattern in its text, and a page nested so deeply that [$.text()]
    throws on it. *)
Definition policyPage : Document :=
  mkDocument [mkAnchor "mailto:dpo@example.com?subject=Privacy" "Contact"]
             "Contact privacy@example.com (icon@2x.png)"
             None (fun _ => None) None.

Definition deepPage : Document :=
  mkDocument [mkAnchor "mailto:legal@example.com" "Legal"] "Legal"
             None (fun _ => None) (Some (JsError "Maximum call stack size exceeded")).

Definition sampleMatches (text : string) : list string :=
  if String.eqb text "Contact privacy@example.com (icon@2x.png)"
  then ["privacy@example.com"; "icon@2x.png"]
  else [].

(** A site that serves [/privacy-policy] only, and a site that serves
    the deep page at [/privacy] as well. *)
Definition policySite : Externals :=
  mkExternals (fun _ => policyPage) sampleMatches sampleRelative
    (fun _ request =>
       if String.eqb (req_url request) "https://example.com/privacy-policy"
       then Ok "<html>" else Throw (JsError "HTTP 404")).

Definition deepSite : Externals :=
  mkExternals (fun html => if String.eqb html "<deep>" then deepPage else policyPage)
    sampleMatches sampleRelative
    (fun _ request =>
       if String.eqb (req_url request) "https://example.com/privacy"
       then Ok "<deep>"
       else if String.eqb (req_url request) "https://example.com/privacy-policy"
       then Ok "<html>" else Throw (JsError "HTTP 404")).

(** A site whose homepage links to [/privacy], where the deep page is. *)
Definition linkedSite : Externals :=
  mkExternals (fun html => if String.eqb html "<deep>" then deepPage else onePrivacyAnchor)
    sampleMatches sampleRelative
    (fun _ request =>
       if String.eqb (req_url request) "https://example.com"
       then Ok "<html>"
       else if String.eqb (req_url request) "https://example.com/privacy"
       then Ok "<deep>" else Throw (JsError "HTTP 404")).

(** ** The vocabulary of the properties of the URL parser *)

Module UrlSpec.

Import Js Url.

(** The digits of a serialised piece, and the code units of a serialised
    IPv6 address. *)
Definition is_lower_hex (c : ascii) : bool := is_digit c || in_range 97 102 c.

Definition is_ipv6_char (c : ascii) : bool := is_lower_hex c || Ascii.eqb c ":".

(** A code unit that ends neither the input nor the authority, and is
    not [@]. *)
Definition is_plain (c : ascii) : bool :=
  negb (is_c0_or_space c) && negb (is_authority_end true c) && negb (Ascii.eqb c "@").

(** A code unit that host state copies to the buffer without looking at
    it. *)
Definition is_host_text (c : ascii) : bool :=
  negb (Ascii.eqb c ":") && negb (Ascii.eqb c "[") && negb (Ascii.eqb c "]").

(** A property of the numbers from [n] on, checked one by one. *)
Fixpoint all_from (count : nat) (n : N) (P : N -> bool) : bool :=
  match count with
  | O => true
  | S count' => P n && all_from count' (N.succ n) P
  end.

(** The decimal numeral of a port, of a part of an IPv4 address, and the
    hexadecimal numeral of a piece of an IPv6 address, read back. *)
Definition port_check (p : N) : bool :=
  all_chars is_digit (dec p) && negb (String.eqb (dec p) "") &&
  (radix_value 10 0 (dec p) =? p)%N.

Definition byte_check (b : N) : bool :=
  all_chars is_digit (dec b) && negb (String.eqb (dec b) "") &&
  match ipv4_number (dec b) with
  | Some v => (v =? b)%N
  | None => false
  end.

Definition piece_check (p : N) : bool :=
  all_chars is_lower_hex (hex p) &&
  (1 <=? String.length (hex p))%nat && (String.length (hex p) <=? 4)%nat &&
  (radix_value 16 0 (hex p) =? p)%N.

(** The input goes on with something other than a hexadecimal digit. *)
Definition no_hex_ahead (s : string) : Prop :=
  match s with
  | String c _ => is_hex c = false
  | EmptyString => True
  end.

(** The loop of the parser, with the fuel its input calls for. *)
Definition ipv6_run (s : string) (address : list N) (pieceIndex : nat)
    (compress : option nat) : option (list N * nat * option nat) :=
  ipv6_loop (String.length s) s address pieceIndex compress.

(** Eight pieces of sixteen bits. *)
Definition pieces_ok (address : list N) : Prop :=
  List.length address = 8%nat /\ Forall (fun p => (p < 65536)%N) address.

(** The state of the loop over an embedded IPv4 address: the piece being
    filled holds nothing yet, or one part; the pieces after it are zero. *)
Definition embedded_ok (address : list N) (pieceIndex numbersSeen : nat) : Prop :=
  pieces_ok address /\
  (forall j, (pieceIndex < j)%nat -> nth j address 0%N = 0%N) /\
  (nth pieceIndex address 0 <= if Nat.even numbersSeen then 0 else 255)%N.

(** The state of the main loop: the pieces not yet read are zero. *)
Definition loop_ok (address : list N) (pieceIndex : nat) : Prop :=
  pieces_ok address /\ (forall j, (pieceIndex <= j)%nat -> nth j address 0%N = 0%N).

(** A code unit a parsed domain can hold. *)
Definition is_domain_char (c : ascii) : bool :=
  is_ascii_char c && negb (is_forbidden_domain c) && negb (is_upper c).

(** A code unit of a serialised IPv4 address. *)
Definition is_dotted_char (c : ascii) : bool := is_digit c || Ascii.eqb c ".".

(** What the host parser returns for a special scheme. *)
Definition host_ok (h : Host) : Prop :=
  match h with
  | Domain d => d <> "" /\ all_chars is_domain_char d = true /\ ends_in_number d = false
  | IPv4 address => (address < 4294967296)%N
  | IPv6 pieces => pieces_ok pieces
  | OpaqueHost _ => False
  | EmptyHost => False
  end.

(** What the host parser with IDNA returns for a special scheme: a
    domain is one that domain to ASCII leaves as it is. *)
Definition host_ok_with (idna : string -> option string) (h : Host) : Prop :=
  match h with
  | Domain d =>
      d <> "" /\ all_chars (fun c => negb (is_forbidden_domain c)) d = true /\
      ends_in_number d = false /\ domain_to_ascii_with idna d = Some d
  | IPv4 address => (address < 4294967296)%N
  | IPv6 pieces => pieces_ok pieces
  | OpaqueHost _ => False
  | EmptyHost => False
  end.

(** Domain to ASCII leaves its own results as they are: a result that
    the host parser accepts as a domain is a domain in ASCII form
    already, lowercase, with its [xn--] labels valid. *)
Definition idna_stable (idna : string -> option string) : Prop :=
  forall input asciiDomain,
    idna input = Some asciiDomain ->
    all_chars (fun c => negb (is_forbidden_domain c)) asciiDomain = true ->
    domain_to_ascii_with idna asciiDomain = Some asciiDomain.

(** A domain to ASCII that knows one name: [m\252nchen.de], with the
    Latin-1 code unit of the u with diaeresis, and its ASCII form. *)
Definition sample_idna (input : string) : option string :=
  if String.eqb input ("m" ++ String "252" "nchen.de") || String.eqb input "xn--mnchen-3ya.de"
  then Some "xn--mnchen-3ya.de"
  else None.

(** How host state reads a serialised host followed by more input. *)
Definition reads_whole (s : string) : Prop :=
  forall rest,
    split_host_port false (s ++ rest) =
    (s ++ fst (split_host_port false rest), snd (split_host_port false rest)).

(** What port state leaves as the port of a URL. *)
Definition port_ok (scheme : string) (p : option N) : Prop :=
  match p with
  | Some q => (q < 65536)%N /\ default_port scheme <> Some q
  | None => True
  end.

End UrlSpec.

(* ================================================================== *)
(** * server.ts: the routes *)
(* ================================================================== *)

(** What a handler sends: [res.json(a)], [res.status(n).json({ error })]
    or [res.status(n).send()]. *)
Inductive Body (A : Type) : Type :=
| Json (a : A)
| ErrorJson (error : string)
| NoContent.

Arguments Json {A} a.
Arguments ErrorJson {A} error.
Arguments NoContent {A}.

Record Response (A : Type) : Type := mkResponse {
  r_status : Z;
  r_body : Body A
}.

Arguments mkResponse {A} r_status r_body.
Arguments r_status {A} r.
Arguments r_body {A} r.

(** [err instanceof Error ? err.message : d] *)
Definition messageOr (d : string) (err : thrown) : string :=
  match err with
  | JsError message => message
  | JsOther => d
  end.

(** ** POST /api/import *)

(** An item of the request body.  A field that is absent and a field
    that is [null] read the same through [??] and [?.]. *)
Record ImportEntry : Type := mkImport {
  i_name : option string;
  i_url : option string;
  i_username : option string;
  i_sourceEmail : option string
}.

(** The [data] of [db.entry.create]. *)
Record NewEntry : Type := mkNew {
  n_siteName : option string;
  n_url : string;
  n_username : option string;
  n_sourceEmail : option string
}.

(** The three counters of the handler. *)
Record Counters : Type := mkCounters {
  c_imported : nat;
  c_duplicates : nat;
  c_invalid : nat
}.

Record ImportSummary : Type := mkSummary {
  sum_imported : nat;
  sum_duplicates : nat;
  sum_invalid : nat;
  sum_total : nat
}.

(** [field?.trim() || null] *)
Definition trimmedOrNull (field : option string) : option string :=
  match field with
  | Some s => if Js.truthy (Js.trim s) then Some (Js.trim s) else None
  | None => None
  end.

(** [value || null] *)
Definition orNull (value : option string) : option string :=
  if Js.truthy_opt value then value else None.

(** The data the handler makes of an item whose URL parsed as [u]. *)
Definition importData (item : ImportEntry) (u : Url.URL) : NewEntry :=
  let normalizedUrl := Url.origin u in
  let siteName := trimmedOrNull (i_name item) in
  let username := trimmedOrNull (i_username item) in
  let sourceEmail := trimmedOrNull (i_sourceEmail item) in
  mkNew siteName normalizedUrl username sourceEmail.

(** ** The request body as it arrives

    [req.body] is what [express.json()] made of the request, cast to the
    type of the handler without a check: any JSON value, or [undefined]
    when nothing was parsed. *)
#[warnings="-register-all"] Inductive JsonValue : Type :=
| JNull
| JBool (b : bool)
| JNumber (literal : string)
| JString (s : string)
| JArray (items : list JsonValue)
| JObject (members : list (string * JsonValue)).

(** The properties a value has of its own, by name. *)
Definition ownProperty (value : JsonValue) (key : string) : option JsonValue :=
  match value with
  | JObject members => option_map snd (List.find (fun m => String.eqb (fst m) key) members)
  | _ => None
  end.

(** [value.key], for the keys [url], [name], [username] and
    [sourceEmail], which no prototype defines: [undefined] is [None], and
    reading a property of [null] throws a [TypeError]. *)
Definition getMember (value : JsonValue) (key : string) : Outcome (option JsonValue) :=
  match value with
  | JNull => Throw (JsError "Cannot read properties of null")
  | _ => Ok (ownProperty value key)
  end.

(** [(field ?? '').trim()]: a value that is neither nullish nor a
    string has no [trim]. *)
Definition trimOrEmpty (field : option JsonValue) : Outcome string :=
  match field with
  | None | Some JNull => Ok (Js.trim "")
  | Some (JString s) => Ok (Js.trim s)
  | Some _ => Throw (JsError "trim is not a function")
  end.

(** [field?.trim() || null] *)
Definition trimOrNull (field : option JsonValue) : Outcome (option string) :=
  match field with
  | None | Some JNull => Ok None
  | Some (JString s) => Ok (if Js.truthy (Js.trim s) then Some (Js.trim s) else None)
  | Some _ => Throw (JsError "trim is not a function")
  end.

(** What [for (const item of body.entries ?? [])] iterates, and whose
    length is the total.  On an array body [entries] is the method of
    [Array.prototype], which is not iterable, no more than a number, a
    boolean or an object; a string is iterated character by
    character. *)
Definition bodyEntries (body : option JsonValue) : Outcome (list JsonValue) :=
  match body with
  | None => Throw (JsError "Cannot read properties of undefined")
  | Some JNull => Throw (JsError "Cannot read properties of null")
  | Some (JArray _) => Throw (JsError "entries is not iterable")
  | Some (JObject members) =>
      match ownProperty (JObject members) "entries" with
      | None | Some JNull => Ok []
      | Some (JArray items) => Ok items
      | Some (JString s) =>
          Ok (map (fun c => JString (String c "")) (list_ascii_of_string s))
      | Some _ => Throw (JsError "entries is not iterable")
      end
  | Some _ => Ok []
  end.

(** [db.entry.findFirst({ where: { url, username } })]: a row with that
    url and that username when the table has one.  The handler reads only
    whether a row came back. *)
Definition findFirst (url : string) (username : option string) : M World (option Entry) :=
  db_call (fun rows =>
    (Ok (head (filter (fun e => bool_decide (e_url e = url /\ e_username e = username))
                      (map snd (map_to_list rows)))),
     rows)).

Section Routes.

(** [JSON.parse] of the stored column, read as a string array. *)
Variable JSON_parse : string -> Outcome (list string).

(** [findPrivacyPolicyAndEmails], as imported from the scraper. *)
Variable discover : string -> M (list Request) ScrapeResult.

(** [err && typeof err === 'object' && 'code' in err && err.code === code] *)
Variable has_code : string -> thrown -> bool.

(** [db.entry.create({ data })] on the rows of the table: the id, the
    columns the data leaves out and the constraints are the schema's. *)
Variable prisma_create : NewEntry -> gmap Z Entry -> Outcome Entry * gmap Z Entry.

Definition create (data : NewEntry) : M World Entry := db_call (prisma_create data).

(** The body of the loop over the entries. *)
Definition importItem (item : ImportEntry) (count : Counters) : M World Counters :=
  let url := Js.trim (default "" (i_url item)) in
  if negb (Js.truthy url)
  then ret (mkCounters (c_imported count) (c_duplicates count) (S (c_invalid count)))
  else
    try_catch
      (match URL_new url with
       | None => throw (JsError "Invalid URL")
       | Some u =>
           let data := importData item u in
           do existing <- findFirst (n_url data) (orNull (n_username data));
           match existing with
           | Some _ =>
               ret (mkCounters (c_imported count) (S (c_duplicates count)) (c_invalid count))
           | None =>
               try_catch
                 (await create data;
                  ret (mkCounters (S (c_imported count)) (c_duplicates count)
                                  (c_invalid count)))
                 (fun err =>
                    if has_code "P2002" err
                    then ret (mkCounters (c_imported count) (S (c_duplicates count))
                                         (c_invalid count))
                    else throw err)
           end
       end)
      (fun _ => ret (mkCounters (c_imported count) (c_duplicates count) (S (c_invalid count)))).

(** The body of the loop as it runs on a value of the body: the casts
    of the handler check nothing, so [item.url] and the other fields are
    read as they come. *)
Definition importJsonItem (item : JsonValue) (count : Counters) : M World Counters :=
  do field <- lift_outcome (getMember item "url");
  do url <- lift_outcome (trimOrEmpty field);
  if negb (Js.truthy url)
  then ret (mkCounters (c_imported count) (c_duplicates count) (S (c_invalid count)))
  else
    try_catch
      (match URL_new url with
       | None => throw (JsError "Invalid URL")
       | Some u =>
           let normalizedUrl := Url.origin u in
           do name <- lift_outcome (getMember item "name");
           do siteName <- lift_outcome (trimOrNull name);
           do user <- lift_outcome (getMember item "username");
           do username <- lift_outcome (trimOrNull user);
           do source <- lift_outcome (getMember item "sourceEmail");
           do sourceEmail <- lift_outcome (trimOrNull source);
           do existing <- findFirst normalizedUrl (orNull username);
           match existing with
           | Some _ =>
               ret (mkCounters (c_imported count) (S (c_duplicates count)) (c_invalid count))
           | None =>
               try_catch
                 (await create (mkNew siteName normalizedUrl username sourceEmail);
                  ret (mkCounters (S (c_imported count)) (c_duplicates count)
                                  (c_invalid count)))
                 (fun err =>
                    if has_code "P2002" err
                    then ret (mkCounters (c_imported count) (S (c_duplicates count))
                                         (c_invalid count))
                    else throw err)
           end
       end)
      (fun _ => ret (mkCounters (c_imported count) (c_duplicates count) (S (c_invalid count)))).

Fixpoint importLoop (entries : list JsonValue) (count : Counters) : M World Counters :=
  match entries with
  | [] => ret count
  | item :: rest =>
      do count' <- importJsonItem item count;
      importLoop rest count'
  end.

(** The handler, from [req.body]. *)
Definition importRoute (body : option JsonValue) : M World ImportSummary :=
  do entries <- lift_outcome (bodyEntries body);
  do count <- importLoop entries (mkCounters 0 0 0);
  ret (mkSummary (c_imported count) (c_duplicates count) (c_invalid count)
                 (List.length entries)).

(** ** POST /api/entries/:id/scrape, for an id that passed the guard *)

Definition scrapeRoute (id : Z) : M World (Response ApiEntry) :=
  try_catch
    (do updated <- scrapeEntry JSON_parse discover id;
     ret (mkResponse 200 (Json updated)))
    (fun err => ret (mkResponse 500 (ErrorJson (messageOr "Error" err)))).

(** ** DELETE /api/entries/:id, for an id that passed the guard *)

(** [db.entry.delete({ where: { id } })] *)
Definition deleteEntry (id : Z) : M World Entry :=
  db_call (fun rows =>
    match rows !! id with
    | Some e => (Ok e, delete id rows)
    | None => (Throw recordNotFound, rows)
    end).

Definition deleteRoute (id : Z) : M World (Response unit) :=
  try_catch
    (await deleteEntry id;
     ret (mkResponse 204 NoContent))
    (fun err =>
       if has_code "P2025" err
       then ret (mkResponse 404 (ErrorJson "Entry not found"))
       else ret (mkResponse 500 (ErrorJson (messageOr "Delete failed" err)))).

(** ** PATCH /api/entries/:id, for an id that passed the guard *)

(** The request body: a field is [None] when it is not supplied. *)
Record PatchBody : Type := mkPatchBody {
  b_privacyUrl : option (option string);
  b_scrapedEmails : option (list string);
  b_siteName : option (option string)
}.

(** [updateData] *)
Record PatchData : Type := mkPatchData {
  u_privacyUrl : option (option string);
  u_scrapedEmails : option string;
  u_siteName : option (option string)
}.

Definition applyPatch (data : PatchData) (e : Entry) : Entry :=
  {| e_id := e_id e;
     e_siteName := default (e_siteName e) (u_siteName data);
     e_url := e_url e;
     e_username := e_username e;
     e_sourceEmail := e_sourceEmail e;
     e_scrapedEmails :=
       match u_scrapedEmails data with
       | Some stored => Some stored
       | None => e_scrapedEmails e
       end;
     e_privacyUrl := default (e_privacyUrl e) (u_privacyUrl data);
     e_status := e_status e;
     e_errorMessage := e_errorMessage e |}.

(** [db.entry.update({ where: { id }, data: updateData })] *)
Definition updateFields (id : Z) (data : PatchData) : M World Entry :=
  db_call (fun rows =>
    match rows !! id with
    | Some e => (Ok (applyPatch data e), <[id := applyPatch data e]> rows)
    | None => (Throw recordNotFound, rows)
    end).

Definition patchData (body : PatchBody) : PatchData :=
  mkPatchData (b_privacyUrl body)
              (option_map JSON_stringify (b_scrapedEmails body))
              (b_siteName body).

Definition patchRoute (id : Z) (body : PatchBody) : M World (Response ApiEntry) :=
  try_catch
    (let updateData := patchData body in
     do updated <- updateFields id updateData;
     do mapped <- lift_outcome (mapRow JSON_parse updated);
     ret (mkResponse 200 (Json mapped)))
    (fun err =>
       if has_code "P2025" err
       then ret (mkResponse 404 (ErrorJson "Entry not found"))
       else ret (mkResponse 500 (ErrorJson (messageOr "Update failed" err)))).

(** ** GET /api/export *)

Record EmailRow : Type := mkEmailRow {
  x_url : string;
  x_siteName : string;
  x_email : string;
  x_source : string
}.

Definition exportScope (scopeRaw : option string) : string :=
  let scopeRaw := default "all" scopeRaw in
  if String.eqb scopeRaw "source" || String.eqb scopeRaw "scraped" then scopeRaw else "all".

(** The body of the loop over the rows: what one row adds to [out]. *)
Definition exportRow (scope : string) (out : list EmailRow) (row : Entry) : list EmailRow :=
  let siteName := default "" (e_siteName row) in
  let url := e_url row in
  let out1 :=
    if String.eqb scope "all" || String.eqb scope "source" then
      if Js.truthy_opt (e_sourceEmail row)
      then (out ++ [mkEmailRow url siteName (default "" (e_sourceEmail row))
                               "from_passwords"])%list
      else out
    else out in
  if String.eqb scope "all" || String.eqb scope "scraped" then
    if Js.truthy_opt (e_scrapedEmails row) then
      match JSON_parse (default "" (e_scrapedEmails row)) with
      | Ok emails =>
          fold_left (fun acc email =>
                       (acc ++ [mkEmailRow url siteName email "from_privacy_policy"])%list)
                    emails out1
      | Throw _ => out1
      end
    else out1
  else out1.

Definition exportRows (scope : string) (rows : list Entry) : list EmailRow :=
  fold_left (exportRow scope) rows [].

End Routes.

(** The line feed, U+000A. *)
Definition lineFeed : ascii := ascii_of_N 10.

Definition csvHeader : string := "url,site_name,email,source" ++ String lineFeed "".

(** A line of the CSV: each field through [JSON.stringify]. *)
Definition csvLine (url siteName email source : string) : string :=
  Js.join "," [json_quote url; json_quote siteName; json_quote email; json_quote source].

(** The text the handler sends, from the rows [findMany] gave. *)
Definition exportRoute (JSON_parse : string -> Outcome (list string))
    (scopeRaw : option string) (rows : list Entry) : string :=
  let scope := exportScope scopeRaw in
  let out := exportRows JSON_parse scope rows in
  let header := csvHeader in
  let lines :=
    map (fun r => csvLine (x_url r) (x_siteName r) (x_email r) (x_source r)) out in
  header ++ Js.join (String lineFeed "") lines.

(** ** POST /api/entries/scrape-batch and GET /api/entries/scrape-progress *)

Record BatchStarted : Type := mkBatchStarted {
  bs_started : nat;
  bs_totalCandidates : nat
}.

(** The [where] clause of the batch route. *)
Definition isCandidate (e : Entry) : bool := Js.mem (e_status e) ["pending"; "error"].

(** The batch route, from the rows of the table by creation time: the
    response, and the batch started in the background. *)
Definition scrapeBatchRoute (table : list Entry) : BatchStarted * Batch :=
  let rows := filter isCandidate table in
  let entryIds := map e_id rows in
  (mkBatchStarted (List.length entryIds) (List.length rows),
   processScrapeQueue entryIds 25).

Record ScrapeProgress : Type := mkProgress {
  p_total : nat;
  p_pending : nat;
  p_inProgress : nat;
  p_done : nat;
  p_error : nat;
  p_noResults : nat
}.

Definition scrapeProgressRoute (allEntries : list Entry) : ScrapeProgress :=
  let count status :=
    List.length (filter (fun e => String.eqb (e_status e) status) allEntries) in
  mkProgress (List.length allEntries) (count "pending") (count "in_progress")
             (count "done") (count "error") (count "no_results").

(* ================================================================== *)
(** * The client: src/utils and src/hooks *)
(* ================================================================== *)

(** The client's [Entry] is the [ApiEntry] of the server. *)

(** ** utils/exportCsv.ts *)

Definition entriesToExportCsv (entries : list ApiEntry) : string :=
  let header := csvHeader in
  let out :=
    fold_left
      (fun (out : list string) (row : ApiEntry) =>
         let siteName := default "" (api_siteName row) in
         let url := api_url row in
         let out1 :=
           if Js.truthy_opt (api_sourceEmail row)
           then (out ++ [csvLine url siteName (default "" (api_sourceEmail row))
                                 "from_passwords"])%list
           else out in
         fold_left (fun acc email =>
                      (acc ++ [csvLine url siteName email "from_privacy_policy"])%list)
                   (api_scrapedEmails row) out1)
      entries [] in
  header ++ Js.join (String lineFeed "") out.

(** ** hooks/useEntries.ts *)

Record EntriesStats : Type := mkStats {
  st_total : nat;
  st_pending : nat;
  st_completed : nat;
  st_emailsFound : nat
}.

Definition useEntriesStats (entries : option (list ApiEntry)) : EntriesStats :=
  let list := default [] entries in
  mkStats (List.length list)
          (List.length (filter (fun e => String.eqb (api_status e) "pending" ||
                                         String.eqb (api_status e) "error") list))
          (List.length (filter (fun e => String.eqb (api_status e) "done") list))
          (fold_left (fun acc e => (acc + List.length (api_scrapedEmails e))%nat) list 0%nat).

Definition useFilteredEntries (entries : option (list ApiEntry)) (hideNoEmails : bool)
    : list ApiEntry :=
  let list := default [] entries in
  if hideNoEmails then
    filter (fun e => (0 <? List.length (api_scrapedEmails e))%nat ||
                     Js.truthy_opt (api_sourceEmail e) ||
                     Js.truthy_opt (api_privacyUrl e)) list
  else list.

(** ** utils/csv.ts *)

Section Csv.

(** [text.match(/[A-Z0-9._%+-]+@[A-Z0-9.-]+\.[A-Z]{2,}/i)]: the first
    match, [None] for [null]. *)
Variable email_match : string -> option string.

Definition extractEmail (text : option string) : option string :=
  if negb (Js.truthy_opt text) then None
  else email_match (default "" text).

(** [getFirst] of a row of the parsed file. *)
Fixpoint getFirst (row : gmap string string) (keys : list string) : option string :=
  match keys with
  | [] => None
  | key :: rest =>
      match row !! key with
      | Some v =>
          if Js.truthy v && Js.truthy (Js.trim v) then Some (Js.trim v)
          else getFirst row rest
      | None => getFirst row rest
      end
  end.

(** The callback of [rows.map]. *)
Definition normalizeRow (row : gmap string string) : ImportEntry :=
  let url :=
    default "" (getFirst row [ "url"; "URL"; "origin"; "Origin"; "website"; "Website";
                               "site"; "Site" ]) in
  let name := getFirst row [ "name"; "Name"; "title"; "Title"; "site"; "Site" ] in
  let username :=
    getFirst row [ "username"; "Username"; "user"; "User"; "login"; "Login" ] in
  let explicitEmail := getFirst row [ "email"; "Email"; "e-mail"; "E-mail" ] in
  let sourceEmail :=
    nullish_or (nullish_or (extractEmail explicitEmail) (extractEmail username))
               (extractEmail name) in
  mkImport name (Some url) username sourceEmail.

Definition normalizeRows (rows : list (gmap string string)) : list ImportEntry :=
  filter (fun e => Js.truthy (default "" (i_url e)) &&
                   (0 <? String.length (Js.trim (default "" (i_url e))))%nat)
         (map normalizeRow rows).

End Csv.

(* ================================================================== *)
(** * The vocabulary of the properties of the routes and the client *)
(* ================================================================== *)

(** The statuses the server writes. *)
Definition knownStatuses : list string :=
  [ "pending"; "in_progress"; "done"; "error"; "no_results" ].

(** The columns of the parsed file that [normalizeRows] reads. *)
Definition readColumns : list string :=
  [ "url"; "URL"; "origin"; "Origin"; "website"; "Website"; "site"; "Site";
    "name"; "Name"; "title"; "Title";
    "username"; "Username"; "user"; "User"; "login"; "Login";
    "email"; "Email"; "e-mail"; "E-mail" ].

(** The settlements are well placed when each one names a call in flight
    at its turn. *)
Fixpoint wellPlaced (concurrency : Z) (settlements : list Settlement) (b : Batch) : bool :=
  match settlements with
  | [] => true
  | s :: rest =>
      (s_position s <? List.length (inFlight b))%nat &&
      wellPlaced concurrency rest (snd (settle concurrency (s_position s) (s_outcome s) b))
  end.

(** The store of a character that [JSON.stringify] escaped, read back
    from the head of a text: the character and what follows it, [None] at
    a quotation mark or at anything [JSON.stringify] does not write. *)
Definition json_unescape_head (s : string) : option (ascii * string) :=
  match s with
  | String c rest =>
      if (Js.code c =? 92)%N then
        match rest with
        | String k rest' =>
            if (Js.code k =? 98)%N then Some (ascii_of_N 8, rest')
            else if (Js.code k =? 116)%N then Some (ascii_of_N 9, rest')
            else if (Js.code k =? 110)%N then Some (ascii_of_N 10, rest')
            else if (Js.code k =? 102)%N then Some (ascii_of_N 12, rest')
            else if (Js.code k =? 114)%N then Some (ascii_of_N 13, rest')
            else if (Js.code k =? 34)%N then Some (ascii_of_N 34, rest')
            else if (Js.code k =? 92)%N then Some (ascii_of_N 92, rest')
            else if (Js.code k =? 117)%N then
              match rest' with
              | String _ (String _ (String h (String l rest''))) =>
                  Some (ascii_of_N (16 * Url.hex_val h + Url.hex_val l), rest'')
              | _ => None
              end
            else None
        | EmptyString => None
        end
      else if (Js.code c =? 34)%N then None
      else Some (c, rest)
  | EmptyString => None
  end.

(** What [JSON.stringify] writes after an element: the elements that
    follow, each after a comma, and the closing bracket. *)
Fixpoint json_rest (xs : list string) : string :=
  match xs with
  | [] => "]"
  | x :: rest => "," ++ json_quote x ++ json_rest rest
  end.

(** A field as the type of the handler has it: a string, or [null] for
    a field that is [null] or absent; [None] for any other value. *)
Definition textOf (field : option JsonValue) : option (option string) :=
  match field with
  | None | Some JNull => Some None
  | Some (JString s) => Some (Some s)
  | Some _ => None
  end.

(** The item as an [ImportEntry], when its four fields are of the type
    the handler casts them to. *)
Definition asImportEntry (item : JsonValue) : option ImportEntry :=
  match item with
  | JNull => None
  | _ =>
      match textOf (ownProperty item "name"), textOf (ownProperty item "url"),
            textOf (ownProperty item "username"), textOf (ownProperty item "sourceEmail") with
      | Some name, Some url, Some username, Some sourceEmail =>
          Some (mkImport name url username sourceEmail)
      | _, _, _, _ => None
      end
  end.

(** The items the handler throws on: [null], and an item whose [url] is
    neither nullish nor a string. *)
Definition breaksImport (item : JsonValue) : bool :=
  match item with
  | JNull => true
  | _ => match textOf (ownProperty item "url") with Some _ => false | None => true end
  end.

(** An [ImportEntry] written as a JSON object, [null] standing for an
    absent field. *)
Definition jsonOfText (field : option string) : JsonValue :=
  match field with
  | Some s => JString s
  | None => JNull
  end.

Definition jsonOfImportEntry (item : ImportEntry) : JsonValue :=
  JObject [ ("name", jsonOfText (i_name item)); ("url", jsonOfText (i_url item));
            ("username", jsonOfText (i_username item));
            ("sourceEmail", jsonOfText (i_sourceEmail item)) ].

(** [later] is [earlier] followed by new strings, no two the same, that
    all satisfy [P]. *)
Definition extends (P : string -> Prop) (earlier later : list string) : Prop :=
  exists added,
    later = (earlier ++ added)%list /\ Forall P added /\ NoDup added /\
    forall x, x ∈ added -> x ∉ earlier.

(** The strings that pass [isLikelyEmail]. *)
Definition likely (m : string) : Prop := isLikelyEmail m = true.

(* ================================================================== *)
(** * Facts about the string primitives *)
(* ================================================================== *)

Module JsFacts.

Import Js.

Lemma append_assoc (a b c : string) : (a ++ b) ++ c = a ++ (b ++ c).
Proof. induction a as [|x a IH]; simpl; [reflexivity | now rewrite IH]. Qed.

Lemma append_empty_r (a : string) : a ++ "" = a.
Proof. induction a as [|x a IH]; simpl; [reflexivity | now rewrite IH]. Qed.

Lemma all_chars_append p (a b : string) :
  all_chars p (a ++ b) = all_chars p a && all_chars p b.
Proof.
  induction a as [|x a IH]; simpl; [reflexivity |].
  rewrite IH. now rewrite andb_assoc.
Qed.

Lemma all_chars_impl (p q : ascii -> bool) (s : string) :
  (forall c, p c = true -> q c = true) ->
  all_chars p s = true -> all_chars q s = true.
Proof.
  intros Hpq. induction s as [|x s IH]; simpl; [reflexivity |].
  intros [Hx Hs]%andb_true_iff. rewrite (Hpq _ Hx), (IH Hs). reflexivity.
Qed.

Lemma has_char_cons c x (s : string) :
  has_char c (String x s) = Ascii.eqb x c || has_char c s.
Proof.
  unfold has_char. simpl. rewrite negb_andb, negb_involutive. reflexivity.
Qed.

Lemma has_char_append c (a b : string) :
  has_char c (a ++ b) = has_char c a || has_char c b.
Proof.
  unfold has_char. rewrite all_chars_append, negb_andb. reflexivity.
Qed.

(** [s.includes(c)] for a one-character [c] is the presence of [c]. *)
Lemma includes_char c (s : string) :
  includes (String c "") s = has_char c s.
Proof.
  induction s as [|x s IH]; [reflexivity |].
  rewrite has_char_cons. cbn [includes String.prefix].
  rewrite IH. destruct (ascii_dec c x) as [->|Hne].
  - rewrite Ascii.eqb_refl. now destruct s.
  - destruct (Ascii.eqb_spec x c) as [->|_]; [congruence | reflexivity].
Qed.

Lemma split_nonempty c (s : string) : split c s <> [].
Proof.
  induction s as [|x s IH]; simpl; [discriminate |].
  destruct (Ascii.eqb x c); [discriminate |].
  destruct (split c s); [congruence | discriminate].
Qed.

(** Without the separator there is one part. *)
Lemma split_absent c (s : string) : has_char c s = false -> split c s = [s].
Proof.
  induction s as [|x s IH]; [reflexivity |].
  rewrite has_char_cons. intros [Hx Hs]%orb_false_iff.
  simpl. rewrite Hx, (IH Hs). reflexivity.
Qed.

(** The first part ends at the first separator. *)
Lemma split_first c (pre rest : string) :
  has_char c pre = false ->
  split c (pre ++ String c rest) = pre :: split c rest.
Proof.
  induction pre as [|x pre IH]; simpl.
  - intros _. now rewrite Ascii.eqb_refl.
  - rewrite has_char_cons. intros [Hx Hs]%orb_false_iff.
    rewrite Hx, (IH Hs). reflexivity.
Qed.

Lemma last_cons_nonempty {A} (x : A) (l : list A) d :
  l <> [] -> List.last (x :: l) d = List.last l d.
Proof. destruct l; [congruence | reflexivity]. Qed.

Lemma last_app_nonempty {A} (l l' : list A) d :
  l' <> [] -> List.last (l ++ l')%list d = List.last l' d.
Proof.
  intros Hne. induction l as [|x l IH]; [reflexivity |].
  change ((x :: l) ++ l')%list with (x :: (l ++ l')%list).
  rewrite last_cons_nonempty; [exact IH |].
  destruct l; [exact Hne | discriminate].
Qed.

(** The parts after a separator are the parts of what follows it. *)
Lemma split_append_sep c (b r : string) :
  exists h t, split c (b ++ String c r) = (h :: t ++ split c r)%list.
Proof.
  induction b as [|x b (h & t & IH)]; simpl.
  - rewrite Ascii.eqb_refl. now exists "", [].
  - destruct (Ascii.eqb x c).
    + exists "", (h :: t). now rewrite IH.
    + rewrite IH. now exists (String x h), t.
Qed.

(** The last part starts after the last separator. *)
Lemma split_last c (body seg : string) :
  has_char c seg = false ->
  (body = "" \/ exists b, body = b ++ String c "") ->
  List.last (split c (body ++ seg)) "" = seg.
Proof.
  intros Hseg [->|[b ->]].
  - simpl. now rewrite (split_absent _ _ Hseg).
  - rewrite append_assoc. simpl.
    destruct (split_append_sep c b seg) as (h & t & ->).
    rewrite (split_absent _ _ Hseg).
    change (h :: t ++ [seg])%list with ((h :: t) ++ [seg])%list.
    now rewrite last_app_nonempty.
Qed.

Lemma join_cons sep (x : string) (rest : list string) :
  rest <> [] -> join sep (x :: rest) = x ++ sep ++ join sep rest.
Proof. destruct rest; [congruence | reflexivity]. Qed.

Lemma join_head sep x (h : string) (t : list string) :
  join sep (String x h :: t) = String x (join sep (h :: t)).
Proof. destruct t; reflexivity. Qed.

Lemma join_split c (s : string) : join (String c "") (split c s) = s.
Proof.
  induction s as [|x s IH]; [reflexivity |].
  simpl. destruct (Ascii.eqb_spec x c) as [->|Hne].
  - rewrite join_cons by apply split_nonempty. simpl. now rewrite IH.
  - destruct (split c s) as [|h t] eqn:E; [now apply split_nonempty in E |].
    rewrite join_head. now rewrite IH.
Qed.

Lemma split_parts_free c (s : string) :
  Forall (fun part => has_char c part = false) (split c s).
Proof.
  induction s as [|x s IH]; simpl.
  - constructor; [reflexivity | constructor].
  - destruct (Ascii.eqb x c) eqn:E.
    + constructor; [reflexivity | exact IH].
    + destruct (split c s) as [|h t]; [repeat constructor; rewrite has_char_cons, E; reflexivity |].
      inversion IH; subst. constructor; [| assumption].
      rewrite has_char_cons, E. assumption.
Qed.

End JsFacts.

(* ================================================================== *)
(** * Candidate validation *)
(* ================================================================== *)

(** C2, as the code has it: the candidate is trimmed and lower-cased; without
    an [@] it is rejected; otherwise the text between the first [@] and the
    next one (or the end) is taken, and the candidate is rejected exactly
    when the text after the last dot of that segment is an asset extension.
    The three examples of the specification hold. *)
Theorem isLikelyEmail_segment_after_first_at :
  forall s : string,
    let t := Js.toLowerCase (Js.trim s) in
    (Js.has_char "@" t = false -> isLikelyEmail s = false) /\
    (forall pre mid rest body seg : string,
        t = pre ++ "@" ++ mid ++ rest ->
        Js.has_char "@" pre = false ->
        Js.has_char "@" mid = false ->
        (rest = "" \/ exists r, rest = String "@" r) ->
        mid = body ++ seg ->
        Js.has_char "." seg = false ->
        (body = "" \/ exists b, body = b ++ ".") ->
        isLikelyEmail s = negb (Js.mem seg ASSET_EXTENSIONS)) /\
    isLikelyEmail "icon@3x.png" = false /\
    isLikelyEmail "privacy@example.com" = true /\
    isLikelyEmail "PRIVACY@EXAMPLE.COM" = true.
Proof.
  intros s t. split; [| split; [| repeat split; reflexivity]].
  - intros Hno. unfold isLikelyEmail. fold t.
    now rewrite JsFacts.includes_char, Hno.
  - intros pre mid rest body seg Ht Hpre Hmid Hrest Hbody Hseg Hdot.
    unfold isLikelyEmail. fold t.
    rewrite JsFacts.includes_char.
    assert (Hat : Js.has_char "@" t = true).
    { rewrite Ht. rewrite JsFacts.has_char_append. simpl.
      rewrite JsFacts.has_char_cons. simpl. now rewrite orb_true_r. }
    rewrite Hat. simpl negb. cbv iota.
    assert (Hsplit : Js.at_or "" 1 (Js.split "@" t) = mid).
    { rewrite Ht. change ("@" ++ mid ++ rest) with (String "@" (mid ++ rest)).
      rewrite (JsFacts.split_first _ _ _ Hpre).
      destruct Hrest as [->|[r ->]].
      - rewrite JsFacts.append_empty_r, (JsFacts.split_absent _ _ Hmid). reflexivity.
      - rewrite (JsFacts.split_first _ _ _ Hmid). reflexivity. }
    rewrite Hsplit. unfold Js.pop_or. rewrite Hbody.
    rewrite (JsFacts.split_last "." body seg Hseg Hdot). reflexivity.
Qed.

Lemma isLikelyEmail_segment_after_first_at_witness :
  isLikelyEmail "  Logo@2x.PNG@cdn.example.com " = negb (Js.mem "png" ASSET_EXTENSIONS).
Proof.
  apply (proj1 (proj2 (isLikelyEmail_segment_after_first_at "  Logo@2x.PNG@cdn.example.com "))
           "logo" "2x.png" "@cdn.example.com" "2x." "png").
  - reflexivity.
  - reflexivity.
  - reflexivity.
  - right. exists "cdn.example.com". reflexivity.
  - reflexivity.
  - reflexivity.
  - right. exists "2x". reflexivity.
Defined.

(** C2 as stated fails: with two [@] the code looks after the first one,
    the specification after the last one. *)
Lemma isLikelyEmail_last_at_counterexample :
  isLikelyEmail "a@b.png@c.com" = false /\
  isLikelyEmail_as_specified "a@b.png@c.com" = true.
Proof. split; reflexivity. Qed.

(* ================================================================== *)
(** * The batch scheduler *)
(* ================================================================== *)

Module BatchFacts.

Ltac batch :=
  cbn [queue activeCount started inFlight completions];
  unfold remaining;
  cbn [queue activeCount started inFlight completions].

Lemma processLoop_spec (C : Z) (q : list Z) :
  forall (a : Z) (s f : list Z),
    (a <= C)%Z ->
    exists taken rest,
      processLoop C q a s f = (rest, (a + Z.of_nat (List.length taken))%Z,
                               (s ++ taken)%list, (f ++ taken)%list) /\
      q = (taken ++ rest)%list /\
      (a + Z.of_nat (List.length taken) = Z.min C (a + Z.of_nat (List.length q)))%Z.
Proof.
  induction q as [|id q IH]; intros a s f Ha; simpl.
  - exists [], []. rewrite !app_nil_r. simpl. rewrite Z.add_0_r.
    split; [reflexivity | split; [reflexivity | lia]].
  - destruct (Z.ltb_spec a C) as [Hlt|Hge].
    + destruct (IH (a + 1)%Z (s ++ [id])%list (f ++ [id])%list ltac:(lia))
        as (taken & rest & -> & -> & Hmin).
      exists (id :: taken), rest. rewrite <- !app_assoc.
      replace (a + Z.of_nat (List.length (id :: taken)))%Z
        with (a + 1 + Z.of_nat (List.length taken))%Z by (simpl List.length; lia).
      split; [reflexivity | split; [reflexivity |]].
      rewrite Hmin. simpl List.length. f_equal. lia.
    + exists [], (id :: q). rewrite !app_nil_r. simpl List.length. rewrite Z.add_0_r.
      split; [reflexivity | split; [reflexivity | lia]].
Qed.

Lemma idle_false_inFlight (q f : list Z) c s a :
  f <> [] -> idle (mkBatch q a c s f) = false.
Proof. unfold idle; simpl. destruct q, f; congruence. Qed.

Lemma Inv_start (C : Z) (ids : list Z) :
  (1 <= C)%Z -> Inv C ids (processScrapeQueue ids C).
Proof.
  intros HC. unfold processScrapeQueue.
  destruct ids as [|i ids]; simpl Nat.eqb; cbv iota.
  - constructor; simpl; unfold remaining; simpl; try reflexivity. lia.
  - unfold processNext. cbn [queue activeCount started inFlight completions].
    destruct (processLoop_spec C (i :: ids) 0 [] [] ltac:(lia))
      as (taken & rest & -> & Hq & Hmin).
    simpl app in *. simpl (List.length (i :: ids)) in Hmin.
    assert (Htaken : taken <> []).
    { intros ->. simpl in Hmin. lia. }
    assert (Hz : (0 + Z.of_nat (List.length taken) =? 0)%Z = false).
    { apply Z.eqb_neq. destruct taken; [congruence | simpl; lia]. }
    rewrite Hz. simpl andb. cbv iota.
    constructor; cbn [queue activeCount started inFlight completions].
    + lia.
    + unfold remaining. cbn [queue inFlight]. rewrite Hmin.
      apply (f_equal (@List.length Z)) in Hq. rewrite length_app in Hq. simpl in Hq. lia.
    + symmetry. exact Hq.
    + now rewrite idle_false_inFlight.
Qed.

(** What a settlement at a valid position does to a batch that
    satisfies the invariant. *)
Lemma onFinally_spec (C : Z) (ids : list Z) (k : nat) (b : Batch) :
  (1 <= C)%Z -> Inv C ids b -> (k < List.length (inFlight b))%nat ->
  let b' := onFinally C k b in
  Inv C ids b' /\
  remaining b' = (remaining b - 1)%nat /\
  match queue b with
  | i :: q =>
      queue b' = q /\ started b' = (started b ++ [i])%list /\
      inFlight b' = (delete k (inFlight b) ++ [i])%list
  | [] =>
      queue b' = [] /\ started b' = started b /\ inFlight b' = delete k (inFlight b)
  end.
Proof.
  intros HC [Hcount Hfull Hfifo Hdone] Hk. unfold remaining in *.
  assert (Hdel : List.length (delete k (inFlight b)) = (List.length (inFlight b) - 1)%nat).
  { rewrite length_delete; [reflexivity |].
    apply lookup_lt_is_Some_2. exact Hk. }
  unfold onFinally. cbn [queue activeCount started inFlight completions].
  destruct (queue b) as [|i q] eqn:Eq.
  - simpl Nat.ltb. cbv iota.
    assert (Hc0 : completions b = 0%nat).
    { rewrite Hdone. unfold idle. rewrite Eq.
      destruct (inFlight b); [simpl in Hk; lia | reflexivity]. }
    destruct (Z.eqb_spec (activeCount b - 1) 0) as [Hz|Hnz]; cbv zeta.
    + assert (Hnil : delete k (inFlight b) = []).
      { apply length_zero_iff_nil. lia. }
      unfold resolve. batch. rewrite Hnil.
      split; [constructor; batch; simpl; try lia; try assumption
             | split; [simpl; lia | easy]].
    + split; [constructor; batch; simpl; try lia; try assumption
             | split; [batch; simpl; lia | easy]].
      rewrite Hc0. unfold idle. batch.
      destruct (delete k (inFlight b)); [simpl in Hdel; lia | reflexivity].
  - change (0 <? List.length (i :: q))%nat with true. cbv iota.
    assert (Hc0 : completions b = 0%nat).
    { rewrite Hdone. unfold idle. rewrite Eq. reflexivity. }
    unfold processNext. batch.
    destruct (processLoop_spec C (i :: q) (activeCount b - 1) (started b)
                (delete k (inFlight b)) ltac:(lia))
      as (taken & rest & Hloop & Hq & Hmin).
    rewrite Hloop.
    simpl (List.length (i :: q)) in *.
    assert (Htaken : taken = [i] /\ rest = q).
    { assert (List.length taken = 1%nat) by lia.
      destruct taken as [|t [|t2 taken]]; simpl in *; try lia.
      inversion Hq; subst. now split. }
    destruct Htaken as [-> ->].
    assert (Hz : (activeCount b - 1 + Z.of_nat (List.length [i]) =? 0)%Z = false).
    { apply Z.eqb_neq. simpl. lia. }
    rewrite Hz. simpl andb. cbv iota zeta.
    assert (Hlen : List.length (delete k (inFlight b) ++ [i])%list = List.length (inFlight b)).
    { rewrite length_app. simpl. lia. }
    split; [constructor; batch; rewrite ?Hlen; simpl; try lia
           | split; [batch; rewrite ?Hlen; simpl; lia | easy]].
    + rewrite <- app_assoc. exact Hfifo.
    + rewrite Hc0. unfold idle. batch.
      destruct q, (delete k (inFlight b) ++ [i])%list eqn:E; try reflexivity;
        simpl in Hlen; lia.
Qed.

Lemma settle_state (C : Z) (k : nat) (outcome : Outcome ApiEntry) (b : Batch) :
  snd (settle C k outcome b) =
  if decide (k < List.length (inFlight b))%nat then onFinally C k b else b.
Proof.
  unfold settle. destruct (inFlight b !! k) eqn:E.
  - apply lookup_lt_Some in E. now rewrite decide_True.
  - apply lookup_ge_None in E. rewrite decide_False by lia. reflexivity.
Qed.

Lemma Inv_after (C : Z) (ids : list Z) (settlements : list Settlement) :
  (1 <= C)%Z -> forall b, Inv C ids b -> Inv C ids (after C settlements b).
Proof.
  intros HC. induction settlements as [|s ss IH]; intros b Hb; [exact Hb |].
  unfold after. simpl. apply IH. rewrite settle_state.
  destruct (decide _) as [Hk|_]; [| exact Hb].
  now apply onFinally_spec.
Qed.

End BatchFacts.

(** C3, for a ceiling of at least one: after any settlements, in any
    order, the number of discoveries in flight is [min C remaining] (so
    never more), [activeCount] is that number, the ids started followed
    by the ids queued are the ids supplied (FIFO), a settlement starts the
    next queued id in the same step, the completion promise has been
    settled at most once, and it has been settled exactly when nothing is
    queued and nothing is in flight, at which point every id was started;
    the batch never stalls with ids queued and nothing in flight. *)
Theorem processScrapeQueue_ceiling_fifo_completion :
  forall (ids : list Z) (C : Z) (settlements : list Settlement),
    (1 <= C)%Z ->
    let b := after C settlements (processScrapeQueue ids C) in
    Z.of_nat (List.length (inFlight b)) = Z.min C (Z.of_nat (remaining b)) /\
    activeCount b = Z.of_nat (List.length (inFlight b)) /\
    (started b ++ queue b)%list = ids /\
    (forall (k : nat) (outcome : Outcome ApiEntry),
        (k < List.length (inFlight b))%nat ->
        let b' := snd (settle C k outcome b) in
        remaining b' = (remaining b - 1)%nat /\
        match queue b with
        | i :: q =>
            queue b' = q /\ started b' = (started b ++ [i])%list /\
            inFlight b' = (delete k (inFlight b) ++ [i])%list
        | [] =>
            queue b' = [] /\ started b' = started b /\
            inFlight b' = delete k (inFlight b)
        end) /\
    (completions b <= 1)%nat /\
    (completions b = 1%nat <-> queue b = [] /\ inFlight b = []) /\
    (inFlight b = [] -> queue b = [] /\ started b = ids /\ completions b = 1%nat).
Proof.
  intros ids C settlements HC b.
  assert (Hb : Inv C ids b).
  { apply BatchFacts.Inv_after; [exact HC |]. now apply BatchFacts.Inv_start. }
  pose proof Hb as [Hcount Hfull Hfifo Hdone].
  assert (Hidle : idle b = true <-> queue b = [] /\ inFlight b = []).
  { unfold idle. destruct (queue b), (inFlight b); split; try easy; intros [? ?]; congruence. }
  split; [lia |]. split; [exact Hcount |]. split; [exact Hfifo |].
  split.
  { intros k outcome Hk b'. subst b'. rewrite BatchFacts.settle_state.
    rewrite decide_True by exact Hk.
    destruct (BatchFacts.onFinally_spec C ids k b HC Hb Hk) as (_ & Hrem & Hq).
    split; [exact Hrem | exact Hq]. }
  split.
  { rewrite Hdone. destruct (idle b); lia. }
  split.
  { rewrite Hdone, <- Hidle. destruct (idle b); split; try easy. }
  intros Hnil.
  assert (Hq : queue b = []).
  { unfold remaining in Hfull. rewrite Hnil in *. simpl in *.
    apply length_zero_iff_nil. lia. }
  split; [exact Hq |]. split.
  - rewrite <- Hfifo, Hq. now rewrite app_nil_r.
  - rewrite Hdone. replace (idle b) with true; [reflexivity |].
    symmetry. apply Hidle. now split.
Qed.

Lemma processScrapeQueue_ceiling_fifo_completion_witness :
  let b := after 2 [mkSettlement 1 (Throw JsOther); mkSettlement 0 (Throw (JsError "x"))]
                 (processScrapeQueue [11; 12; 13; 14; 15]%Z 2) in
  (started b ++ queue b)%list = [11; 12; 13; 14; 15]%Z.
Proof.
  exact (proj1 (proj2 (proj2
           (processScrapeQueue_ceiling_fifo_completion
              [11; 12; 13; 14; 15]%Z 2
              [mkSettlement 1 (Throw JsOther); mkSettlement 0 (Throw (JsError "x"))]
              ltac:(lia))))).
Defined.

(** C3 as stated fails for a ceiling of zero: nothing is started, nothing
    can settle, and the completion promise is never settled. *)
Lemma processScrapeQueue_zero_ceiling_counterexample :
  let b := processScrapeQueue [7]%Z 0 in
  queue b = [7]%Z /\ started b = [] /\ inFlight b = [] /\ completions b = 0%nat /\
  (forall settlements, after 0 settlements b = b).
Proof.
  repeat split.
  intros settlements. induction settlements as [|s ss IH]; [reflexivity |].
  unfold after in *. simpl in *. exact IH.
Qed.

(* ================================================================== *)
(** * scrapeEntry *)
(* ================================================================== *)

Module ServerFacts.

Lemma take_length (n : nat) (s : string) :
  String.length (Js.take n s) = Nat.min n (String.length s).
Proof.
  revert s. induction n as [|n IH]; intros [|c s]; simpl; try reflexivity.
  now rewrite IH.
Qed.

Lemma take_prefix (n : nat) (s : string) : String.prefix (Js.take n s) s = true.
Proof.
  revert s. induction n as [|n IH]; intros [|c s]; simpl; try reflexivity.
  rewrite IH. now destruct (ascii_dec c c).
Qed.

(** A call of the client that meets no fault. *)
Lemma db_call_through {A} (op : gmap Z Entry -> Outcome A * gmap Z Entry) (w : World) :
  hd None (w_faults w) = None ->
  db_call op w =
  (fst (op (w_rows w)), mkWorld (w_requests w) (snd (op (w_rows w))) (tail (w_faults w))).
Proof.
  unfold db_call. destruct (w_faults w) as [|[e|] later]; simpl; try discriminate;
    intros _; now destruct (op (w_rows w)).
Qed.

(** A call of the client that meets a fault. *)
Lemma db_call_fault {A} (op : gmap Z Entry -> Outcome A * gmap Z Entry) (w : World) e later :
  w_faults w = Some e :: later ->
  db_call op w = (Throw e, mkWorld (w_requests w) (w_rows w) later).
Proof. unfold db_call. now intros ->. Qed.

Section Run.

Variable JSON_parse : string -> Outcome (list string).
Variable discover : string -> M (list Request) ScrapeResult.

(** The entry as [scrapeEntry] leaves it when the store meets no fault
    up to the [try] block, that block ends in [data] being written, and
    the rest of the calls go through. *)
Lemma scrapeEntry_run (id : Z) (w : World) (e : Entry) :
  w_rows w !! id = Some e ->
  w_faults w = [] ->
  let inProgress := applyData (mkData (Some "in_progress") (Some None) None None) e in
  let final :=
    match discover (e_url e) (w_requests w) with
    | (Ok result, _) =>
        if negb (Js.truthy_opt (privacyUrl result)) &&
           (List.length (emails result) =? 0)%nat
        then applyData (mkData (Some "no_results") None None None) inProgress
        else applyData (mkData (Some "done") (Some None) (Some (privacyUrl result))
                               (Some (Some (JSON_stringify (emails result)))))
                       inProgress
    | (Throw err, _) =>
        applyData (mkData (Some "error") (Some (Some (errorMessageOf err))) None None)
                  inProgress
    end in
  scrapeEntry JSON_parse discover id w =
  (mapRow JSON_parse final,
   mkWorld (snd (discover (e_url e) (w_requests w))) (<[id := final]> (w_rows w)) []).
Proof.
  destruct w as [req rows faults]. simpl. intros Hrow ->.
  unfold scrapeEntry, bind, findUnique, update, throw, try_catch, ret, lift_outcome.
  rewrite db_call_through by reflexivity. cbn [fst snd w_rows w_requests w_faults tail].
  rewrite Hrow.
  rewrite db_call_through by reflexivity. cbn [fst snd w_rows w_requests w_faults tail].
  rewrite Hrow. cbn [fst snd].
  unfold scrapeEntry_try, scrapeEntry_catch, bind, lift_net, update, ret.
  cbn [w_rows w_requests w_faults].
  destruct (discover (e_url e) req) as [[result|err] net] eqn:Ed; cbn [fst snd].
  - destruct (negb (Js.truthy_opt (privacyUrl result)) &&
              (List.length (emails result) =? 0)%nat) eqn:Eempty.
    + rewrite db_call_through by reflexivity.
      cbn [fst snd w_rows w_requests w_faults tail].
      rewrite lookup_insert_eq. cbn [fst snd].
      rewrite db_call_through by reflexivity.
      cbn [fst snd w_rows w_requests w_faults tail].
      rewrite insert_insert_eq, lookup_insert_eq. reflexivity.
    + rewrite db_call_through by reflexivity.
      cbn [fst snd w_rows w_requests w_faults tail].
      rewrite lookup_insert_eq. cbn [fst snd].
      rewrite db_call_through by reflexivity.
      cbn [fst snd w_rows w_requests w_faults tail].
      rewrite insert_insert_eq, lookup_insert_eq. reflexivity.
  - rewrite db_call_through by reflexivity.
    cbn [fst snd w_rows w_requests w_faults tail].
    rewrite lookup_insert_eq. cbn [fst snd].
    rewrite db_call_through by reflexivity.
    cbn [fst snd w_rows w_requests w_faults tail].
    rewrite insert_insert_eq, lookup_insert_eq. reflexivity.
Qed.

(** The same when the update that ends the [try] block throws [err]. *)
Lemma scrapeEntry_run_update_fault (id : Z) (w : World) (e : Entry) err result net :
  w_rows w !! id = Some e ->
  w_faults w = [None; None; Some err] ->
  discover (e_url e) (w_requests w) = (Ok result, net) ->
  let inProgress := applyData (mkData (Some "in_progress") (Some None) None None) e in
  let final :=
    applyData (mkData (Some "error") (Some (Some (errorMessageOf err))) None None)
              inProgress in
  scrapeEntry JSON_parse discover id w =
  (mapRow JSON_parse final, mkWorld net (<[id := final]> (w_rows w)) []).
Proof.
  destruct w as [req rows faults]. simpl. intros Hrow -> Hd.
  unfold scrapeEntry, bind, findUnique, update, throw, try_catch, ret, lift_outcome.
  rewrite db_call_through by reflexivity. cbn [fst snd w_rows w_requests w_faults tail].
  rewrite Hrow.
  rewrite db_call_through by reflexivity. cbn [fst snd w_rows w_requests w_faults tail].
  rewrite Hrow. cbn [fst snd].
  unfold scrapeEntry_try, scrapeEntry_catch, bind, lift_net, update, ret.
  cbn [w_rows w_requests w_faults]. rewrite Hd.
  destruct (negb (Js.truthy_opt (privacyUrl result)) &&
            (List.length (emails result) =? 0)%nat);
    (erewrite db_call_fault by reflexivity);
    cbn [fst snd w_rows w_requests w_faults tail];
    (rewrite db_call_through by reflexivity);
    cbn [fst snd w_rows w_requests w_faults tail];
    rewrite lookup_insert_eq; cbn [fst snd];
    (rewrite db_call_through by reflexivity);
    cbn [fst snd w_rows w_requests w_faults tail];
    rewrite insert_insert_eq, lookup_insert_eq; reflexivity.
Qed.

End Run.

(** The batch does not see how a call of [scrapeEntry] settled. *)
Lemma settle_swallows (C : Z) (k : nat) (outcome : Outcome ApiEntry) (b : Batch) :
  fst (settle C k outcome b) = Ok tt /\
  snd (settle C k outcome b) = snd (settle C k (Throw JsOther) b).
Proof.
  unfold settle. destruct (inFlight b !! k); [| now split].
  destruct outcome; now split.
Qed.

End ServerFacts.




(** C10: when the discovery finds nothing, [scrapeEntry] leaves the entry
    as [no_results] with the privacy URL and the scraped emails it had
    before (stale data under a [no_results] status), and the other rows as
    they were: the update to [no_results] writes the status alone, and the
    update to [in_progress] writes the status and clears the error message
    alone. *)
Theorem scrapeEntry_no_results_keeps_previous_data :
  forall (JSON_parse : string -> Outcome (list string))
         (discover : string -> M (list Request) ScrapeResult)
         (id : Z) (w : World) (e : Entry) (result : ScrapeResult) (net : list Request),
    w_rows w !! id = Some e ->
    w_faults w = [] ->
    discover (e_url e) (w_requests w) = (Ok result, net) ->
    foundNothing result = true ->
    let rows' := w_rows (snd (scrapeEntry JSON_parse discover id w)) in
    (exists row,
        rows' !! id = Some row /\
        e_status row = "no_results" /\
        e_privacyUrl row = e_privacyUrl e /\
        e_scrapedEmails row = e_scrapedEmails e /\
        e_errorMessage row = None /\
        e_id row = e_id e /\ e_siteName row = e_siteName e /\ e_url row = e_url e /\
        e_username row = e_username e /\ e_sourceEmail row = e_sourceEmail e) /\
    (forall j, j <> id -> rows' !! j = w_rows w !! j) /\
    (forall x : Entry,
        let y := applyData (mkData (Some "no_results") None None None) x in
        e_status y = "no_results" /\
        e_privacyUrl y = e_privacyUrl x /\ e_scrapedEmails y = e_scrapedEmails x /\
        e_errorMessage y = e_errorMessage x) /\
    (exists row1,
        fst (update id (mkData (Some "in_progress") (Some None) None None) w) = Ok row1 /\
        w_rows (snd (update id (mkData (Some "in_progress") (Some None) None None) w)) !! id
          = Some row1 /\
        e_status row1 = "in_progress" /\ e_errorMessage row1 = None /\
        e_privacyUrl row1 = e_privacyUrl e /\ e_scrapedEmails row1 = e_scrapedEmails e).
Proof.
  intros JSON_parse discover id w e result net Hrow Hfaults Hd Hnothing rows'.
  subst rows'.
  rewrite (ServerFacts.scrapeEntry_run JSON_parse discover id w e Hrow Hfaults).
  rewrite Hd. unfold foundNothing in Hnothing. rewrite Hnothing.
  cbn [fst snd w_rows].
  split; [| split; [| split]].
  - eexists. split; [apply lookup_insert_eq |]. simpl. repeat split.
  - intros j Hj. now rewrite lookup_insert_ne.
  - intros x. simpl. repeat split.
  - unfold update. rewrite ServerFacts.db_call_through by now rewrite Hfaults.
    rewrite Hrow. cbn [fst snd w_rows]. eexists.
    split; [reflexivity |]. split; [apply lookup_insert_eq |]. simpl. repeat split.
Qed.

Lemma scrapeEntry_no_results_keeps_previous_data_witness :
  exists row,
    w_rows (snd (scrapeEntry (fun _ => Ok ["old@example.com"])
                   (fun _ => ret (mkResult None [])) 1 (sampleWorld []))) !! 1%Z = Some row /\
    e_status row = "no_results" /\
    e_privacyUrl row = Some "https://example.com/privacy" /\
    e_scrapedEmails row = Some (JSON_stringify ["old@example.com"]).
Proof.
  destruct (proj1 (scrapeEntry_no_results_keeps_previous_data
                     (fun _ => Ok ["old@example.com"]) (fun _ => ret (mkResult None [])) 1
                     (sampleWorld []) sampleEntry (mkResult None []) []
                     eq_refl eq_refl eq_refl eq_refl))
    as (row & Hrow & Hstatus & Hurl & Hemails & _).
  exists row. repeat split; assumption.
Defined.

(* ================================================================== *)
(** * The privacy link of a page *)
(* ================================================================== *)

Module ScraperFacts.

Section WithExternals.

Variable X : Externals.

Lemma privacyLinkStep_found (origin url : string) (anchors : list Anchor) :
  Js.truthy url = true ->
  fold_left (privacyLinkStep X origin) anchors (Some url) = Some url.
Proof.
  intros Hurl. induction anchors as [|el anchors IH]; [reflexivity |].
  simpl. unfold privacyLinkStep at 2. simpl. now rewrite Hurl.
Qed.

Lemma privacyLinkStep_none (origin : string) (el : Anchor) :
  privacyLinkStep X origin None el =
  if mentionsPrivacy el then resolved X origin el else None.
Proof.
  unfold privacyLinkStep, resolved. simpl.
  destruct (mentionsPrivacy el); [| reflexivity].
  destruct (resolveLink X origin (a_href el)) as [url|]; [| reflexivity].
  now destruct (Js.truthy url).
Qed.

Lemma resolved_truthy (origin : string) (el : Anchor) (url : string) :
  resolved X origin el = Some url -> Js.truthy url = true.
Proof.
  unfold resolved. destruct (resolveLink X origin (a_href el)) as [u|]; [| discriminate].
  destruct (Js.truthy u) eqn:E; [| discriminate]. now intros [= <-].
Qed.

(** The anchors that do not both mention privacy and resolve are
    passed over. *)
Lemma findPrivacyLink_skip (origin : string) (pre rest : list Anchor) :
  (forall el, In el pre -> mentionsPrivacy el = false \/ resolved X origin el = None) ->
  fold_left (privacyLinkStep X origin) (pre ++ rest)%list None =
  fold_left (privacyLinkStep X origin) rest None.
Proof.
  induction pre as [|el pre IH]; intros Hpre; [reflexivity |].
  simpl. rewrite privacyLinkStep_none.
  assert (Hel : (if mentionsPrivacy el then resolved X origin el else None) = None).
  { destruct (Hpre el (or_introl eq_refl)) as [-> | Hr]; [reflexivity |].
    now destruct (mentionsPrivacy el). }
  rewrite Hel. apply IH. intros el' Hin. apply Hpre. now right.
Qed.

End WithExternals.

End ScraperFacts.




(* ================================================================== *)
(** * The wrapper with the parent-domain fallback *)
(* ================================================================== *)

Module WrapperFacts.

Lemma append_nonempty (a b : string) : b <> "" -> a ++ b <> "".
Proof. destruct a; simpl; [auto | discriminate]. Qed.

(** The origin of the parent domain is never the empty string. *)
Lemma getMainDomainOrigin_truthy (origin mainOrigin : string) :
  getMainDomainOrigin origin = Some mainOrigin -> Js.truthy mainOrigin = true.
Proof.
  unfold getMainDomainOrigin. destruct (URL_new origin) as [u|]; [| discriminate].
  destruct (_ <=? 2)%nat; [discriminate |]. intros [= <-].
  unfold Js.truthy. apply negb_true_iff, String.eqb_neq.
  unfold Url.protocol. rewrite JsFacts.append_assoc.
  apply append_nonempty. discriminate.
Qed.

Section Over.

Variable scrape : string -> bool -> M (list Request) ScrapeResult.

(** The wrapper when no second attempt is made. *)
Lemma wrapper_single (rawUrl : string) (net : list Request) :
  let origin := normalizeOrigin rawUrl in
  let first := scrape origin true net in
  foundNothing (collapsed (fst first)) && originHasSubdomain origin = false ->
  findPrivacyPolicyAndEmails_over scrape rawUrl net = (Ok (collapsed (fst first)), snd first).
Proof.
  intros origin first Hno.
  unfold findPrivacyPolicyAndEmails_over, bind, try_catch, ret. fold origin. fold first.
  unfold foundNothing in Hno.
  destruct first as [[result|err] net1]; cbn [fst snd collapsed] in *;
    rewrite Hno; reflexivity.
Qed.

(** The wrapper when the second attempt is made. *)
Lemma wrapper_widened (rawUrl : string) (net : list Request) (mainOrigin : string) :
  let origin := normalizeOrigin rawUrl in
  let first := scrape origin true net in
  let result := collapsed (fst first) in
  foundNothing result && originHasSubdomain origin = true ->
  getMainDomainOrigin origin = Some mainOrigin ->
  findPrivacyPolicyAndEmails_over scrape rawUrl net =
  match scrape mainOrigin false (snd first) with
  | (Ok mainResult, net2) =>
      (Ok (mkResult (nullish_or (privacyUrl mainResult) (privacyUrl result))
                    (dedupe (emails result ++ emails mainResult)%list)), net2)
  | (Throw _, net2) => (Ok result, net2)
  end.
Proof.
  intros origin first result Hyes Hmain. subst result.
  unfold findPrivacyPolicyAndEmails_over, bind, try_catch, ret. fold origin. fold first.
  unfold foundNothing in Hyes.
  pose proof (getMainDomainOrigin_truthy _ _ Hmain) as Htruthy.
  destruct first as [[result|err] net1]; cbn [fst snd collapsed] in *;
    rewrite Hyes, Hmain, Htruthy;
    destruct (scrape mainOrigin false net1) as [[mainResult|err2] net2]; reflexivity.
Qed.

(** The wrapper when the origin has a subdomain and no parent. *)
Lemma wrapper_no_parent (rawUrl : string) (net : list Request) :
  let origin := normalizeOrigin rawUrl in
  let first := scrape origin true net in
  getMainDomainOrigin origin = None ->
  findPrivacyPolicyAndEmails_over scrape rawUrl net = (Ok (collapsed (fst first)), snd first).
Proof.
  intros origin first Hmain.
  unfold findPrivacyPolicyAndEmails_over, bind, try_catch, ret. fold origin. fold first.
  destruct first as [[result|err] net1]; cbn [fst snd collapsed] in *;
    rewrite Hmain; now destruct (_ && _).
Qed.

End Over.

End WrapperFacts.

(** C1: the wrapper always returns; a first attempt that throws counts as
    the empty result (returned as such when the origin has no subdomain,
    and the starting point of the second attempt otherwise); a second
    attempt that throws leaves the result of the first attempt as the
    result. *)
Theorem findPrivacyPolicyAndEmails_never_raises :
  forall (scrape : string -> bool -> M (list Request) ScrapeResult)
         (X : Externals) (rawUrl : string) (net : list Request),
    let origin := normalizeOrigin rawUrl in
    let first := scrape origin true net in
    let wrapped := findPrivacyPolicyAndEmails_over scrape rawUrl net in
    (exists result, fst wrapped = Ok result) /\
    (exists result, fst (findPrivacyPolicyAndEmails X rawUrl net) = Ok result) /\
    (forall err,
        fst first = Throw err ->
        (originHasSubdomain origin = false ->
         wrapped = (Ok (mkResult None []), snd first)) /\
        (forall mainOrigin,
            originHasSubdomain origin = true ->
            getMainDomainOrigin origin = Some mainOrigin ->
            wrapped =
            match scrape mainOrigin false (snd first) with
            | (Ok mainResult, net2) =>
                (Ok (mkResult (privacyUrl mainResult) (dedupe (emails mainResult))), net2)
            | (Throw _, net2) => (Ok (mkResult None []), net2)
            end)) /\
    (forall mainOrigin err,
        foundNothing (collapsed (fst first)) = true ->
        originHasSubdomain origin = true ->
        getMainDomainOrigin origin = Some mainOrigin ->
        fst (scrape mainOrigin false (snd first)) = Throw err ->
        fst wrapped = Ok (collapsed (fst first))).
Proof.
  intros scrape X rawUrl net origin first wrapped.
  assert (Hreturns : forall sc,
             exists result, fst (findPrivacyPolicyAndEmails_over sc rawUrl net) = Ok result).
  { intros sc.
    destruct (foundNothing (collapsed (fst (sc origin true net))) && originHasSubdomain origin)
      eqn:Hwiden.
    - destruct (getMainDomainOrigin origin) as [mainOrigin|] eqn:Hmain.
      + rewrite (WrapperFacts.wrapper_widened sc rawUrl net mainOrigin Hwiden Hmain).
        destruct (sc mainOrigin false _) as [[mainResult|err] net2]; eexists; reflexivity.
      + rewrite (WrapperFacts.wrapper_no_parent sc rawUrl net Hmain). eexists; reflexivity.
    - rewrite (WrapperFacts.wrapper_single sc rawUrl net Hwiden). eexists; reflexivity. }
  split; [apply Hreturns |]. split; [apply Hreturns |]. split.
  - intros err Hthrow. split.
    + intros Hsub. subst wrapped.
      rewrite WrapperFacts.wrapper_single; fold origin; fold first.
      * now rewrite Hthrow.
      * rewrite Hsub. apply andb_false_r.
    + intros mainOrigin Hsub Hmain. subst wrapped.
      rewrite (WrapperFacts.wrapper_widened scrape rawUrl net mainOrigin);
        fold origin; fold first; rewrite ?Hthrow; cbn [collapsed]; try assumption;
        try (now rewrite Hsub).
      destruct (scrape mainOrigin false (snd first)) as [[mainResult|err2] net2];
        [| reflexivity].
      simpl. now destruct (privacyUrl mainResult).
  - intros mainOrigin err Hnothing Hsub Hmain Hthrow. subst wrapped.
    rewrite (WrapperFacts.wrapper_widened scrape rawUrl net mainOrigin);
      fold origin; fold first; try assumption; try (now rewrite Hnothing, Hsub).
    destruct (scrape mainOrigin false (snd first)) as [[mainResult|err2] net2];
      [discriminate | reflexivity].
Qed.

Lemma findPrivacyPolicyAndEmails_never_raises_witness :
  fst (findPrivacyPolicyAndEmails_over (fun _ _ => throw (JsError "socket hang up"))
         "https://us.example.com/login" []) = Ok (mkResult None []).
Proof.
  exact (proj2 (proj2 (proj2
           (findPrivacyPolicyAndEmails_never_raises
              (fun _ _ => throw (JsError "socket hang up"))
              (sampleExternals onePrivacyAnchor) "https://us.example.com/login" [])))
           "https://example.com" (JsError "socket hang up")
           eq_refl eq_refl eq_refl eq_refl).
Defined.

(* ================================================================== *)
(** * The candidate privacy pages *)
(* ================================================================== *)

Module CandidateFacts.

(** What [drop_while_end] removes is a suffix of characters that
    satisfy the predicate... *)
Lemma drop_while_end_suffix (p : ascii -> bool) (s : string) :
  exists suffix, s = Js.drop_while_end p s ++ suffix /\ Js.all_chars p suffix = true.
Proof.
  induction s as [|c s (suffix & Hs & Hall)].
  - now exists "".
  - simpl. destruct (Js.drop_while_end p s) as [|y d] eqn:Ed.
    + simpl in Hs. subst suffix. destruct (p c) eqn:Hc.
      * exists (String c s). simpl. now rewrite Hc, Hall.
      * exists s. now split.
    + exists suffix. split; [| exact Hall]. simpl. now rewrite Hs at 1.
Qed.

(** ... and what it leaves does not end with such a character. *)
Lemma drop_while_end_last (p : ascii -> bool) (s : string) :
  forall t c, Js.drop_while_end p s = t ++ String c "" -> p c = false.
Proof.
  induction s as [|x s IH]; intros t c; simpl.
  - destruct t; discriminate.
  - destruct (Js.drop_while_end p s) as [|y d] eqn:Ed.
    + destruct (p x) eqn:Hx.
      * destruct t; discriminate.
      * destruct t as [|z t]; simpl.
        -- now intros [= <-].
        -- intros [= _ Hd]. destruct t; discriminate.
    + destruct t as [|z t]; simpl.
      * discriminate.
      * intros [= _ Hd]. now apply (IH t).
Qed.

Section WithExternals.

Variable X : Externals.

Lemma requestsFor_cons (signal : bool) (n : nat) (c : string) (rest : list string)
    (net : list Request) :
  (net ++ requestsFor signal (S n) (c :: rest))%list =
  ((net ++ [mkRequest c signal]) ++ requestsFor signal n rest)%list.
Proof. unfold requestsFor. simpl. now rewrite <- app_assoc. Qed.

Lemma attempt_first (signal : bool) (net : list Request) (c : string) (rest : list string) :
  attempt X signal net (c :: rest) 0 = fetch_outcome X net (mkRequest c signal).
Proof. unfold attempt, requestsFor. simpl. now rewrite app_nil_r. Qed.

Lemma attempt_cons (signal : bool) (net : list Request) (c : string) (rest : list string)
    (j : nat) :
  attempt X signal net (c :: rest) (S j) =
  attempt X signal (net ++ [mkRequest c signal])%list rest j.
Proof. unfold attempt. now rewrite requestsFor_cons. Qed.

Lemma passedOverFirst_cons (signal : bool) (net : list Request) (c : string)
    (rest : list string) (state : option string * list string) (n : nat) :
  passedOverFirst X signal net (c :: rest) (S n) state =
  passedOverFirst X signal (net ++ [mkRequest c signal])%list rest n
                  (passedOver X c (fetch_outcome X net (mkRequest c signal)) state).
Proof.
  induction n as [|n IH].
  - simpl. now rewrite attempt_first.
  - change (passedOverFirst X signal net (c :: rest) (S (S n)) state)
      with (passedOver X (nth n rest "") (attempt X signal net (c :: rest) (S n))
                       (passedOverFirst X signal net (c :: rest) (S n) state)).
    now rewrite IH, attempt_cons.
Qed.

(** A call of [collectEmailsFromHtml] returns on the pages cheerio reads
    to their end, and only on them. *)
Lemma collect_call_readable (html : string) (emails : list string) :
  readable X html = true ->
  collectEmailsFromHtml_call X html emails = (Ok tt, collectEmailsFromHtml X html emails).
Proof.
  unfold readable, collectEmailsFromHtml_call, collectEmailsFromHtml, collectMailtoLinks.
  destruct (doc_load_error (cheerio_load X html)); [discriminate |].
  destruct (doc_text_error (cheerio_load X html)); [discriminate |]. reflexivity.
Qed.

Lemma collect_call_unreadable (html : string) (emails : list string) :
  readable X html = false ->
  exists e, fst (collectEmailsFromHtml_call X html emails) = Throw e.
Proof.
  unfold readable, collectEmailsFromHtml_call.
  destruct (doc_load_error (cheerio_load X html)) as [e|]; [now exists e |].
  destruct (doc_text_error (cheerio_load X html)) as [e|]; [now exists e | discriminate].
Qed.

(** One turn of the loop that does not end it. *)
Lemma tryCandidates_passed_over (signal : bool) (c : string) (rest : list string)
    (p : option string) (found : list string) (net : list Request) :
  settles X (fetch_outcome X net (mkRequest c signal)) = false ->
  tryCandidates X (c :: rest) signal p found net =
  let state := passedOver X c (fetch_outcome X net (mkRequest c signal)) (p, found) in
  tryCandidates X rest signal (fst state) (snd state) (net ++ [mkRequest c signal])%list.
Proof.
  intros Hno. cbn [tryCandidates]. unfold bind, try_catch, fetchText, ret.
  unfold settles, passedOver in *.
  destruct (fetch_outcome X net (mkRequest c signal)) as [html|e]; [| reflexivity].
  destruct (collect_call_unreadable html found Hno) as [e He].
  cbn [snd] in *.
  destruct (collectEmailsFromHtml_call X html found) as [[[]|e'] emails'];
    [discriminate | reflexivity].
Qed.

(** The loop ends at the first candidate that is fetched and read to its
    end, and asks for no candidate after it. *)
Lemma tryCandidates_settled (signal : bool) :
  forall (candidates : list string) (net : list Request) (p : option string)
         (found : list string) (k : nat) (candidate html : string),
    candidates !! k = Some candidate ->
    (forall j, (j < k)%nat -> settles X (attempt X signal net candidates j) = false) ->
    attempt X signal net candidates k = Ok html ->
    readable X html = true ->
    tryCandidates X candidates signal p found net =
    (Ok (Some candidate,
         collectEmailsFromHtml X html
           (snd (passedOverFirst X signal net candidates k (p, found)))),
     (net ++ requestsFor signal (S k) candidates)%list).
Proof.
  induction candidates as [|c rest IH]; intros net p found k candidate html Hk Hbefore Hat Hread.
  - discriminate.
  - destruct k as [|k].
    + injection Hk as <-. rewrite attempt_first in Hat.
      cbn [tryCandidates passedOverFirst snd]. unfold bind, try_catch, fetchText, ret.
      rewrite Hat, (collect_call_readable html found Hread).
      unfold requestsFor. reflexivity.
    + assert (Hfirst : settles X (fetch_outcome X net (mkRequest c signal)) = false).
      { rewrite <- attempt_first with (rest := rest). apply Hbefore. lia. }
      rewrite (tryCandidates_passed_over signal c rest p found net Hfirst).
      cbv zeta. rewrite passedOverFirst_cons, requestsFor_cons.
      destruct (passedOver X c (fetch_outcome X net (mkRequest c signal)) (p, found))
        as [p' found'].
      apply IH.
      * exact Hk.
      * intros j Hj. rewrite <- attempt_cons. apply Hbefore. lia.
      * now rewrite <- attempt_cons.
      * exact Hread.
Qed.

(** When no candidate ends the loop, all of them are asked for. *)
Lemma tryCandidates_unsettled (signal : bool) :
  forall (candidates : list string) (net : list Request) (p : option string)
         (found : list string),
    (forall j, (j < List.length candidates)%nat ->
               settles X (attempt X signal net candidates j) = false) ->
    tryCandidates X candidates signal p found net =
    (Ok (passedOverFirst X signal net candidates (List.length candidates) (p, found)),
     (net ++ requestsFor signal (List.length candidates) candidates)%list).
Proof.
  induction candidates as [|c rest IH]; intros net p found Hall.
  - unfold requestsFor. simpl. now rewrite app_nil_r.
  - assert (Hfirst : settles X (fetch_outcome X net (mkRequest c signal)) = false).
    { rewrite <- attempt_first with (rest := rest). apply Hall. simpl. lia. }
    rewrite (tryCandidates_passed_over signal c rest p found net Hfirst).
    cbv zeta. cbn [List.length]. rewrite passedOverFirst_cons, requestsFor_cons.
    destruct (passedOver X c (fetch_outcome X net (mkRequest c signal)) (p, found))
      as [p' found'].
    apply IH. intros j Hj. rewrite <- attempt_cons. apply Hall. simpl. lia.
Qed.

(** Candidates that could not be fetched leave the privacy URL and the
    emails as they were. *)
Lemma passedOverFirst_unfetched (signal : bool) (net : list Request)
    (candidates : list string) (state : option string * list string) (k : nat) :
  (forall j, (j < k)%nat -> exists e, attempt X signal net candidates j = Throw e) ->
  passedOverFirst X signal net candidates k state = state.
Proof.
  induction k as [|k IH]; intros Hall; [reflexivity |].
  cbn [passedOverFirst]. destruct (Hall k) as [e ->]; [lia |].
  cbn [passedOver]. apply IH. intros j Hj. apply Hall. lia.
Qed.

(** [scrapeOrigin] when cheerio throws on the homepage. *)
Lemma scrapeOrigin_homepage_throw (origin : string) (signal : bool) (net : list Request)
    (e : thrown) :
  homepageFindings X origin (fetch_outcome X net (mkRequest origin signal)) = Throw e ->
  scrapeOrigin X origin signal net = (Throw e, (net ++ [mkRequest origin signal])%list).
Proof.
  unfold scrapeOrigin, homepageFindings, bind, try_catch, ret, throw.
  unfold fetchText at 1.
  destruct (fetch_outcome X net (mkRequest origin signal)) as [html|e0]; [| discriminate].
  destruct (Js.truthy html); [| discriminate].
  destruct (findPrivacyLink_call X html origin) as [link|e1]; [| now intros [= ->]].
  destruct (collectEmailsFromHtml_call X html []) as [[[]|e2] emails'];
    [discriminate | now intros [= ->]].
Qed.

(** [scrapeOrigin] after the homepage: the two branches. *)
Lemma scrapeOrigin_after_homepage (origin : string) (signal : bool) (net : list Request)
    (findings : option string * list string) :
  homepageFindings X origin (fetch_outcome X net (mkRequest origin signal)) = Ok findings ->
  let net1 := (net ++ [mkRequest origin signal])%list in
  scrapeOrigin X origin signal net =
  if Js.truthy_opt (fst findings) then
    (Ok (mkResult (fst findings)
                  match fetch_outcome X net1 (mkRequest (default "" (fst findings)) signal) with
                  | Ok page => snd (collectEmailsFromHtml_call X page (snd findings))
                  | Throw _ => snd findings
                  end),
     (net1 ++ [mkRequest (default "" (fst findings)) signal])%list)
  else
    match tryCandidates X (buildPrivacyCandidates origin) signal (fst findings)
                        (snd findings) net1 with
    | (Ok found, net') => (Ok (mkResult (fst found) (snd found)), net')
    | (Throw e, net') => (Throw e, net')
    end.
Proof.
  intros Hhome net1.
  assert (Hrun : scrapeOrigin X origin signal net =
                 (let '(privacyUrl, emails) := findings in
                  do found <-
                    match privacyUrl with
                    | Some link =>
                        if Js.truthy link then
                          do page <- try_catch (do html <- fetchText X link signal;
                                                ret (Some html))
                                               (fun _ => ret None);
                          match page with
                          | Some html =>
                              ret (privacyUrl,
                                   snd (collectEmailsFromHtml_call X html emails))
                          | None => ret (privacyUrl, emails)
                          end
                        else tryCandidates X (buildPrivacyCandidates origin) signal
                                           privacyUrl emails
                    | None => tryCandidates X (buildPrivacyCandidates origin) signal
                                            privacyUrl emails
                    end;
                  ret (mkResult (fst found) (snd found))) net1).
  { revert Hhome. unfold scrapeOrigin, homepageFindings.
    unfold bind at 1 2. unfold try_catch at 1. unfold bind at 1. unfold fetchText at 1.
    unfold ret at 1 2. fold net1.
    destruct (fetch_outcome X net (mkRequest origin signal)) as [html|e0].
    - destruct (Js.truthy html).
      + destruct (findPrivacyLink_call X html origin) as [link|e1]; [| discriminate].
        destruct (collectEmailsFromHtml_call X html []) as [[[]|e2] emails'];
          [| discriminate].
        now intros [= <-].
      + now intros [= <-].
    - now intros [= <-]. }
  rewrite Hrun. destruct findings as [[link|] found]; cbn [fst snd default from_option id].
  - simpl Js.truthy_opt. destruct (Js.truthy link); [| reflexivity].
    unfold bind, try_catch, ret, fetchText.
    now destruct (fetch_outcome X net1 (mkRequest link signal)).
  - reflexivity.
Qed.

Lemma set_add_elem (x y : string) (l : list string) :
  x ∈ Js.set_add y l <-> x ∈ l \/ x = y.
Proof.
  unfold Js.set_add, Js.mem. destruct (existsb (String.eqb y) l) eqn:Hmem.
  - split; [now left |]. intros [Hx | ->]; [exact Hx |].
    apply existsb_exists in Hmem as (z & Hz & Heq). apply String.eqb_eq in Heq. subst z.
    now apply list_elem_of_In.
  - rewrite elem_of_app, list_elem_of_singleton. tauto.
Qed.

(** The strings a fold of guarded additions leaves in the set. *)
Lemma fold_add_elem {A} (f : list string -> A -> list string)
    (adds : A -> string -> Prop) (xs : list A) :
  (forall acc x m, m ∈ f acc x <-> m ∈ acc \/ adds x m) ->
  forall acc m, m ∈ fold_left f xs acc <-> m ∈ acc \/ exists x, x ∈ xs /\ adds x m.
Proof.
  intros Hf. induction xs as [|x xs IH]; intros acc m; simpl.
  - split; [now left |]. intros [Hm | (x & Hx & _)]; [exact Hm |].
    now apply elem_of_nil in Hx.
  - rewrite IH, Hf. split.
    + intros [[Hm | Hadd] | (z & Hz & Hadd)].
      * now left.
      * right. exists x. split; [apply elem_of_cons; now left | exact Hadd].
      * right. exists z. split; [apply elem_of_cons; now right | exact Hadd].
    + intros [Hm | (z & Hz & Hadd)]; [now left; left |].
      apply elem_of_cons in Hz as [-> | Hz]; [now left; right |].
      right. now exists z.
Qed.

(** The emails of a page: the addresses of its [mailto:] links and the
    matches of its text, as far as they are likely emails. *)
Lemma collectEmailsFromHtml_elem (html : string) (emails : list string) (m : string) :
  m ∈ collectEmailsFromHtml X html emails <->
  m ∈ emails \/
  (exists el, el ∈ doc_anchors (cheerio_load X html) /\
              String.prefix "mailto:" (a_href el) = true /\
              m = Js.trim (Js.at_or "" 0 (Js.split "?" (strip_mailto (a_href el)))) /\
              isLikelyEmail m = true) \/
  (m ∈ email_matches X (doc_text (cheerio_load X html)) /\ isLikelyEmail m = true).
Proof.
  unfold collectEmailsFromHtml. cbv zeta.
  rewrite (fold_add_elem _ (fun x m => m = x /\ isLikelyEmail m = true)).
  2:{ intros acc x y. destruct (isLikelyEmail x) eqn:Hx.
      - rewrite set_add_elem. split; [intros [H | ->]; auto | intros [H | [-> _]]; auto].
      - split; [now left |]. intros [H | [-> Hy]]; [exact H | congruence]. }
  rewrite (fold_add_elem _
             (fun el m => m = Js.trim (Js.at_or "" 0 (Js.split "?" (strip_mailto (a_href el))))
                          /\ isLikelyEmail m = true)).
  2:{ intros acc el y. unfold collectMailto.
      destruct (Js.truthy (a_href el)) eqn:Hhref; simpl.
      - set (email := Js.trim _).
        destruct (isLikelyEmail email) eqn:Hlikely.
        + assert (Htruthy : Js.truthy email = true).
          { destruct email; [discriminate Hlikely | reflexivity]. }
          rewrite Htruthy. simpl. rewrite set_add_elem.
          split; [intros [H | ->]; auto | intros [H | [-> _]]; auto].
        + rewrite orb_true_r. split; [now left |].
          intros [H | [-> Hy]]; [exact H | congruence].
      - split; [now left |]. intros [H | [-> Hy]]; [exact H |].
        apply negb_false_iff, String.eqb_eq in Hhref. rewrite Hhref in Hy.
        discriminate Hy. }
  split.
  - intros [[Hm | (el & Hel & -> & Hlikely)] | (x & Hx & -> & Hlikely)].
    + now left.
    + right. left. apply list_elem_of_filter in Hel as [Hpre Hel].
      exists el. split; [exact Hel |]. split; [now apply Is_true_true |]. now split.
    + right. right. now split.
  - intros [Hm | [(el & Hel & Hpre & -> & Hlikely) | (Hx & Hlikely)]].
    + now left; left.
    + left. right. exists el. split; [| now split].
      apply list_elem_of_filter. split; [now apply Is_true_true | exact Hel].
    + right. exists m. now split.
Qed.

End WithExternals.

End CandidateFacts.

(** C5: when the homepage was read without a throw and gave no privacy
    link, [scrapeOrigin] asks for the five candidates of
    [buildPrivacyCandidates] (the origin without its trailing slashes,
    followed by the five suffixes, in their order) one after the other.
    The loop ends, and no later candidate is asked for, at the first
    candidate that is fetched and whose page [collectEmailsFromHtml] reads
    without a throw: that candidate is the privacy URL, and the emails of
    its page join those collected so far.  A candidate that cannot be
    fetched changes nothing.  A candidate that is fetched but whose page
    makes [collectEmailsFromHtml] throw does not end the loop: it is the
    privacy URL from then on, the emails added before the throw stay, and
    the next candidate is asked for; when no candidate ends the loop all
    five are asked for.  The emails of a page are the addresses of its
    [mailto:] links and the matches of its text that pass
    [isLikelyEmail]. *)
Theorem scrapeOrigin_first_readable_candidate :
  forall (X : Externals) (origin : string) (signal : bool) (net : list Request)
         (findings : option string * list string),
    let candidates := buildPrivacyCandidates origin in
    let net1 := (net ++ [mkRequest origin signal])%list in
    let ran := scrapeOrigin X origin signal net in
    let fetched := attempt X signal net1 candidates in
    let state := fun n => passedOverFirst X signal net1 candidates n findings in
    homepageFindings X origin (fetch_outcome X net (mkRequest origin signal)) = Ok findings ->
    Js.truthy_opt (fst findings) = false ->
    (exists stripped slashes,
        origin = stripped ++ slashes /\
        Js.all_chars (Ascii.eqb "/") slashes = true /\
        (forall t, stripped <> t ++ "/") /\
        candidates = [ stripped ++ "/privacy"; stripped ++ "/privacy-policy";
                       stripped ++ "/privacy_policy"; stripped ++ "/legal/privacy";
                       stripped ++ "/policies/privacy" ]) /\
    (forall k candidate html,
        candidates !! k = Some candidate ->
        (forall j, (j < k)%nat -> settles X (fetched j) = false) ->
        fetched k = Ok html ->
        readable X html = true ->
        ran = (Ok (mkResult (Some candidate)
                            (collectEmailsFromHtml X html (snd (state k)))),
               (net1 ++ requestsFor signal (S k) candidates)%list)) /\
    ((forall j, (j < 5)%nat -> settles X (fetched j) = false) ->
     ran = (Ok (mkResult (fst (state 5)) (snd (state 5))),
            (net1 ++ requestsFor signal 5 candidates)%list)) /\
    (forall k,
        state (S k) =
        match fetched k with
        | Ok html =>
            (Some (nth k candidates ""),
             match doc_load_error (cheerio_load X html),
                   doc_text_error (cheerio_load X html) with
             | Some _, _ => snd (state k)
             | None, Some _ => collectMailtoLinks X html (snd (state k))
             | None, None => collectEmailsFromHtml X html (snd (state k))
             end)
        | Throw _ => state k
        end) /\
    (forall k, (forall j, (j < k)%nat -> exists e, fetched j = Throw e) ->
               state k = findings) /\
    (forall html emails m,
        m ∈ collectEmailsFromHtml X html emails <->
        m ∈ emails \/
        (exists el, el ∈ doc_anchors (cheerio_load X html) /\
                    String.prefix "mailto:" (a_href el) = true /\
                    m = Js.trim (Js.at_or "" 0 (Js.split "?" (strip_mailto (a_href el)))) /\
                    isLikelyEmail m = true) \/
        (m ∈ email_matches X (doc_text (cheerio_load X html)) /\ isLikelyEmail m = true)).
Proof.
  intros X origin signal net findings candidates net1 ran fetched state Hhome Hno.
  assert (Hran : ran = match tryCandidates X candidates signal (fst findings)
                                           (snd findings) net1 with
                       | (Ok found, net') => (Ok (mkResult (fst found) (snd found)), net')
                       | (Throw e, net') => (Throw e, net')
                       end).
  { subst ran. rewrite (CandidateFacts.scrapeOrigin_after_homepage X origin signal net
                          findings Hhome).
    now rewrite Hno. }
  split; [| split; [| split; [| split; [| split]]]].
  - destruct (CandidateFacts.drop_while_end_suffix (Ascii.eqb "/") origin)
      as (slashes & Horigin & Hslashes).
    exists (Js.drop_while_end (Ascii.eqb "/") origin), slashes.
    split; [exact Horigin |]. split; [exact Hslashes |]. split; [| reflexivity].
    intros t Ht.
    now pose proof (CandidateFacts.drop_while_end_last _ _ _ _ Ht).
  - intros k candidate html Hk Hbefore Hat Hread. rewrite Hran.
    rewrite (CandidateFacts.tryCandidates_settled X signal candidates net1 (fst findings)
               (snd findings) k candidate html Hk Hbefore Hat Hread).
    now rewrite <- surjective_pairing.
  - intros Hall. rewrite Hran.
    rewrite (CandidateFacts.tryCandidates_unsettled X signal candidates net1 (fst findings)
               (snd findings) Hall).
    now rewrite <- surjective_pairing.
  - intros k. subst state. cbn [passedOverFirst]. fold fetched. unfold passedOver.
    destruct (fetched k) as [html|e]; [| reflexivity].
    unfold collectEmailsFromHtml_call, collectEmailsFromHtml, collectMailtoLinks.
    destruct (doc_load_error (cheerio_load X html)); [reflexivity |].
    now destruct (doc_text_error (cheerio_load X html)).
  - intros k Hall. now apply CandidateFacts.passedOverFirst_unfetched.
  - apply CandidateFacts.collectEmailsFromHtml_elem.
Qed.

Lemma scrapeOrigin_first_readable_candidate_witness :
  scrapeOrigin policySite "https://example.com" true []
  = (Ok (mkResult (Some "https://example.com/privacy-policy")
                  ["dpo@example.com"; "privacy@example.com"]),
     [ mkRequest "https://example.com" true;
       mkRequest "https://example.com/privacy" true;
       mkRequest "https://example.com/privacy-policy" true ]).
Proof.
  assert (Hbefore : forall j, (j < 1)%nat ->
            settles policySite
              (attempt policySite true [mkRequest "https://example.com" true]
                       (buildPrivacyCandidates "https://example.com") j) = false).
  { intros [|j] Hj; [reflexivity | lia]. }
  exact (proj1 (proj2 (scrapeOrigin_first_readable_candidate
                         policySite "https://example.com" true [] (None, [])
                         eq_refl eq_refl))
           1%nat "https://example.com/privacy-policy" "<html>" eq_refl Hbefore
           eq_refl eq_refl).
Defined.

(** The first candidate is fetched, but [$.text()] throws on its page
    after the [mailto:] link was read: the loop goes on, the second
    candidate is asked for and is the privacy URL, and the address of the
    first page stays. *)
Lemma scrapeOrigin_first_fetched_candidate_counterexample :
  fetch_outcome deepSite [mkRequest "https://example.com" true]
                (mkRequest "https://example.com/privacy" true) = Ok "<deep>" /\
  scrapeOrigin deepSite "https://example.com" true []
  = (Ok (mkResult (Some "https://example.com/privacy-policy")
                  ["legal@example.com"; "dpo@example.com"; "privacy@example.com"]),
     [ mkRequest "https://example.com" true;
       mkRequest "https://example.com/privacy" true;
       mkRequest "https://example.com/privacy-policy" true ]).
Proof. split; reflexivity. Qed.

(* ================================================================== *)
(** * Subdomains and parent domains *)
(* ================================================================== *)

Module DomainFacts.

Import Js UrlSpec.

Lemma split_length_sep c (b r : string) :
  (List.length (split c r) < List.length (split c (b ++ String c r)))%nat.
Proof.
  destruct (JsFacts.split_append_sep c b r) as (h & t & ->).
  simpl. rewrite length_app. lia.
Qed.

(** More than two labels: a first label, a dot, and a rest. *)
Lemma split_head_rest c (s : string) :
  (2 < List.length (split c s))%nat ->
  exists label rest,
    s = label ++ String c rest /\ has_char c label = false /\
    skipn 1 (split c s) = split c rest /\ (1 < List.length (split c rest))%nat.
Proof.
  induction s as [|x s IH]; simpl; [lia |].
  destruct (Ascii.eqb_spec x c) as [->|Hne].
  - intros Hlen. exists "", s. simpl in *. repeat split; try reflexivity. lia.
  - destruct (split c s) as [|h t] eqn:E; [simpl; lia |].
    intros Hlen.
    destruct IH as (label & rest & -> & Hlabel & Hskip & Hrest); [exact Hlen |].
    exists (String x label), rest. simpl in *. repeat split; try assumption.
    rewrite JsFacts.has_char_cons, Hlabel.
    destruct (Ascii.eqb_spec x c); [congruence | reflexivity].
Qed.

Lemma hex_uint_chars (d : Hexadecimal.uint) :
  all_chars is_lower_hex (HexadecimalString.NilEmpty.string_of_uint d) = true.
Proof. induction d; simpl; auto. Qed.

Lemma hex_chars (n : N) : all_chars is_lower_hex (Url.hex n) = true.
Proof.
  unfold Url.hex, HexadecimalString.NilZero.string_of_uint.
  destruct (N.to_hex_uint n) eqn:E; try reflexivity;
    rewrite <- E; apply hex_uint_chars.
Qed.

Lemma ipv6_serialize_loop_chars (pieces : list N) :
  forall pieceIndex compress ignore0,
    all_chars is_ipv6_char (Url.ipv6_serialize_loop pieces pieceIndex compress ignore0) = true.
Proof.
  induction pieces as [|p rest IH]; intros pieceIndex compress ignore0; [reflexivity |].
  cbn [Url.ipv6_serialize_loop].
  destruct (ignore0 && (p =? 0)%N); [apply IH |].
  destruct (Url.is_compress _ _).
  - rewrite JsFacts.all_chars_append, IH. now destruct (pieceIndex =? 0)%nat.
  - rewrite !JsFacts.all_chars_append, IH, andb_true_r.
    apply andb_true_iff. split.
    + eapply JsFacts.all_chars_impl; [| apply hex_chars].
      intros c Hc. unfold is_ipv6_char. now rewrite Hc.
    + now destruct (pieceIndex =? 7)%nat.
Qed.

(** The hostname of an IPv6 host holds no dot. *)
Lemma ipv6_hostname_no_dot (pieces : list N) :
  has_char "." (Url.host_serialize (Url.IPv6 pieces)) = false.
Proof.
  unfold has_char. apply negb_false_iff. cbn [Url.host_serialize].
  change ("[" ++ Url.ipv6_serialize pieces ++ "]")
    with (String "[" (Url.ipv6_serialize pieces ++ "]")).
  cbn [all_chars]. rewrite JsFacts.all_chars_append. simpl.
  rewrite andb_true_r.
  eapply JsFacts.all_chars_impl; [| apply ipv6_serialize_loop_chars].
  intros c. unfold is_ipv6_char, is_lower_hex, is_digit, in_range, code.
  destruct c as [[] [] [] [] [] [] [] []]; vm_compute; congruence.
Qed.

(** The hostname of an IPv4 host holds four labels at least. *)
Lemma ipv4_hostname_labels (address : N) :
  (3 < List.length (split "." (Url.host_serialize (Url.IPv4 address))))%nat.
Proof.
  cbn [Url.host_serialize]. unfold Url.ipv4_serialize.
  set (a := Url.dec _). set (b := Url.dec _). set (c := Url.dec _). set (d := Url.dec _).
  change (a ++ "." ++ b ++ "." ++ c ++ "." ++ d)
    with (a ++ String "." (b ++ String "." (c ++ String "." d))).
  pose proof (split_length_sep "." a (b ++ String "." (c ++ String "." d))).
  pose proof (split_length_sep "." b (c ++ String "." d)).
  pose proof (split_length_sep "." c d).
  pose proof (JsFacts.split_nonempty "." d).
  destruct (split "." d); [congruence | simpl in *; lia].
Qed.

End DomainFacts.

(** C7, as the code has it: [originHasSubdomain] is true exactly when the
    origin parses and its hostname has more than two labels between dots;
    an IPv6 host never counts as a subdomain, and an IPv4 host, whose
    hostname has four labels, always does; the function is true for
    [https://a.b.example.com] and false for [https://example.com]. *)
Theorem originHasSubdomain_more_than_two_labels :
  forall origin : string,
    (originHasSubdomain origin = true <->
     exists u, URL_new origin = Some u /\
               (2 < List.length (Js.split "." (Url.hostname u)))%nat) /\
    (forall u pieces,
        URL_new origin = Some u -> Url.host u = Some (Url.IPv6 pieces) ->
        originHasSubdomain origin = false) /\
    (forall u address,
        URL_new origin = Some u -> Url.host u = Some (Url.IPv4 address) ->
        originHasSubdomain origin = true) /\
    originHasSubdomain "https://a.b.example.com" = true /\
    originHasSubdomain "https://example.com" = false.
Proof.
  intros origin. unfold originHasSubdomain.
  split; [| split; [| split; [| split; reflexivity]]].
  - destruct (URL_new origin) as [u|].
    + rewrite Nat.ltb_lt. split.
      * intros H. now exists u.
      * now intros (u' & [= <-] & H).
    + split; [discriminate | now intros (u' & [=] & _)].
  - intros u pieces -> Hhost. apply Nat.ltb_ge.
    unfold Url.hostname. rewrite Hhost.
    rewrite JsFacts.split_absent by apply DomainFacts.ipv6_hostname_no_dot.
    simpl. lia.
  - intros u address -> Hhost. apply Nat.ltb_lt.
    unfold Url.hostname. rewrite Hhost.
    pose proof (DomainFacts.ipv4_hostname_labels address). lia.
Qed.

Lemma originHasSubdomain_more_than_two_labels_witness :
  originHasSubdomain "http://[2001:db8::1.2.3.4]:8080/" = false.
Proof.
  exact (proj1 (proj2 (originHasSubdomain_more_than_two_labels
                         "http://[2001:db8::1.2.3.4]:8080/"))
           (Url.mkURL "http" (Some (Url.IPv6 [8193; 3512; 0; 0; 0; 0; 258; 772]%N))
                      (Some 8080%N) None)
           [8193; 3512; 0; 0; 0; 0; 258; 772]%N eq_refl eq_refl).
Defined.

(** C7 as stated fails: an IPv4 host counts as a subdomain. *)
Lemma originHasSubdomain_ipv4_counterexample :
  URL_new "http://192.168.1.1" =
    Some (Url.mkURL "http" (Some (Url.IPv4 3232235777)) None None) /\
  Url.hostname (Url.mkURL "http" (Some (Url.IPv4 3232235777)) None None) = "192.168.1.1" /\
  originHasSubdomain "http://192.168.1.1" = true.
Proof. repeat split. Qed.

(** C8: [getMainDomainOrigin] returns null when the origin does not parse
    and when the hostname has two labels at most; otherwise it returns the
    scheme, [://], and the hostname without its first label and the dot
    after it; [https://us.example.com] gives [https://example.com]. *)
Theorem getMainDomainOrigin_strips_first_label :
  forall origin : string,
    (URL_new origin = None -> getMainDomainOrigin origin = None) /\
    (forall u,
        URL_new origin = Some u ->
        ((List.length (Js.split "." (Url.hostname u)) <= 2)%nat ->
         getMainDomainOrigin origin = None) /\
        ((2 < List.length (Js.split "." (Url.hostname u)))%nat ->
         exists label rest,
           Url.hostname u = label ++ "." ++ rest /\
           Js.has_char "." label = false /\
           getMainDomainOrigin origin = Some (Url.scheme u ++ "://" ++ rest))) /\
    getMainDomainOrigin "https://us.example.com" = Some "https://example.com".
Proof.
  intros origin. unfold getMainDomainOrigin.
  split; [now intros -> | split; [| reflexivity]].
  intros u ->. split.
  - intros Hle. apply Nat.leb_le in Hle. now rewrite Hle.
  - intros Hlt.
    destruct (DomainFacts.split_head_rest "." (Url.hostname u) Hlt)
      as (label & rest & Hhost & Hlabel & Hskip & _).
    exists label, rest. split; [exact Hhost |]. split; [exact Hlabel |].
    replace (_ <=? 2)%nat with false by (symmetry; apply Nat.leb_gt; lia).
    rewrite Hskip, JsFacts.join_split. unfold Url.protocol.
    rewrite JsFacts.append_assoc. reflexivity.
Qed.

Lemma getMainDomainOrigin_strips_first_label_witness :
  exists label rest,
    "login.portal.example.org" = label ++ "." ++ rest /\
    Js.has_char "." label = false /\
    getMainDomainOrigin "HTTPS://Login.Portal.Example.org:8443/a?b#c"
    = Some ("https" ++ "://" ++ rest).
Proof.
  exact (proj2 (proj1 (proj2 (getMainDomainOrigin_strips_first_label
                                "HTTPS://Login.Portal.Example.org:8443/a?b#c"))
                  (Url.mkURL "https" (Some (Url.Domain "login.portal.example.org"))
                             (Some 8443%N) None)
                  eq_refl)
           ltac:(vm_compute; lia)).
Defined.

(* ================================================================== *)
(** * The origin of a URL is a fixed point of parsing *)
(* ================================================================== *)

Module OriginFacts.

Import Js UrlSpec Url.

Ltac by_cases_on c :=
  destruct c as [[] [] [] [] [] [] [] []]; vm_compute; congruence.

Lemma drop_while_keep (p : ascii -> bool) (s : string) :
  all_chars (fun c => negb (p c)) s = true -> drop_while p s = s.
Proof.
  destruct s as [|c s]; [reflexivity |]. simpl.
  intros [Hc _]%andb_true_iff. apply negb_true_iff in Hc. now rewrite Hc.
Qed.

Lemma drop_while_end_keep (p : ascii -> bool) (s : string) :
  all_chars (fun c => negb (p c)) s = true -> drop_while_end p s = s.
Proof.
  induction s as [|c s IH]; [reflexivity |]. simpl.
  intros [Hc Hs]%andb_true_iff. apply negb_true_iff in Hc.
  rewrite (IH Hs), Hc. now destruct s.
Qed.

Lemma filter_string_keep (p : ascii -> bool) (s : string) :
  all_chars p s = true -> filter_string p s = s.
Proof.
  induction s as [|c s IH]; [reflexivity |]. simpl.
  intros [Hc Hs]%andb_true_iff. now rewrite Hc, (IH Hs).
Qed.

Lemma take_while_keep (p : ascii -> bool) (s : string) :
  all_chars p s = true -> take_while p s = s.
Proof.
  induction s as [|c s IH]; [reflexivity |]. simpl.
  intros [Hc Hs]%andb_true_iff. now rewrite Hc, (IH Hs).
Qed.

(** Input without C0 controls and spaces goes through the first step of
    the parser unchanged. *)
Lemma preprocess_keep (s : string) :
  all_chars (fun c => negb (is_c0_or_space c)) s = true -> preprocess s = s.
Proof.
  intros Hs. unfold preprocess.
  rewrite drop_while_keep by exact Hs.
  rewrite drop_while_end_keep by exact Hs.
  apply filter_string_keep.
  eapply JsFacts.all_chars_impl; [| exact Hs].
  intros c. by_cases_on c.
Qed.

Lemma after_last_at_absent (s : string) :
  has_char "@" s = false -> after_last_at s = None.
Proof.
  induction s as [|c s IH]; [reflexivity |].
  rewrite JsFacts.has_char_cons. intros [Hc Hs]%orb_false_iff.
  simpl. now rewrite (IH Hs), Hc.
Qed.

Lemma plain_no_at (s : string) : all_chars is_plain s = true -> has_char "@" s = false.
Proof.
  intros Hs. unfold has_char. apply negb_false_iff.
  eapply JsFacts.all_chars_impl; [| exact Hs].
  intros c. unfold is_plain. rewrite !andb_true_iff. now intros [_ H].
Qed.

Lemma plain_no_space (s : string) :
  all_chars is_plain s = true -> all_chars (fun c => negb (is_c0_or_space c)) s = true.
Proof.
  apply JsFacts.all_chars_impl. intros c. unfold is_plain.
  rewrite !andb_true_iff. now intros [[H _] _].
Qed.

Lemma plain_no_end (s : string) :
  all_chars is_plain s = true ->
  all_chars (fun c => negb (is_authority_end true c)) s = true.
Proof.
  apply JsFacts.all_chars_impl. intros c. unfold is_plain.
  rewrite !andb_true_iff. now intros [[_ H] _].
Qed.

(** Host state copies text without colons and brackets. *)
Lemma split_host_port_text (s rest : string) (inside : bool) :
  all_chars is_host_text s = true ->
  split_host_port inside (s ++ rest) =
  (s ++ fst (split_host_port inside rest), snd (split_host_port inside rest)).
Proof.
  induction s as [|c s IH]; simpl.
  - intros _. now destruct (split_host_port inside rest).
  - intros [Hc Hs]%andb_true_iff. unfold is_host_text in Hc.
    apply andb_true_iff in Hc as [[H1 H2]%andb_true_iff H3].
    apply negb_true_iff in H1, H2, H3. rewrite H1, H2, H3. simpl.
    rewrite (IH Hs). reflexivity.
Qed.

(** Host state copies a bracketed literal, colons included. *)
Lemma split_host_port_bracketed (body rest : string) :
  all_chars (fun c => negb (Ascii.eqb c "[") && negb (Ascii.eqb c "]")) body = true ->
  split_host_port false ("[" ++ body ++ "]" ++ rest) =
  ("[" ++ body ++ "]" ++ fst (split_host_port false rest),
   snd (split_host_port false rest)).
Proof.
  intros Hbody.
  change ("[" ++ body ++ "]" ++ rest) with (String "[" (body ++ String "]" rest)).
  cbn [split_host_port]. simpl (Ascii.eqb "[" ":"). simpl (Ascii.eqb "[" "[").
  cbn [andb].
  assert (Hin : split_host_port true (body ++ String "]" rest) =
                (body ++ String "]" (fst (split_host_port false rest)),
                 snd (split_host_port false rest))).
  { induction body as [|c body IH]; simpl.
    - now destruct (split_host_port false rest).
    - simpl in Hbody. apply andb_true_iff in Hbody as [Hc Hb].
      apply andb_true_iff in Hc as [H1 H2]. apply negb_true_iff in H1, H2.
      rewrite H1, H2, andb_false_r. rewrite (IH Hb). reflexivity. }
  rewrite Hin. reflexivity.
Qed.

Lemma has_tuple_origin_cases (scheme : string) :
  has_tuple_origin scheme = true ->
  scheme = "ftp" \/ scheme = "http" \/ scheme = "https" \/ scheme = "ws" \/ scheme = "wss".
Proof.
  unfold has_tuple_origin, mem. simpl.
  intros H.
  repeat (apply orb_true_iff in H as [H|H]; [apply String.eqb_eq in H; tauto |]).
  discriminate.
Qed.

Lemma parse_scheme_tuple (scheme rest : string) :
  has_tuple_origin scheme = true ->
  parse_scheme (scheme ++ String ":" rest) = Some (scheme, rest).
Proof.
  intros H. destruct (has_tuple_origin_cases _ H) as [->|[->|[->|[->| ->]]]]; reflexivity.
Qed.

Lemma tuple_scheme_plain (scheme : string) :
  has_tuple_origin scheme = true ->
  all_chars (fun c => negb (is_c0_or_space c)) (scheme ++ "://") = true /\
  String.eqb scheme "file" = false /\ is_special scheme = true /\ scheme <> "blob".
Proof.
  intros H. destruct (has_tuple_origin_cases _ H) as [->|[->|[->|[->| ->]]]];
    repeat split; discriminate.
Qed.

(** ** Numerals *)

Lemma all_from_spec (P : N -> bool) (count : nat) :
  forall n, all_from count n P = true ->
            forall m, (n <= m < n + N.of_nat count)%N -> P m = true.
Proof.
  induction count as [|count IH]; intros n Hall m Hm; [lia |].
  simpl in Hall. apply andb_true_iff in Hall as [Hn Hrest].
  destruct (N.eq_dec m n) as [->|Hne]; [exact Hn |].
  apply (IH (N.succ n) Hrest). lia.
Qed.

Lemma forall_below (P : N -> bool) (bound : N) :
  all_from (N.to_nat bound) 0 P = true ->
  forall n, (n < bound)%N -> P n = true.
Proof.
  intros Hall n Hn. apply (all_from_spec P _ 0%N Hall). lia.
Qed.

Lemma port_checked (p : N) : (p < 65536)%N -> port_check p = true.
Proof. apply forall_below. vm_compute. reflexivity. Qed.

Lemma byte_checked (b : N) : (b < 256)%N -> byte_check b = true.
Proof. apply forall_below. vm_compute. reflexivity. Qed.

Lemma piece_checked (p : N) : (p < 65536)%N -> piece_check p = true.
Proof. apply forall_below. vm_compute. reflexivity. Qed.

(** ** IPv6: what the parser does with the pieces of a serialised address *)

Lemma read_hex_digits (n : nat) (h rest : string) :
  forall value len,
    all_chars is_hex h = true -> (String.length h <= n)%nat -> no_hex_ahead rest ->
    read_hex n (h ++ rest) value len =
    (radix_value 16 value h, (len + String.length h)%nat, rest).
Proof.
  revert n. induction h as [|c h IH]; intros n value len Hh Hn Hrest; simpl.
  - rewrite Nat.add_0_r. destruct n; [reflexivity |].
    destruct rest as [|c rest]; [reflexivity |]. simpl in *. now rewrite Hrest.
  - simpl in Hh, Hn. apply andb_true_iff in Hh as [Hc Hh].
    destruct n as [|n]; [lia |]. simpl. rewrite Hc.
    rewrite IH by (auto; lia). f_equal. f_equal. lia.
Qed.

Lemma read_hex_rest (n : nat) (s : string) :
  forall value len,
    (String.length (snd (read_hex n s value len)) <= String.length s)%nat.
Proof.
  revert s. induction n as [|n IH]; intros s value len; [destruct s; simpl; lia |].
  destruct s as [|c s]; simpl; [lia |].
  destruct (is_hex c); simpl; [| lia].
  specialize (IH s (value * 16 + hex_val c)%N (S len)). lia.
Qed.

(** Fuel beyond the length of the input changes nothing. *)
Lemma ipv6_loop_fuel (f1 : nat) :
  forall f2 s address pieceIndex compress,
    (String.length s <= f1)%nat -> (String.length s <= f2)%nat ->
    ipv6_loop f1 s address pieceIndex compress = ipv6_loop f2 s address pieceIndex compress.
Proof.
  induction f1 as [|f1 IH]; intros f2 s address pieceIndex compress H1 H2.
  - destruct s; [now destruct f2 | simpl in H1; lia].
  - destruct s as [|c s]; [now destruct f2 |].
    destruct f2 as [|f2]; [simpl in H2; lia |].
    simpl in H1, H2. cbn [ipv6_loop].
    destruct (pieceIndex =? 8)%nat; [reflexivity |].
    destruct (Ascii.eqb c ":").
    + destruct compress; [reflexivity |]. apply IH; lia.
    + pose proof (read_hex_rest 4 (String c s) 0 0) as Hrest.
      destruct (read_hex 4 (String c s) 0 0) as [[value len] r].
      cbn [snd] in Hrest. simpl in Hrest.
      destruct r as [|d r']; [reflexivity |].
      destruct (Ascii.eqb d "."); [reflexivity |].
      destruct (Ascii.eqb d ":"); [| reflexivity].
      destruct r' as [|e r'']; [reflexivity |].
      simpl in Hrest. apply IH; simpl; lia.
Qed.

Lemma ipv6_loop_run (fuel : nat) (s : string) address pieceIndex compress :
  (String.length s <= fuel)%nat ->
  ipv6_loop fuel s address pieceIndex compress = ipv6_run s address pieceIndex compress.
Proof. intros H. unfold ipv6_run. now apply ipv6_loop_fuel. Qed.

Lemma hex_piece (p : N) :
  (p < 65536)%N ->
  exists c h, hex p = String c h /\ is_hex c = true /\ Ascii.eqb c ":" = false /\
              all_chars is_hex (hex p) = true /\ (String.length (hex p) <= 4)%nat /\
              radix_value 16 0 (hex p) = p.
Proof.
  intros Hp. pose proof (piece_checked p Hp) as Hc. unfold piece_check in Hc.
  apply andb_true_iff in Hc as [[[Hchars Hlen1]%andb_true_iff Hlen4]%andb_true_iff Hval].
  apply Nat.leb_le in Hlen1, Hlen4. apply N.eqb_eq in Hval.
  assert (Hhex : all_chars is_hex (hex p) = true).
  { eapply JsFacts.all_chars_impl; [| exact Hchars]. intros c. by_cases_on c. }
  destruct (hex p) as [|c h] eqn:E; [simpl in Hlen1; lia |].
  exists c, h. split; [reflexivity |].
  simpl in Hchars. apply andb_true_iff in Hchars as [Hc _].
  split; [revert Hc; by_cases_on c |]. split; [revert Hc; by_cases_on c |].
  auto.
Qed.

(** A piece followed by a colon and more input. *)
Lemma ipv6_run_piece (p : N) (rest : string) address pieceIndex compress :
  (p < 65536)%N -> (pieceIndex < 8)%nat -> rest <> "" ->
  ipv6_run (hex p ++ String ":" rest) address pieceIndex compress =
  ipv6_run rest (<[pieceIndex := p]> address) (S pieceIndex) compress.
Proof.
  intros Hp Hi Hrest.
  destruct (hex_piece p Hp) as (c & h & E & Hc & Hcolon & Hhex & Hlen & Hval).
  unfold ipv6_run at 1.
  destruct (String.length (hex p ++ String ":" rest)) as [|fuel] eqn:Efuel.
  { rewrite E in Efuel. discriminate. }
  assert (Hread : read_hex 4 (hex p ++ String ":" rest) 0 0 =
                  (p, String.length (hex p), String ":" rest)).
  { rewrite read_hex_digits by (auto; reflexivity). now rewrite Hval. }
  revert Hread. rewrite E. cbn [String.append]. intros Hread.
  cbn [ipv6_loop]. replace (pieceIndex =? 8)%nat with false by (symmetry; apply Nat.eqb_neq; lia).
  rewrite Hcolon, Hread. cbv beta iota.
  change (Ascii.eqb ":" ".") with false. change (Ascii.eqb ":" ":") with true. cbv iota.
  destruct rest as [|d rest]; [congruence |].
  apply ipv6_loop_run.
  rewrite E in Efuel. simpl in Efuel.
  assert (Hl : String.length (h ++ String ":" (String d rest)) =
               (String.length h + S (S (String.length rest)))%nat).
  { clear. induction h; simpl; [reflexivity | now rewrite IHh]. }
  simpl. lia.
Qed.

(** A piece at the end of the input. *)
Lemma ipv6_run_last (p : N) address pieceIndex compress :
  (p < 65536)%N -> (pieceIndex < 8)%nat ->
  ipv6_run (hex p) address pieceIndex compress =
  Some (<[pieceIndex := p]> address, S pieceIndex, compress).
Proof.
  intros Hp Hi.
  destruct (hex_piece p Hp) as (c & h & E & Hc & Hcolon & Hhex & Hlen & Hval).
  unfold ipv6_run.
  assert (Hread : read_hex 4 (hex p) 0 0 = (p, String.length (hex p), "")).
  { rewrite <- (JsFacts.append_empty_r (hex p)) at 1.
    rewrite read_hex_digits by (auto; reflexivity). now rewrite Hval. }
  revert Hread. rewrite E. intros Hread.
  cbn [String.length ipv6_loop].
  replace (pieceIndex =? 8)%nat with false by (symmetry; apply Nat.eqb_neq; lia).
  now rewrite Hcolon, Hread.
Qed.

(** The second colon of [::]. *)
Lemma ipv6_run_compress (rest : string) address pieceIndex :
  (pieceIndex < 8)%nat ->
  ipv6_run (String ":" rest) address pieceIndex None =
  ipv6_run rest address (S pieceIndex) (Some (S pieceIndex)).
Proof.
  intros Hi. unfold ipv6_run. cbn [String.length ipv6_loop].
  replace (pieceIndex =? 8)%nat with false by (symmetry; apply Nat.eqb_neq; lia).
  reflexivity.
Qed.

Lemma ipv6_run_end address pieceIndex compress :
  ipv6_run "" address pieceIndex compress = Some (address, pieceIndex, compress).
Proof. reflexivity. Qed.

(** The start of the parser on an address that starts with a piece, and
    on one that starts with [::]. *)
Lemma ipv6_parse_piece_first (p : N) (rest : string) :
  (p < 65536)%N ->
  ipv6_parse (hex p ++ rest) = ipv6_finish (ipv6_run (hex p ++ rest) (repeat 0%N 8) 0 None).
Proof.
  intros Hp.
  destruct (hex_piece p Hp) as (c & h & E & Hc & Hcolon & _).
  unfold ipv6_parse. rewrite E. cbn [String.append]. rewrite Hcolon.
  rewrite ipv6_loop_run by lia. reflexivity.
Qed.

Lemma ipv6_parse_compress_first (rest : string) :
  ipv6_parse (String ":" (String ":" rest)) =
  ipv6_finish (ipv6_run rest (repeat 0%N 8) 1 (Some 1%nat)).
Proof.
  unfold ipv6_parse. change (Ascii.eqb ":" ":") with true. cbv iota.
  rewrite ipv6_loop_run by lia. reflexivity.
Qed.


Lemma hex_append_nonempty (p : N) (rest : string) : (p < 65536)%N -> hex p ++ rest <> "".
Proof.
  intros Hp. destruct (hex_piece p Hp) as (c & h & -> & _). discriminate.
Qed.

Ltac ipv6_side :=
  first [ assumption | lia | discriminate | (apply hex_append_nonempty; first [assumption | lia]) ].

Ltac ipv6_steps :=
  repeat first
    [ rewrite ipv6_run_piece by ipv6_side
    | rewrite ipv6_run_compress by ipv6_side
    | rewrite JsFacts.append_empty_r
    | rewrite ipv6_run_last by ipv6_side
    | rewrite ipv6_run_end ].

Lemma ipv6_roundtrip (pieces : list N) :
  List.length pieces = 8%nat -> Forall (fun p => (p < 65536)%N) pieces ->
  ipv6_parse (ipv6_serialize pieces) = Some pieces.
Proof.
  intros Hlen Hall.
  destruct pieces as [|p0 [|p1 [|p2 [|p3 [|p4 [|p5 [|p6 [|p7 [|p8 rest]]]]]]]]];
    try discriminate.
  repeat match goal with
         | H : Forall _ (_ :: _) |- _ => inversion H; subst; clear H
         | H : Forall _ [] |- _ => clear H
         end.
  clear Hlen.
  destruct p0, p1, p2, p3, p4, p5, p6, p7;
    unfold ipv6_serialize; cbn -[hex ipv6_parse];
    (first [ rewrite ipv6_parse_compress_first
           | rewrite ipv6_parse_piece_first by ipv6_side ]);
    ipv6_steps; reflexivity.
Qed.

(** ** IPv6: the parser returns eight pieces of sixteen bits *)

Lemma pieces_ok_insert (address : list N) (i : nat) (p : N) :
  pieces_ok address -> (p < 65536)%N -> pieces_ok (<[i := p]> address).
Proof.
  intros [Hlen Hall] Hp. split; [now rewrite length_insert |].
  now apply Forall_insert.
Qed.

Lemma pieces_ok_nth (address : list N) (i : nat) :
  pieces_ok address -> (nth i address 0 < 65536)%N.
Proof.
  intros [_ Hall]. revert i. induction Hall as [|p l Hp Hl IH]; intros [|i]; simpl; auto; lia.
Qed.

Lemma read_hex_bound (n : nat) :
  forall s value len,
    (fst (fst (read_hex n s value len)) < (value + 1) * 16 ^ N.of_nat n)%N.
Proof.
  induction n as [|n IH]; intros s value len.
  - destruct s; simpl; lia.
  - destruct s as [|c s]; [simpl fst; nia |].
    cbn [read_hex]. destruct (is_hex c) eqn:Hc; [| simpl fst; nia].
    specialize (IH s (value * 16 + hex_val c)%N (S len)).
    assert (Hv : (hex_val c < 16)%N) by (revert Hc; by_cases_on c).
    rewrite Nat2N.inj_succ, N.pow_succ_r'. nia.
Qed.

Lemma read_ipv4_piece_bound (s : string) :
  forall piece p r,
    match piece with Some q => (q <= 255)%N | None => True end ->
    read_ipv4_piece s piece = Some (p, r) -> (p <= 255)%N.
Proof.
  induction s as [|c s IH]; intros piece p r Hpiece; simpl.
  - destruct piece; simpl; [intros [= <- _]; exact Hpiece | discriminate].
  - destruct (is_digit c) eqn:Hc.
    + assert (Hd : (digit_val c <= 9)%N) by (revert Hc; by_cases_on c).
      destruct piece as [[|q]|].
      * discriminate.
      * destruct (N.ltb_spec 255 (N.pos q * 10 + digit_val c)); [discriminate |].
        apply IH. lia.
      * apply IH. lia.
    + destruct piece; simpl; [intros [= <- _]; exact Hpiece | discriminate].
Qed.

Lemma nth_insert_same (address : list N) (i : nat) (p : N) :
  (i < List.length address)%nat -> nth i (<[i := p]> address) 0%N = p.
Proof.
  revert i. induction address as [|a l IH]; intros [|i] H; simpl in *; try lia; auto.
  apply IH. lia.
Qed.

Lemma nth_insert_other (address : list N) (i j : nat) (p : N) :
  i <> j -> nth j (<[i := p]> address) 0%N = nth j address 0%N.
Proof.
  revert i j. induction address as [|a l IH]; intros [|i] [|j] H; simpl in *; auto; try lia.
Qed.

Lemma ipv4_in_ipv6_ok (fuel : nat) :
  forall s address pieceIndex numbersSeen result index,
    embedded_ok address pieceIndex numbersSeen ->
    (pieceIndex <= 6 + Nat.div2 numbersSeen)%nat ->
    ipv4_in_ipv6 fuel s address pieceIndex numbersSeen = Some (result, index) ->
    pieces_ok result.
Proof.
  induction fuel as [|fuel IH]; intros s address pieceIndex seen result index Hok Hi.
  - destruct s; simpl; [| discriminate].
    destruct (seen =? 4)%nat; [| discriminate]. intros [= <- _]. apply Hok.
  - destruct s as [|c s]; cbn [ipv4_in_ipv6].
    { destruct (seen =? 4)%nat; [| discriminate]. intros [= <- _]. apply Hok. }
    destruct (if (0 <? seen)%nat
              then if Ascii.eqb c "." && (seen <? 4)%nat then Some s else None
              else Some (String c s)) as [r|] eqn:Er; [| discriminate].
    destruct r as [|d r]; [discriminate |].
    destruct (is_digit d); [| discriminate].
    destruct (read_ipv4_piece (String d r) None) as [[piece r']|] eqn:Ep; [| discriminate].
    pose proof (read_ipv4_piece_bound _ None _ _ I Ep) as Hpiece.
    destruct Hok as (Hpieces & Hzero & Hcur).
    assert (Hseen : (seen < 4)%nat).
    { destruct (0 <? seen)%nat eqn:E0.
      - destruct (Ascii.eqb c "." && (seen <? 4)%nat) eqn:E4; [| discriminate].
        apply andb_true_iff in E4 as [_ E4]. now apply Nat.ltb_lt in E4.
      - apply Nat.ltb_ge in E0. lia. }
    assert (Hlen : List.length address = 8%nat) by apply Hpieces.
    assert (Hroom : (pieceIndex < 8)%nat).
    { destruct seen as [|[|[|[|seen]]]]; simpl in Hi; lia. }
    apply IH.
    + split; [| split].
      * apply pieces_ok_insert; [exact Hpieces |].
        destruct (Nat.even seen); lia.
      * intros j Hj. rewrite nth_insert_other.
        -- apply Hzero. destruct (_ || _); lia.
        -- destruct (_ || _); lia.
      * destruct seen as [|[|[|[|seen]]]]; simpl in *; try lia.
        -- rewrite nth_insert_same by lia. lia.
        -- rewrite nth_insert_other by lia. rewrite Hzero by lia. lia.
        -- rewrite nth_insert_same by lia. lia.
        -- rewrite nth_insert_other by lia. rewrite Hzero by lia. lia.
    + destruct seen as [|[|[|[|seen]]]]; simpl in *; lia.
Qed.

Lemma loop_ok_insert (address : list N) (pieceIndex : nat) (p : N) :
  loop_ok address pieceIndex -> (p < 65536)%N ->
  loop_ok (<[pieceIndex := p]> address) (S pieceIndex).
Proof.
  intros [Hp Hz] Hlt. split; [now apply pieces_ok_insert |].
  intros j Hj. rewrite nth_insert_other by lia. apply Hz. lia.
Qed.

Lemma ipv6_loop_ok (fuel : nat) :
  forall s address pieceIndex compress result index compress',
    loop_ok address pieceIndex ->
    ipv6_loop fuel s address pieceIndex compress = Some (result, index, compress') ->
    pieces_ok result.
Proof.
  induction fuel as [|fuel IH]; intros s address pieceIndex compress result index compress' Hok.
  - destruct s; simpl; [| discriminate]. intros [= <- _ _]. apply Hok.
  - destruct s as [|c s]; cbn [ipv6_loop]; [intros [= <- _ _]; apply Hok |].
    destruct (pieceIndex =? 8)%nat; [discriminate |].
    destruct (Ascii.eqb c ":").
    + destruct compress; [discriminate |]. apply IH.
      destruct Hok as [Hp Hz]. split; [exact Hp |]. intros j Hj. apply Hz. lia.
    + pose proof (read_hex_bound 4 (String c s) 0 0) as Hvalue.
      destruct (read_hex 4 (String c s) 0 0) as [[value len] r].
      cbn [fst] in Hvalue. change ((0 + 1) * 16 ^ N.of_nat 4)%N with 65536%N in Hvalue.
      destruct r as [|d r'].
      { intros [= <- _ _]. now apply pieces_ok_insert; [apply Hok |]. }
      destruct (Ascii.eqb d ".").
      * destruct (len =? 0)%nat; [discriminate |].
        destruct (6 <? pieceIndex)%nat eqn:E6; [discriminate |].
        apply Nat.ltb_ge in E6.
        destruct (ipv4_in_ipv6 _ _ _ _ _) as [[address' index']|] eqn:E4; [| discriminate].
        intros [= <- _ _].
        eapply ipv4_in_ipv6_ok; [| | exact E4]; [| simpl; lia].
        destruct Hok as [Hp Hz]. split; [exact Hp |]. split.
        -- intros j Hj. apply Hz. lia.
        -- simpl. rewrite Hz by lia. lia.
      * destruct (Ascii.eqb d ":"); [| discriminate].
        destruct r' as [|e r'']; [discriminate |].
        apply IH. now apply loop_ok_insert.
Qed.

Lemma ipv6_swap_ok (swaps : nat) :
  forall pieceIndex compress address,
    pieces_ok address -> pieces_ok (ipv6_swap swaps pieceIndex compress address).
Proof.
  induction swaps as [|swaps IH]; intros pieceIndex compress address Hok; [exact Hok |].
  destruct pieceIndex as [|pieceIndex]; [exact Hok |].
  cbn [ipv6_swap]. apply IH.
  apply pieces_ok_insert; [apply pieces_ok_insert |]; auto using pieces_ok_nth.
Qed.

Lemma repeat_zero_ok : loop_ok (repeat 0%N 8) 0 /\ loop_ok (repeat 0%N 8) 1.
Proof.
  assert (Hz : forall j, nth j (repeat 0%N 8) 0%N = 0%N).
  { intros j. do 9 (destruct j as [|j]; [reflexivity |]). reflexivity. }
  split; (split; [split; [reflexivity | repeat constructor] | intros j _; apply Hz]).
Qed.

Lemma ipv6_finish_ok looped pieces :
  (forall address index compress, looped = Some (address, index, compress) ->
                                  pieces_ok address) ->
  ipv6_finish looped = Some pieces -> pieces_ok pieces.
Proof.
  intros Hlooped. unfold ipv6_finish.
  destruct looped as [[[address index] [k|]]|]; [| | discriminate].
  - intros [= <-]. apply ipv6_swap_ok. eapply Hlooped. reflexivity.
  - destruct (index =? 8)%nat; [| discriminate]. intros [= <-]. eapply Hlooped. reflexivity.
Qed.

(** The parser returns eight pieces below 65536. *)
Lemma ipv6_parse_ok (input : string) (pieces : list N) :
  ipv6_parse input = Some pieces -> pieces_ok pieces.
Proof.
  unfold ipv6_parse. destruct repeat_zero_ok as [H0 H1].
  destruct input as [|c r0].
  - apply ipv6_finish_ok. intros address index compress E.
    eapply ipv6_loop_ok; [exact H0 | exact E].
  - destruct (Ascii.eqb c ":").
    + destruct r0 as [|c2 r]; [discriminate |].
      destruct (Ascii.eqb c2 ":"); [| discriminate].
      apply ipv6_finish_ok. intros address index compress E.
      eapply ipv6_loop_ok; [exact H1 | exact E].
    + apply ipv6_finish_ok. intros address index compress E.
      eapply ipv6_loop_ok; [exact H0 | exact E].
Qed.

End OriginFacts.

(* ================================================================== *)
(** * Hosts and ports are fixed points of their parsers *)
(* ================================================================== *)

Module HostFacts.

Import Js UrlSpec Url OriginFacts.

Lemma length_append (a b : string) :
  String.length (a ++ b) = (String.length a + String.length b)%nat.
Proof. induction a as [|c a IH]; simpl; [reflexivity | now rewrite IH]. Qed.

Lemma get_append_end (a : string) (c : ascii) :
  String.get (String.length a) (a ++ String c "") = Some c.
Proof. induction a as [|x a IH]; simpl; [reflexivity | exact IH]. Qed.

Lemma substring_prefix (a b : string) :
  String.substring 0 (String.length a) (a ++ b) = a.
Proof.
  induction a as [|x a IH]; simpl; [now destruct b | now rewrite IH].
Qed.

(** A bracketed literal: its last character and what the brackets hold. *)
Lemma bracketed_parts (body : string) :
  starts_with "[" ("[" ++ body ++ "]") = true /\
  ends_with "]" ("[" ++ body ++ "]") = true /\
  inner ("[" ++ body ++ "]") = body.
Proof.
  split; [reflexivity |]. split.
  - unfold ends_with, last_char.
    change ("[" ++ body ++ "]") with (String "[" (body ++ String "]" "")).
    cbn [String.length]. rewrite Nat.sub_succ, Nat.sub_0_r.
    rewrite length_append. simpl String.length. rewrite Nat.add_1_r.
    cbn [String.get]. now rewrite get_append_end.
  - unfold inner.
    change ("[" ++ body ++ "]") with (String "[" (body ++ String "]" "")).
    cbn [String.length]. rewrite length_append. simpl String.length.
    replace (S (String.length body + 1) - 2)%nat with (String.length body) by lia.
    cbn [String.substring]. apply substring_prefix.
Qed.

(** ** Domains *)

Lemma percent_decode_keep (s : string) :
  has_char "%" s = false -> percent_decode s = s.
Proof.
  induction s as [|c s IH]; [reflexivity |].
  rewrite JsFacts.has_char_cons. intros [Hc Hs]%orb_false_iff.
  cbn [percent_decode]. rewrite Hc, (IH Hs). reflexivity.
Qed.

Lemma map_string_keep (f : ascii -> ascii) (s : string) (p : ascii -> bool) :
  (forall c, p c = true -> f c = c) -> all_chars p s = true -> map_string f s = s.
Proof.
  intros Hf. induction s as [|c s IH]; [reflexivity |]. simpl.
  intros [Hc Hs]%andb_true_iff. now rewrite (Hf c Hc), (IH Hs).
Qed.

Lemma all_chars_map (f : ascii -> ascii) (p q : ascii -> bool) (s : string) :
  (forall c, p c = true -> q (f c) = true) ->
  all_chars p s = true -> all_chars q (map_string f s) = true.
Proof.
  intros Hf. induction s as [|c s IH]; [reflexivity |]. simpl.
  intros [Hc Hs]%andb_true_iff. now rewrite (Hf c Hc), (IH Hs).
Qed.

(** ** IPv4 *)

Lemma ipv4_numbers_length (parts : list string) (numbers : list N) :
  ipv4_numbers parts = Some numbers -> List.length numbers = List.length parts.
Proof.
  revert numbers. induction parts as [|p parts IH]; intros numbers; simpl.
  - now intros [= <-].
  - destruct (ipv4_number p); [| discriminate].
    destruct (ipv4_numbers parts) as [ns|]; [| discriminate].
    intros [= <-]. simpl. now rewrite (IH ns).
Qed.

(** The IPv4 parser returns an address of 32 bits. *)
Lemma ipv4_parse_bound (input : string) (address : N) :
  ipv4_parse input = Some address -> (address < 4294967296)%N.
Proof.
  unfold ipv4_parse. set (parts := drop_last_empty (split "." input)).
  destruct (4 <? List.length parts)%nat eqn:Hlen; [discriminate |].
  apply Nat.ltb_ge in Hlen.
  destruct (ipv4_numbers parts) as [numbers|] eqn:Hnumbers; [| discriminate].
  apply ipv4_numbers_length in Hnumbers. rewrite <- Hnumbers in Hlen.
  destruct (existsb _ _) eqn:Hleading; [discriminate |].
  destruct (_ <=? _)%N eqn:Hfinal; [discriminate |].
  intros [= <-]. apply N.leb_gt in Hfinal.
  destruct numbers as [|n0 [|n1 [|n2 [|n3 [|n4 rest]]]]]; simpl in Hlen; try lia;
    cbn [removelast List.last existsb ipv4_sum List.length] in *;
    repeat match goal with
           | H : (_ || _) = false |- _ => apply orb_false_iff in H as [? ?]
           | H : (_ <? _)%N = false |- _ => apply N.ltb_ge in H
           end;
    change (256 ^ (5 - N.of_nat 0))%N with 1099511627776%N in *;
    change (256 ^ (5 - N.of_nat 1))%N with 4294967296%N in *;
    change (256 ^ (5 - N.of_nat 2))%N with 16777216%N in *;
    change (256 ^ (5 - N.of_nat 3))%N with 65536%N in *;
    change (256 ^ (5 - N.of_nat 4))%N with 256%N in *;
    change (256 ^ (3 - N.of_nat 0))%N with 16777216%N in *;
    change (256 ^ (3 - N.of_nat 1))%N with 65536%N in *;
    change (256 ^ (3 - N.of_nat 2))%N with 256%N in *;
    lia.
Qed.

Lemma byte_facts (b : N) :
  (b < 256)%N ->
  all_chars is_digit (dec b) = true /\ dec b <> "" /\ ipv4_number (dec b) = Some b.
Proof.
  intros Hb. pose proof (byte_checked b Hb) as Hc. unfold byte_check in Hc.
  apply andb_true_iff in Hc as [[Hdigits Hne]%andb_true_iff Hnum].
  split; [exact Hdigits |]. split.
  - apply negb_true_iff in Hne. now apply String.eqb_neq.
  - destruct (ipv4_number (dec b)) as [v|]; [| discriminate].
    apply N.eqb_eq in Hnum. now subst.
Qed.

Lemma digits_no_dot (s : string) : all_chars is_digit s = true -> has_char "." s = false.
Proof.
  intros Hs. unfold has_char. apply negb_false_iff.
  eapply JsFacts.all_chars_impl; [| exact Hs]. intros c. by_cases_on c.
Qed.

Lemma ipv4_recompose (address : N) :
  (address < 4294967296)%N ->
  (address mod 256 +
   (address / 16777216 mod 256 * 16777216 +
    (address / 65536 mod 256 * 65536 + (address / 256 mod 256 * 256 + 0))))%N = address.
Proof.
  intros Ha.
  pose proof (N.div_mod address 256 ltac:(lia)) as H0.
  pose proof (N.div_mod (address / 256) 256 ltac:(lia)) as H1.
  pose proof (N.div_mod (address / 256 / 256) 256 ltac:(lia)) as H2.
  pose proof (N.Div0.div_div address 256 256) as H3.
  pose proof (N.Div0.div_div address 65536 256) as H4.
  pose proof (N.mod_small (address / 16777216) 256) as H5.
  assert (address / 16777216 < 256)%N by (apply N.Div0.div_lt_upper_bound; lia).
  change (256 * 256)%N with 65536%N in *. change (65536 * 256)%N with 16777216%N in *.
  rewrite H3, H4 in *. lia.
Qed.

(** The serialised form of an address of 32 bits: its characters, and
    what the parsers make of it. *)
Lemma ipv4_serialize_facts (address : N) :
  (address < 4294967296)%N ->
  let s := ipv4_serialize address in
  s <> "" /\ all_chars is_dotted_char s = true /\
  ends_in_number s = true /\ ipv4_parse s = Some address /\
  existsb (String.prefix "xn--") (split "." s) = false.
Proof.
  intros Ha s. subst s. unfold ipv4_serialize.
  pose proof (ipv4_recompose address Ha) as Hsum.
  set (b3 := (address / 16777216 mod 256)%N) in *.
  set (b2 := (address / 65536 mod 256)%N) in *.
  set (b1 := (address / 256 mod 256)%N) in *.
  set (b0 := (address mod 256)%N) in *.
  destruct (byte_facts b3 ltac:(subst b3; apply N.mod_lt; lia)) as (D3 & N3 & P3).
  destruct (byte_facts b2 ltac:(subst b2; apply N.mod_lt; lia)) as (D2 & N2 & P2).
  destruct (byte_facts b1 ltac:(subst b1; apply N.mod_lt; lia)) as (D1 & N1 & P1).
  destruct (byte_facts b0 ltac:(subst b0; apply N.mod_lt; lia)) as (D0 & N0 & P0).
  assert (Hb3 : (b3 < 256)%N) by (subst b3; apply N.mod_lt; lia).
  assert (Hb2 : (b2 < 256)%N) by (subst b2; apply N.mod_lt; lia).
  assert (Hb1 : (b1 < 256)%N) by (subst b1; apply N.mod_lt; lia).
  assert (Hb0 : (b0 < 256)%N) by (subst b0; apply N.mod_lt; lia).
  clearbody b3 b2 b1 b0.
  change (dec b3 ++ "." ++ dec b2 ++ "." ++ dec b1 ++ "." ++ dec b0)
    with (dec b3 ++ String "." (dec b2 ++ String "." (dec b1 ++ String "." (dec b0)))).
  assert (Hsplit : split "." (dec b3 ++ String "." (dec b2 ++ String "."
                                 (dec b1 ++ String "." (dec b0))))
                   = [dec b3; dec b2; dec b1; dec b0]).
  { rewrite !JsFacts.split_first by now apply digits_no_dot.
    now rewrite JsFacts.split_absent by now apply digits_no_dot. }
  assert (Hdot : forall x, all_chars is_digit x = true -> all_chars is_dotted_char x = true).
  { intros x. apply JsFacts.all_chars_impl. intros c Hc. unfold is_dotted_char.
    now rewrite Hc. }
  assert (He0 : String.eqb (dec b0) "" = false) by now apply String.eqb_neq.
  assert (Hlabel : forall x, all_chars is_digit x = true -> String.prefix "xn--" x = false).
  { intros [|c x]; [reflexivity |]. cbn [all_chars]. intros [Hc _]%andb_true_iff.
    cbn [String.prefix]. destruct (Ascii.ascii_dec "x" c) as [<-|]; [discriminate | reflexivity]. }
  split; [| split; [| split; [| split]]].
  5:{ rewrite Hsplit. cbn [existsb]. now rewrite !Hlabel by assumption. }
  - destruct (dec b3); [congruence | discriminate].
  - do 3 (rewrite JsFacts.all_chars_append; cbn [all_chars]).
    rewrite !Hdot by assumption. reflexivity.
  - unfold ends_in_number, drop_last_empty. rewrite Hsplit.
    cbn [List.last List.length]. rewrite He0. cbn [andb negb List.last].
    now rewrite He0, D0.
  - unfold ipv4_parse, drop_last_empty. rewrite Hsplit.
    cbn [List.last List.length]. rewrite He0. cbn [andb List.length].
    change (4 <? 4)%nat with false. cbv iota.
    cbn [ipv4_numbers]. rewrite P3, P2, P1, P0.
    cbn [removelast List.last existsb ipv4_sum List.length].
    replace (255 <? b3)%N with false by (symmetry; apply N.ltb_ge; lia).
    replace (255 <? b2)%N with false by (symmetry; apply N.ltb_ge; lia).
    replace (255 <? b1)%N with false by (symmetry; apply N.ltb_ge; lia).
    cbn [orb].
    change (256 ^ (5 - N.of_nat 4))%N with 256%N.
    replace (256 <=? b0)%N with false by (symmetry; apply N.leb_gt; lia).
    change (256 ^ (3 - N.of_nat 0))%N with 16777216%N.
    change (256 ^ (3 - N.of_nat 1))%N with 65536%N.
    change (256 ^ (3 - N.of_nat 2))%N with 256%N.
    now rewrite Hsum.
Qed.

(** ** Ports *)

Lemma parse_port_ok (scheme buffer : string) (p : N) :
  parse_port scheme buffer = Some (Some p) ->
  (p < 65536)%N /\ default_port scheme <> Some p.
Proof.
  unfold parse_port.
  destruct (all_chars is_digit buffer); [| discriminate]. cbn [negb].
  destruct (String.eqb buffer ""); [discriminate |].
  destruct (N.ltb_spec 65535 (radix_value 10 0 buffer)); [discriminate |].
  destruct (bool_decide (default_port scheme = Some (radix_value 10 0 buffer))) eqn:E;
    [discriminate |].
  intros [= <-]. split; [lia |]. now apply bool_decide_eq_false in E.
Qed.

Lemma port_reparse (scheme : string) (p : N) :
  (p < 65536)%N -> default_port scheme <> Some p ->
  all_chars is_digit (dec p) = true /\ parse_port scheme (dec p) = Some (Some p).
Proof.
  intros Hp Hdefault. pose proof (port_checked p Hp) as Hc. unfold port_check in Hc.
  apply andb_true_iff in Hc as [[Hdigits Hne]%andb_true_iff Hvalue].
  apply negb_true_iff in Hne. apply N.eqb_eq in Hvalue.
  split; [exact Hdigits |].
  unfold parse_port. rewrite Hdigits, Hne, Hvalue. cbn [negb].
  replace (65535 <? p)%N with false by (symmetry; apply N.ltb_ge; lia).
  now rewrite bool_decide_eq_false_2.
Qed.

(** ** Domains *)

Lemma map_string_lower_twice (s : string) :
  map_string ascii_lower_char (map_string ascii_lower_char s) = map_string ascii_lower_char s.
Proof.
  induction s as [|c s IH]; [reflexivity |]. simpl. rewrite IH. f_equal.
  by_cases_on c.
Qed.

Lemma allowed_no_percent (s : string) :
  all_chars (fun c => negb (is_forbidden_domain c)) s = true -> percent_decode s = s.
Proof.
  intros Hs. apply percent_decode_keep. unfold has_char. apply negb_false_iff.
  eapply JsFacts.all_chars_impl; [| exact Hs]. intros c. by_cases_on c.
Qed.

(** The parser without IDNA is the parser with IDNA where the step
    fails on what is not ASCII. *)
Lemma domain_parse_without_idna (input : string) :
  domain_parse_with without_idna input = domain_parse input.
Proof.
  unfold domain_parse_with, domain_to_ascii_with, without_idna, domain_parse.
  destruct (all_chars is_ascii_char (percent_decode input)); cbn [andb negb];
    [| reflexivity].
  now destruct (negb (existsb _ _)).
Qed.

Lemma host_parse_without_idna (input : string) (isOpaque : bool) :
  host_parse_with without_idna input isOpaque = host_parse input isOpaque.
Proof. unfold host_parse_with, host_parse. now rewrite domain_parse_without_idna. Qed.

Lemma parse_authority_without_idna (scheme : string) (special : bool) (input : string) :
  parse_authority_with without_idna scheme special input =
  parse_authority scheme special input.
Proof.
  unfold parse_authority_with, parse_authority.
  destruct (match after_last_at _ with Some r => (true, r) | None => (false, _) end)
    as [atSignSeen hostport].
  destruct (split_host_port false hostport) as [buffer portText].
  now rewrite host_parse_without_idna.
Qed.

Lemma parse_without_idna (input : string) : parse_with without_idna input = parse input.
Proof.
  unfold parse_with, parse.
  destruct (parse_scheme (preprocess input)) as [[scheme rest]|]; [| reflexivity].
  destruct (String.eqb scheme "file").
  - f_equal. unfold parse_file_host_with, parse_file_host.
    destruct rest as [|a [|b r]]; try reflexivity.
    now rewrite host_parse_without_idna.
  - now rewrite !parse_authority_without_idna.
Qed.

Lemma origin_without_idna (u : URL) : origin_with without_idna u = origin u.
Proof.
  unfold origin_with, origin.
  destruct (opaque_path u) as [path|]; [| reflexivity].
  now rewrite parse_without_idna.
Qed.

Lemma normalizeOrigin_without_idna (O : string) :
  normalizeOrigin_with without_idna O = normalizeOrigin O.
Proof.
  unfold normalizeOrigin_with, normalizeOrigin, URL_new_with, URL_new.
  rewrite parse_without_idna. destruct (parse O); [apply origin_without_idna | reflexivity].
Qed.

(** A lowercased ASCII domain without a forbidden code point is left
    as it is, whatever the step is on the other domains. *)
Lemma without_idna_stable : idna_stable without_idna.
Proof.
  intros input a Ha Hallowed. unfold without_idna in Ha.
  destruct (all_chars is_ascii_char (percent_decode input)) eqn:Hascii; [| discriminate].
  injection Ha as <-.
  set (a := map_string ascii_lower_char (percent_decode input)) in *.
  unfold domain_to_ascii_with, without_idna. rewrite (allowed_no_percent a Hallowed).
  assert (Hlow : all_chars is_ascii_char a = true).
  { subst a. eapply all_chars_map; [| exact Hascii]. intros c. by_cases_on c. }
  rewrite Hlow. subst a. rewrite map_string_lower_twice. now destruct (_ && _).
Qed.

Lemma sample_idna_stable : idna_stable sample_idna.
Proof.
  intros input a Ha _. unfold sample_idna in Ha.
  destruct (_ || _); [| discriminate]. injection Ha as <-. reflexivity.
Qed.

Section WithIdna.

Variable idna : string -> option string.

Hypothesis idna_fixed : idna_stable idna.

(** Domain to ASCII leaves its results as they are. *)
Lemma domain_to_ascii_fixed (input a : string) :
  domain_to_ascii_with idna input = Some a ->
  all_chars (fun c => negb (is_forbidden_domain c)) a = true ->
  domain_to_ascii_with idna a = Some a.
Proof.
  intros Ha Hallowed. unfold domain_to_ascii_with in Ha.
  destruct (all_chars is_ascii_char (percent_decode input) && _) eqn:Hfast.
  - injection Ha as Ha. apply andb_true_iff in Hfast as [Hascii Hlabels].
    unfold domain_to_ascii_with. rewrite (allowed_no_percent a Hallowed).
    assert (Hlow : map_string ascii_lower_char a = a).
    { subst a. apply map_string_lower_twice. }
    rewrite Hlow.
    assert (Hasc : all_chars is_ascii_char a = true).
    { subst a. eapply all_chars_map; [| exact Hascii]. intros c. by_cases_on c. }
    rewrite Hasc. subst a. now rewrite Hlabels.
  - now apply (idna_fixed input).
Qed.

(** ** Hosts *)

Lemma domain_parse_ok (input : string) (h : Host) :
  domain_parse_with idna input = Some h -> host_ok_with idna h.
Proof.
  unfold domain_parse_with.
  destruct (domain_to_ascii_with idna input) as [a|] eqn:Ha; [| discriminate].
  destruct (String.eqb_spec a "") as [|Hne]; [discriminate |].
  destruct (all_chars (fun c => negb (is_forbidden_domain c)) a) eqn:Hallowed;
    [| discriminate].
  cbn [negb]. destruct (ends_in_number a) eqn:Hnumber.
  - destruct (ipv4_parse a) as [address|] eqn:E; [| discriminate].
    intros [= <-]. now apply (ipv4_parse_bound _ _ E).
  - intros [= <-]. cbn [host_ok_with]. repeat split; try assumption.
    now apply (domain_to_ascii_fixed input).
Qed.

Lemma host_parse_ok (buffer : string) (h : Host) :
  host_parse_with idna buffer false = Some h -> host_ok_with idna h.
Proof.
  unfold host_parse_with. destruct (starts_with "[" buffer).
  - destruct (ends_with "]" buffer); [| discriminate].
    destruct (ipv6_parse (inner buffer)) as [pieces|] eqn:E; [| discriminate].
    intros [= <-]. now apply (ipv6_parse_ok _ _ E).
  - apply domain_parse_ok.
Qed.

Lemma domain_chars_reparse (d : string) :
  d <> "" -> all_chars (fun c => negb (is_forbidden_domain c)) d = true ->
  all_chars is_plain d = true /\ reads_whole d /\ starts_with "[" d = false.
Proof.
  intros Hne Hd. split; [| split].
  - eapply JsFacts.all_chars_impl; [| exact Hd]. intros c. by_cases_on c.
  - intros rest. apply split_host_port_text.
    eapply JsFacts.all_chars_impl; [| exact Hd]. intros c. by_cases_on c.
  - destruct d as [|c d]; [congruence |]. simpl in Hd.
    apply andb_true_iff in Hd as [Hc _]. simpl. revert Hc. by_cases_on c.
Qed.

(** A serialised host is parsed back to the host it came from, and is
    read whole by host state. *)
Lemma host_reparse (h : Host) :
  host_ok_with idna h ->
  let s := host_serialize h in
  s <> "" /\ all_chars is_plain s = true /\ reads_whole s /\
  host_parse_with idna s false = Some h.
Proof.
  destruct h as [d|address|pieces|o|]; cbn [host_ok_with host_serialize]; try tauto.
  - intros (Hne & Hd & Hnumber & Hfixed).
    destruct (domain_chars_reparse d Hne Hd) as (Hplain & Hwhole & Hstart).
    repeat split; try assumption.
    unfold host_parse_with, domain_parse_with. rewrite Hstart, Hfixed, Hd, Hnumber.
    now replace (String.eqb d "") with false by (symmetry; now apply String.eqb_neq).
  - intros Ha.
    destruct (ipv4_serialize_facts address Ha)
      as (Hne & Hchars & Hnumber & Hparse & Hlabels).
    assert (Hd : all_chars (fun c => negb (is_forbidden_domain c))
                           (ipv4_serialize address) = true).
    { eapply JsFacts.all_chars_impl; [| exact Hchars]. intros c. by_cases_on c. }
    destruct (domain_chars_reparse _ Hne Hd) as (Hplain & Hwhole & Hstart).
    repeat split; try assumption.
    unfold host_parse_with, domain_parse_with, domain_to_ascii_with.
    rewrite Hstart, (allowed_no_percent _ Hd).
    assert (Hlow : map_string ascii_lower_char (ipv4_serialize address) =
                   ipv4_serialize address).
    { eapply map_string_keep; [| exact Hchars]. intros c. by_cases_on c. }
    assert (Hascii : all_chars is_ascii_char (ipv4_serialize address) = true).
    { eapply JsFacts.all_chars_impl; [| exact Hchars]. intros c. by_cases_on c. }
    rewrite Hlow, Hascii, Hlabels. cbn [andb negb]. rewrite Hd, Hnumber, Hparse.
    now replace (String.eqb (ipv4_serialize address) "") with false
      by (symmetry; now apply String.eqb_neq).
  - intros [Hlen Hall].
    pose proof (DomainFacts.ipv6_serialize_loop_chars pieces 0
                  (find_compress pieces 0 (None, 1%nat, None, 0%nat)) false) as Hchars.
    fold (ipv6_serialize pieces) in Hchars.
    destruct (bracketed_parts (ipv6_serialize pieces)) as (Hstart & Hend & Hinner).
    split; [discriminate |]. split; [| split].
    + change ("[" ++ ipv6_serialize pieces ++ "]")
        with (String "[" (ipv6_serialize pieces ++ "]")).
      cbn [all_chars]. rewrite JsFacts.all_chars_append.
      apply andb_true_iff. split; [reflexivity |].
      apply andb_true_iff. split; [| reflexivity].
      eapply JsFacts.all_chars_impl; [| exact Hchars]. intros c. by_cases_on c.
    + intros rest.
      replace (("[" ++ ipv6_serialize pieces ++ "]") ++ rest)
        with ("[" ++ ipv6_serialize pieces ++ "]" ++ rest)
        by (cbn [String.append]; now rewrite JsFacts.append_assoc).
      rewrite split_host_port_bracketed.
      * f_equal. cbn [String.append]. now rewrite JsFacts.append_assoc.
      * eapply JsFacts.all_chars_impl; [| exact Hchars]. intros c. by_cases_on c.
    + unfold host_parse_with. rewrite Hstart, Hend, Hinner.
      now rewrite ipv6_roundtrip.
Qed.

(** ** The tuple origin of a parsed URL parses to the same URL *)

Lemma parse_authority_ok (scheme input : string) (h : Host) (p : option N) :
  parse_authority_with idna scheme true input = Some (h, p) ->
  host_ok_with idna h /\ port_ok scheme p.
Proof.
  unfold parse_authority_with.
  destruct (match after_last_at _ with Some r => (true, r) | None => (false, _) end)
    as [atSignSeen hostport].
  destruct (atSignSeen && String.eqb hostport ""); [discriminate |].
  destruct (split_host_port false hostport) as [buffer [portText|]].
  - destruct (String.eqb buffer ""); [discriminate |].
    destruct (host_parse_with idna buffer (negb true)) as [h'|] eqn:Eh; [| discriminate].
    destruct (parse_port scheme portText) as [[q|]|] eqn:Ep; try discriminate;
      intros [= <- <-]; (split; [now apply (host_parse_ok buffer) |]).
    + now apply (parse_port_ok scheme portText).
    + exact I.
  - destruct (true && String.eqb buffer ""); [discriminate |].
    destruct (host_parse_with idna buffer (negb true)) as [h'|] eqn:Eh; [| discriminate].
    intros [= <- <-]. split; [now apply (host_parse_ok buffer) | exact I].
Qed.

(** A parsed URL whose scheme has a tuple origin. *)
Lemma parse_tuple_shape (s : string) (v : URL) :
  parse_with idna s = Some v -> has_tuple_origin (scheme v) = true ->
  exists h, v = mkURL (scheme v) (Some h) (port v) None /\
            host_ok_with idna h /\ port_ok (scheme v) (port v).
Proof.
  unfold parse_with.
  destruct (parse_scheme (preprocess s)) as [[sch rest]|]; [| discriminate].
  destruct (String.eqb_spec sch "file") as [->|Hfile].
  { destruct (parse_file_host_with idna rest); [| discriminate]. intros [= <-]. discriminate. }
  destruct (is_special sch) eqn:Hspecial.
  - destruct (parse_authority_with idna sch true _) as [[h p]|] eqn:Ea; [| discriminate].
    intros [= <-] _. cbn [scheme port fst snd]. exists h.
    split; [reflexivity |]. now apply (parse_authority_ok _ _ _ _ Ea).
  - intros Hv Ht. exfalso.
    assert (Hs : scheme v = sch).
    { revert Hv. clear.
      destruct rest as [|[[] [] [] [] [] [] [] []] rest]; try (now intros [= <-]).
      destruct rest as [|[[] [] [] [] [] [] [] []] rest]; try (now intros [= <-]).
      destruct (parse_authority_with idna sch false rest); [| discriminate].
      now intros [= <-]. }
    rewrite Hs in Ht. destruct (tuple_scheme_plain _ Ht) as (_ & _ & Hsp & _). congruence.
Qed.

(** The parser on a scheme with a tuple origin, [://], a host and a
    port, when host state splits the two as written. *)
Lemma parse_special (scheme hser portser : string) (portText : option string)
    (h : Host) (p : option N) :
  has_tuple_origin scheme = true ->
  hser <> "" ->
  all_chars is_plain (hser ++ portser) = true ->
  split_host_port false (hser ++ portser) = (hser, portText) ->
  host_parse_with idna hser false = Some h ->
  match portText with
  | Some digits => parse_port scheme digits = Some p
  | None => p = None
  end ->
  parse_with idna (scheme ++ "://" ++ hser ++ portser) = Some (mkURL scheme (Some h) p None).
Proof.
  intros Hscheme Hne Hplain Hsplit Hhost Hport.
  destruct (tuple_scheme_plain _ Hscheme) as (Hs1 & Hfile & Hspecial & _).
  set (X := hser ++ portser) in *.
  assert (Hpre : preprocess (scheme ++ "://" ++ X) = scheme ++ String ":" ("//" ++ X)).
  { rewrite preprocess_keep; [reflexivity |].
    rewrite <- JsFacts.append_assoc, JsFacts.all_chars_append, Hs1.
    now apply plain_no_space. }
  unfold parse_with. rewrite Hpre, (parse_scheme_tuple _ _ Hscheme), Hfile, Hspecial.
  assert (Hslash : drop_while is_slash ("//" ++ X) = X).
  { change ("//" ++ X) with (String "/" (String "/" X)). cbn [drop_while].
    change (is_slash "/") with true. cbv iota.
    apply drop_while_keep. eapply JsFacts.all_chars_impl; [| exact Hplain].
    intros c. by_cases_on c. }
  rewrite Hslash. unfold parse_authority_with.
  rewrite take_while_keep by now apply plain_no_end.
  rewrite after_last_at_absent by now apply plain_no_at.
  cbv beta iota zeta. cbn [andb negb]. rewrite Hsplit. cbv beta iota.
  assert (Hnonempty : String.eqb hser "" = false) by now apply String.eqb_neq.
  rewrite Hnonempty, Hhost.
  destruct portText as [digits|].
  - rewrite Hport. reflexivity.
  - subst p. reflexivity.
Qed.

Lemma tuple_origin_fixed (s : string) (v : URL) :
  parse_with idna s = Some v -> has_tuple_origin (scheme v) = true ->
  parse_with idna (tuple_origin v) = Some v.
Proof.
  intros Hparse Htuple.
  destruct (parse_tuple_shape s v Hparse Htuple) as (h & Hv & Hh & Hp).
  destruct (host_reparse h Hh) as (Hne & Hplain & Hwhole & Hhost).
  rewrite Hv at 2. unfold tuple_origin, hostname. rewrite Hv. cbn [scheme host port].
  set (sch := scheme v) in *. set (p := port v) in *. clearbody sch p. clear Hv.
  destruct p as [q|].
  - destruct Hp as [Hq Hdefault].
    destruct (port_reparse sch q Hq Hdefault) as (Hdigits & Hport).
    apply (parse_special sch (host_serialize h) (":" ++ dec q) (Some (dec q)));
      try assumption.
    + rewrite JsFacts.all_chars_append, Hplain. cbn [String.append all_chars].
      apply andb_true_iff. split; [reflexivity |].
      eapply JsFacts.all_chars_impl; [| exact Hdigits]. intros c. by_cases_on c.
    + rewrite Hwhole. cbn [String.append split_host_port].
      change (Ascii.eqb ":" ":" && negb false) with true. cbv iota. cbn [fst snd].
      now rewrite JsFacts.append_empty_r.
  - apply (parse_special sch (host_serialize h) "" None); try assumption.
    + now rewrite JsFacts.append_empty_r.
    + rewrite Hwhole. cbn [split_host_port fst snd].
      now rewrite !JsFacts.append_empty_r.
    + reflexivity.
Qed.

(** The origin of a parsed URL does not parse, or parses to a URL with the
    same origin. *)
Lemma origin_fixed (s : string) (u : URL) :
  parse_with idna s = Some u ->
  match parse_with idna (origin_with idna u) with
  | Some u' => origin_with idna u' = origin_with idna u
  | None => True
  end.
Proof.
  intros Hparse.
  assert (Htuple : forall x v, parse_with idna x = Some v ->
                               has_tuple_origin (scheme v) = true ->
                               scheme v <> "blob" ->
                               match parse_with idna (tuple_origin v) with
                               | Some u' => origin_with idna u' = tuple_origin v
                               | None => True
                               end).
  { intros x v Hx Hv Hblob. rewrite (tuple_origin_fixed x v Hx Hv).
    unfold origin_with. rewrite Hv.
    now replace (String.eqb (scheme v) "blob") with false
      by (symmetry; now apply String.eqb_neq). }
  unfold origin_with at 1 3.
  destruct (String.eqb (scheme u) "blob") eqn:Hblob.
  - destruct (opaque_path u) as [path|]; [| reflexivity].
    destruct (parse_with idna path) as [pathURL|] eqn:Hpath; [| reflexivity].
    destruct (mem (scheme pathURL) ["http"; "https"]) eqn:Hhttp; [| reflexivity].
    assert (Hcases : scheme pathURL = "http" \/ scheme pathURL = "https").
    { unfold mem in Hhttp. simpl in Hhttp.
      repeat (apply orb_true_iff in Hhttp as [Hhttp|Hhttp];
              [apply String.eqb_eq in Hhttp; tauto |]).
      discriminate. }
    apply (Htuple path pathURL Hpath); destruct Hcases as [-> | ->];
      first [reflexivity | discriminate].
  - destruct (has_tuple_origin (scheme u)) eqn:Htup; [| reflexivity].
    apply (Htuple s u Hparse Htup).
    intros E. rewrite E in Hblob. discriminate.
Qed.

(** [normalizeOrigin] on a platform whose domain to ASCII is stable. *)
Lemma normalizeOrigin_with_fixed (O : string) :
  normalizeOrigin_with idna (normalizeOrigin_with idna O) = normalizeOrigin_with idna O.
Proof.
  unfold normalizeOrigin_with at 2 3. unfold URL_new_with.
  destruct (parse_with idna O) as [u|] eqn:Hparse.
  - pose proof (origin_fixed O u Hparse) as Hfixed.
    unfold normalizeOrigin_with, URL_new_with.
    destruct (parse_with idna (origin_with idna u)); [exact Hfixed | reflexivity].
  - unfold normalizeOrigin_with, URL_new_with. now rewrite Hparse.
Qed.

End WithIdna.

End HostFacts.

(** C9: [normalizeOrigin] is idempotent; it returns its input when the
    input does not parse, the origin of the URL otherwise, which for the
    schemes [ftp], [http], [https], [ws] and [wss] is the scheme, [://],
    the host and, when the port is not the default one, [:] and the port.
    This holds with the domain to ASCII of the platform, whatever it
    makes of the hosts that are not ASCII or that hold an [xn--] label,
    as long as it leaves its own results as they are; and it holds of
    [normalizeOrigin] as defined without IDNA, which is the instance
    where that step fails on what is not ASCII. *)
Theorem normalizeOrigin_idempotent :
  forall (idna : string -> option string) (O : string),
    UrlSpec.idna_stable idna ->
    (normalizeOrigin_with idna (normalizeOrigin_with idna O) = normalizeOrigin_with idna O /\
     (URL_new_with idna O = None -> normalizeOrigin_with idna O = O) /\
     (forall u, URL_new_with idna O = Some u ->
                normalizeOrigin_with idna O = Url.origin_with idna u /\
                (Url.has_tuple_origin (Url.scheme u) = true ->
                 Url.origin_with idna u =
                 Url.scheme u ++ "://" ++ Url.hostname u ++
                 match Url.port u with
                 | Some p => ":" ++ Url.dec p
                 | None => ""
                 end))) /\
    (normalizeOrigin (normalizeOrigin O) = normalizeOrigin O /\
     (URL_new O = None -> normalizeOrigin O = O) /\
     (forall u, URL_new O = Some u ->
                normalizeOrigin O = Url.origin u /\
                (Url.has_tuple_origin (Url.scheme u) = true ->
                 Url.origin u =
                 Url.scheme u ++ "://" ++ Url.hostname u ++
                 match Url.port u with
                 | Some p => ":" ++ Url.dec p
                 | None => ""
                 end))) /\
    (UrlSpec.idna_stable Url.without_idna /\
     URL_new_with Url.without_idna O = URL_new O /\
     normalizeOrigin_with Url.without_idna O = normalizeOrigin O).
Proof.
  assert (Hwith : forall idna O,
             UrlSpec.idna_stable idna ->
             normalizeOrigin_with idna (normalizeOrigin_with idna O)
             = normalizeOrigin_with idna O /\
             (URL_new_with idna O = None -> normalizeOrigin_with idna O = O) /\
             (forall u, URL_new_with idna O = Some u ->
                        normalizeOrigin_with idna O = Url.origin_with idna u /\
                        (Url.has_tuple_origin (Url.scheme u) = true ->
                         Url.origin_with idna u =
                         Url.scheme u ++ "://" ++ Url.hostname u ++
                         match Url.port u with
                         | Some p => ":" ++ Url.dec p
                         | None => ""
                         end))).
  { intros idna O Hstable.
    split; [now apply HostFacts.normalizeOrigin_with_fixed |].
    unfold normalizeOrigin_with. destruct (URL_new_with idna O) as [u|].
    - split; [discriminate |]. intros u' [= <-]. split; [reflexivity |].
      intros Htuple. unfold Url.origin_with. rewrite Htuple.
      destruct (OriginFacts.tuple_scheme_plain _ Htuple) as (_ & _ & _ & Hblob).
      now replace (String.eqb (Url.scheme u) "blob") with false
        by (symmetry; now apply String.eqb_neq).
    - split; [reflexivity | discriminate]. }
  intros idna O Hstable. split; [now apply Hwith |]. split.
  - destruct (Hwith Url.without_idna O HostFacts.without_idna_stable) as (Hfixed & Hnone & Hsome).
    rewrite !HostFacts.normalizeOrigin_without_idna in Hfixed.
    rewrite HostFacts.normalizeOrigin_without_idna in Hnone, Hsome.
    unfold URL_new_with in Hnone, Hsome. rewrite HostFacts.parse_without_idna in Hnone, Hsome.
    split; [exact Hfixed |]. split; [exact Hnone |].
    intros u Hu. specialize (Hsome u Hu).
    now rewrite HostFacts.origin_without_idna in Hsome.
  - split; [exact HostFacts.without_idna_stable |]. split.
    + apply HostFacts.parse_without_idna.
    + apply HostFacts.normalizeOrigin_without_idna.
Qed.

Lemma normalizeOrigin_idempotent_witness :
  normalizeOrigin_with UrlSpec.sample_idna ("HTTP://m" ++ String "252" "nchen.de:80/stadt?x#y")
  = "http://xn--mnchen-3ya.de" /\
  normalizeOrigin_with UrlSpec.sample_idna "http://xn--mnchen-3ya.de"
  = "http://xn--mnchen-3ya.de" /\
  normalizeOrigin (normalizeOrigin "HTTPS://User@Example.COM:8443/a/b?c#d")
  = normalizeOrigin "HTTPS://User@Example.COM:8443/a/b?c#d".
Proof.
  pose proof (normalizeOrigin_idempotent
                UrlSpec.sample_idna ("HTTP://m" ++ String "252" "nchen.de:80/stadt?x#y")
                HostFacts.sample_idna_stable) as [[Hfixed _] _].
  pose proof (normalizeOrigin_idempotent
                UrlSpec.sample_idna "HTTPS://User@Example.COM:8443/a/b?c#d"
                HostFacts.sample_idna_stable) as [_ [[Hplain _] _]].
  split; [reflexivity |]. split; [exact Hfixed | exact Hplain].
Defined.

(* ================================================================== *)
(** * The emails of a page *)
(* ================================================================== *)

Module CollectFacts.

Lemma mem_elem_of (x : string) (l : list string) : Js.mem x l = true <-> x ∈ l.
Proof.
  unfold Js.mem. rewrite existsb_exists. split.
  - intros (y & Hy & Heq). apply String.eqb_eq in Heq. subst y.
    now apply list_elem_of_In.
  - intros Hx. exists x. split; [now apply list_elem_of_In | apply String.eqb_refl].
Qed.

Lemma mem_not_elem_of (x : string) (l : list string) : Js.mem x l = false <-> x ∉ l.
Proof.
  rewrite <- mem_elem_of. destruct (Js.mem x l); split; congruence.
Qed.

Lemma extends_refl (P : string -> Prop) (l : list string) : extends P l l.
Proof.
  exists []. rewrite app_nil_r. repeat split; try constructor.
  intros x Hx. now apply elem_of_nil in Hx.
Qed.

Lemma extends_trans (P : string -> Prop) (a b c : list string) :
  extends P a b -> extends P b c -> extends P a c.
Proof.
  intros (x & -> & Px & Dx & Nx) (y & -> & Py & Dy & Ny).
  exists (x ++ y)%list. rewrite app_assoc. split; [reflexivity |].
  split; [now apply Forall_app |]. split.
  - apply NoDup_app. split; [exact Dx |]. split; [| exact Dy].
    intros e Hex Hey. apply (Ny e Hey). apply elem_of_app. now right.
  - intros e [Hex|Hey]%elem_of_app; [now apply Nx |].
    intros Hea. apply (Ny e Hey). apply elem_of_app. now left.
Qed.

Lemma set_add_extends (P : string -> Prop) (x : string) (l : list string) :
  P x -> extends P l (Js.set_add x l).
Proof.
  intros Hx. unfold Js.set_add. destruct (Js.mem x l) eqn:Hmem.
  - apply extends_refl.
  - exists [x]. split; [reflexivity |]. split; [now constructor |].
    split; [apply NoDup_singleton |].
    intros y ->%list_elem_of_singleton. now apply mem_not_elem_of.
Qed.

Lemma fold_left_extends {A} (P : string -> Prop) (f : list string -> A -> list string)
    (xs : list A) :
  (forall acc x, extends P acc (f acc x)) ->
  forall l, extends P l (fold_left f xs l).
Proof.
  intros Hf. induction xs as [|x xs IH]; intros l; simpl.
  - apply extends_refl.
  - eapply extends_trans; [apply Hf | apply IH].
Qed.

Lemma extends_NoDup (P : string -> Prop) (a b : list string) :
  extends P a b -> NoDup a -> NoDup b.
Proof.
  intros (x & -> & _ & Dx & Nx) Da. apply NoDup_app. split; [exact Da |].
  split; [| exact Dx]. intros e Hea Hex. now apply (Nx e Hex).
Qed.

Lemma extends_Forall (P : string -> Prop) (a b : list string) :
  extends P a b -> Forall P a -> Forall P b.
Proof. intros (x & -> & Px & _) Pa. now apply Forall_app. Qed.

Lemma collectMailto_extends (emails : list string) (el : Anchor) :
  extends likely emails (collectMailto emails el).
Proof.
  unfold collectMailto. destruct (negb (Js.truthy (a_href el))); [apply extends_refl |].
  destruct (negb (Js.truthy _)); [apply extends_refl |]. simpl.
  destruct (isLikelyEmail _) eqn:Hlikely; [| apply extends_refl].
  now apply set_add_extends.
Qed.

Lemma collectEmailsFromHtml_extends (X : Externals) (html : string) (emails : list string) :
  extends likely emails (collectEmailsFromHtml X html emails).
Proof.
  unfold collectEmailsFromHtml.
  cbv zeta. set (anchors := filter _ _). set (matches := email_matches X _).
  apply (extends_trans _ _ (fold_left collectMailto anchors emails)).
  - apply fold_left_extends, collectMailto_extends.
  - apply fold_left_extends. intros acc m.
    destruct (isLikelyEmail m) eqn:Hm; [now apply set_add_extends | apply extends_refl].
Qed.

End CollectFacts.

(** X1: the emails of a page join the set after the emails already in
    it, which stay in place: what [collectEmailsFromHtml] adds passes
    [isLikelyEmail], holds no string twice, and holds no string the set
    already had. *)
Theorem collectEmailsFromHtml_adds_new_likely_emails :
  forall (X : Externals) (html : string) (emails : list string),
    exists added,
      collectEmailsFromHtml X html emails = (emails ++ added)%list /\
      Forall (fun m => isLikelyEmail m = true) added /\
      NoDup added /\
      (forall m, m ∈ added -> m ∉ emails).
Proof. intros X html emails. apply CollectFacts.collectEmailsFromHtml_extends. Qed.

Module TrimFacts.

Import Js.

(** A string that does not start with a character of [p]. *)
Lemma drop_while_head (p : ascii -> bool) (s : string) :
  match drop_while p s with
  | String c _ => p c = false
  | EmptyString => True
  end.
Proof.
  induction s as [|c s IH]; simpl; [exact I |].
  destruct (p c) eqn:Hc; [exact IH | exact Hc].
Qed.

Lemma drop_while_end_head (p : ascii -> bool) (s : string) :
  match drop_while_end p s with
  | String c _ => exists t, s = String c t
  | EmptyString => True
  end.
Proof.
  destruct s as [|c s]; simpl; [exact I |].
  destruct (drop_while_end p s); [destruct (p c) |]; eauto.
Qed.

Lemma drop_while_end_idem (p : ascii -> bool) (s : string) :
  drop_while_end p (drop_while_end p s) = drop_while_end p s.
Proof.
  induction s as [|c s IH]; [reflexivity |]. simpl.
  destruct (drop_while_end p s) as [|y d] eqn:E.
  - destruct (p c) eqn:Hc; [reflexivity |]. simpl. now rewrite Hc.
  - change (drop_while_end p (String c (String y d)))
      with (match drop_while_end p (String y d) with
            | EmptyString => if p c then EmptyString else String c EmptyString
            | t => String c t
            end).
    now rewrite IH.
Qed.

Lemma trim_idem (s : string) : trim (trim s) = trim s.
Proof.
  unfold trim. set (x := drop_while is_js_space s).
  assert (Hhead : drop_while is_js_space (drop_while_end is_js_space x) =
                  drop_while_end is_js_space x).
  { pose proof (drop_while_end_head is_js_space x) as Hend.
    pose proof (drop_while_head is_js_space s) as Hstart. fold x in Hstart.
    destruct (drop_while_end is_js_space x) as [|c t]; [reflexivity |].
    destruct Hend as [t' Hx]. rewrite Hx in Hstart. simpl. now rewrite Hstart. }
  rewrite Hhead. apply drop_while_end_idem.
Qed.

Lemma isLikelyEmail_trim (s : string) : isLikelyEmail (trim s) = isLikelyEmail s.
Proof. unfold isLikelyEmail. now rewrite trim_idem. Qed.

Lemma isLikelyEmail_truthy (s : string) : isLikelyEmail s = true -> truthy (trim s) = true.
Proof.
  unfold isLikelyEmail. destruct (trim s); [discriminate | reflexivity].
Qed.

Lemma substring_all (s : string) : String.substring 0 (String.length s) s = s.
Proof. induction s as [|c s IH]; simpl; [reflexivity | now rewrite IH]. Qed.

Lemma strip_mailto_scheme (s : string) : strip_mailto ("mailto:" ++ s) = s.
Proof. unfold strip_mailto. simpl. rewrite Nat.sub_0_r. apply substring_all. Qed.

End TrimFacts.

(** X2: from a [mailto:] link the address is what stands between the
    scheme and the first question mark, trimmed; the query changes
    nothing, and the address joins the set exactly when it passes
    [isLikelyEmail]. *)
Theorem collectMailto_reads_address_before_query :
  forall (emails : list string) (address query text : string),
    Js.has_char "?" address = false ->
    collectMailto emails (mkAnchor ("mailto:" ++ address ++ "?" ++ query) text) =
    collectMailto emails (mkAnchor ("mailto:" ++ address) text) /\
    collectMailto emails (mkAnchor ("mailto:" ++ address) text) =
    if isLikelyEmail address then Js.set_add (Js.trim address) emails else emails.
Proof.
  intros emails address query text Hfree.
  assert (Hplain : collectMailto emails (mkAnchor ("mailto:" ++ address) text) =
                   if isLikelyEmail address then Js.set_add (Js.trim address) emails
                   else emails).
  { unfold collectMailto. cbn [a_href].
    rewrite TrimFacts.strip_mailto_scheme, (JsFacts.split_absent _ _ Hfree).
    cbn [Js.at_or nth]. rewrite TrimFacts.isLikelyEmail_trim.
    change (negb (Js.truthy ("mailto:" ++ address))) with false. cbv iota.
    destruct (isLikelyEmail address) eqn:Hlikely.
    - now rewrite (TrimFacts.isLikelyEmail_truthy _ Hlikely).
    - now rewrite orb_true_r. }
  split; [| exact Hplain]. rewrite Hplain.
  unfold collectMailto. cbn [a_href].
  replace ("mailto:" ++ address ++ "?" ++ query)
    with ("mailto:" ++ (address ++ String "?" query)) by reflexivity.
  rewrite TrimFacts.strip_mailto_scheme, (JsFacts.split_first _ _ _ Hfree).
  cbn [Js.at_or nth]. rewrite TrimFacts.isLikelyEmail_trim.
  change (negb (Js.truthy ("mailto:" ++ (address ++ String "?" query)))) with false.
  cbv iota.
  destruct (isLikelyEmail address) eqn:Hlikely.
  - now rewrite (TrimFacts.isLikelyEmail_truthy _ Hlikely).
  - now rewrite orb_true_r.
Qed.

Lemma collectMailto_reads_address_before_query_witness :
  collectMailto [] (mkAnchor "mailto: Privacy@Example.com ?subject=Data%20request" "Mail us")
  = ["Privacy@Example.com"].
Proof.
  exact (eq_trans
           (proj1 (collectMailto_reads_address_before_query
                     [] " Privacy@Example.com " "subject=Data%20request" "Mail us" eq_refl))
           (proj2 (collectMailto_reads_address_before_query
                     [] " Privacy@Example.com " "subject=Data%20request" "Mail us" eq_refl))).
Defined.

(* ================================================================== *)
(** * One run of the discovery *)
(* ================================================================== *)

Module RunFacts.

Section WithExternals.

Variable X : Externals.

(** The privacy link of a page is never the empty string. *)
Lemma findPrivacyLink_truthy (html origin link : string) :
  findPrivacyLink X html origin = Some link -> Js.truthy link = true.
Proof.
  unfold findPrivacyLink.
  assert (Hfold : forall anchors found,
             (forall l, found = Some l -> Js.truthy l = true) ->
             forall l, fold_left (privacyLinkStep X origin) anchors found = Some l ->
                       Js.truthy l = true).
  { induction anchors as [|el anchors IH]; intros found Hfound l; simpl.
    - apply Hfound.
    - apply IH. intros l'. unfold privacyLinkStep.
      destruct (Js.truthy_opt found); [apply Hfound |].
      destruct (mentionsPrivacy el); [| apply Hfound].
      destruct (resolveLink X origin (a_href el)) as [r|]; [| apply Hfound].
      destruct (Js.truthy r) eqn:Hr; [| apply Hfound].
      now intros [= <-]. }
  apply Hfold. discriminate.
Qed.

(** A walk over the elements that returns has found what
    [findPrivacyLink] finds. *)
Lemma walkAnchors_returns (doc : Document) (origin : string) :
  forall (anchors : list Anchor) (i : nat) (found link : option string),
    walkAnchors X doc origin i anchors found = Ok link ->
    link = fold_left (privacyLinkStep X origin) anchors found.
Proof.
  induction anchors as [|el anchors IH]; intros i found link; simpl.
  - now intros [= <-].
  - destruct (Js.truthy_opt found) eqn:Hfound.
    + intros Hwalk. apply IH in Hwalk. unfold privacyLinkStep at 2. now rewrite Hfound.
    + destruct (doc_anchor_error doc i); [discriminate | apply IH].
Qed.

Lemma findPrivacyLink_call_returns (html origin : string) (link : option string) :
  findPrivacyLink_call X html origin = Ok link -> link = findPrivacyLink X html origin.
Proof.
  unfold findPrivacyLink_call, findPrivacyLink.
  destruct (doc_load_error (cheerio_load X html)); [discriminate |].
  apply walkAnchors_returns.
Qed.

(** Whether it returns or throws, a call of [collectEmailsFromHtml]
    leaves the set with new likely emails only. *)
Lemma collect_call_extends (html : string) (emails : list string) :
  extends likely emails (snd (collectEmailsFromHtml_call X html emails)).
Proof.
  unfold collectEmailsFromHtml_call, collectMailtoLinks.
  destruct (doc_load_error (cheerio_load X html)); [apply CollectFacts.extends_refl |].
  set (anchors := filter _ _).
  assert (Hmailto : extends likely emails (fold_left collectMailto anchors emails))
    by apply CollectFacts.fold_left_extends, CollectFacts.collectMailto_extends.
  destruct (doc_text_error (cheerio_load X html)); [exact Hmailto |].
  cbn [snd]. eapply CollectFacts.extends_trans; [exact Hmailto |].
  apply CollectFacts.fold_left_extends. intros acc m.
  destruct (isLikelyEmail m) eqn:Hm;
    [now apply CollectFacts.set_add_extends | apply CollectFacts.extends_refl].
Qed.

(** What the homepage gives when it is read without a throw. *)
Lemma homepageFindings_returns (origin : string) (fetched : Outcome string)
    (findings : option string * list string) :
  homepageFindings X origin fetched = Ok findings ->
  extends likely [] (snd findings) /\
  (fst findings = None \/ exists url, fst findings = Some url /\ Js.truthy url = true).
Proof.
  unfold homepageFindings.
  assert (Hnothing : @Ok (option string * list string) (None, []) = Ok findings ->
                     extends likely [] (snd findings) /\
                     (fst findings = None \/
                      exists url, fst findings = Some url /\ Js.truthy url = true)).
  { intros [= <-]. split; [apply CollectFacts.extends_refl | now left]. }
  destruct fetched as [html|e]; [| exact Hnothing].
  destruct (Js.truthy html); [| exact Hnothing].
  destruct (findPrivacyLink_call X html origin) as [link|e] eqn:Hlink; [| discriminate].
  pose proof (collect_call_extends html []) as Hext.
  destruct (collectEmailsFromHtml_call X html []) as [[[]|e] found]; [| discriminate].
  intros [= <-]. split; [exact Hext |]. cbn [fst].
  destruct link as [url|]; [| now left]. right. exists url. split; [reflexivity |].
  apply findPrivacyLink_call_returns in Hlink.
  now apply (findPrivacyLink_truthy html origin).
Qed.

Lemma requestsFor_length (signal : bool) (n : nat) (urls : list string) :
  (List.length (requestsFor signal n urls) <= List.length urls)%nat.
Proof.
  unfold requestsFor. rewrite length_map, length_take. lia.
Qed.

Lemma requestsFor_signal (signal : bool) (n : nat) (urls : list string) :
  Forall (fun r => req_signal r = signal) (requestsFor signal n urls).
Proof.
  unfold requestsFor. induction (firstn n urls); simpl; constructor; auto.
Qed.

Lemma candidate_truthy (origin candidate : string) :
  candidate ∈ buildPrivacyCandidates origin -> Js.truthy candidate = true.
Proof.
  unfold buildPrivacyCandidates. cbn [map].
  rewrite ?elem_of_cons, elem_of_nil.
  intros [-> | [-> | [-> | [-> | [-> | []]]]]];
    unfold Js.truthy; apply negb_true_iff, String.eqb_neq;
    apply WrapperFacts.append_nonempty; discriminate.
Qed.

(** The loop over the candidates always returns: it has asked for the
    first candidates of the list, and its privacy URL is the one it
    started with or one of the candidates. *)
Lemma tryCandidates_run (signal : bool) :
  forall (candidates : list string) (net : list Request) (p : option string)
         (found : list string),
    exists k p' found',
      tryCandidates X candidates signal p found net =
      (Ok (p', found'), (net ++ requestsFor signal k candidates)%list) /\
      extends likely found found' /\
      (p' = p \/ exists c, c ∈ candidates /\ p' = Some c).
Proof.
  induction candidates as [|c rest IH]; intros net p found.
  - exists 0%nat, p, found. unfold requestsFor. simpl. rewrite app_nil_r.
    split; [reflexivity |]. split; [apply CollectFacts.extends_refl | now left].
  - cbn [tryCandidates]. unfold bind, try_catch, fetchText, ret.
    destruct (fetch_outcome X net (mkRequest c signal)) as [html|e].
    + pose proof (collect_call_extends html found) as Hext.
      destruct (collectEmailsFromHtml_call X html found) as [[[]|e] found1]; cbn [snd] in Hext.
      * exists 1%nat, (Some c), found1. split; [reflexivity |]. split; [exact Hext |].
        right. exists c. split; [apply elem_of_cons; now left | reflexivity].
      * destruct (IH (net ++ [mkRequest c signal])%list (Some c) found1)
          as (k & p' & found' & -> & Hext' & Hp).
        exists (S k), p', found'. rewrite CandidateFacts.requestsFor_cons.
        split; [reflexivity |].
        split; [eapply CollectFacts.extends_trans; eassumption |].
        right. destruct Hp as [-> | (c' & Hc' & ->)].
        -- exists c. split; [apply elem_of_cons; now left | reflexivity].
        -- exists c'. split; [apply elem_of_cons; now right | reflexivity].
    + destruct (IH (net ++ [mkRequest c signal])%list p found)
        as (k & p' & found' & -> & Hext' & Hp).
      exists (S k), p', found'. rewrite CandidateFacts.requestsFor_cons.
      split; [reflexivity |]. split; [exact Hext' |].
      destruct Hp as [-> | (c' & Hc' & ->)]; [now left |].
      right. exists c'. split; [apply elem_of_cons; now right | reflexivity].
Qed.

(** Every run of [scrapeOrigin]: what it asked for, and what it found
    or threw. *)
Lemma scrapeOrigin_run (origin : string) (signal : bool) (net : list Request) :
  exists outcome added,
    scrapeOrigin X origin signal net = (outcome, (net ++ added)%list) /\
    head added = Some (mkRequest origin signal) /\
    (List.length added <= 6)%nat /\
    Forall (fun r => req_signal r = signal) added /\
    match outcome with
    | Ok result =>
        (exists findings,
            homepageFindings X origin (fetch_outcome X net (mkRequest origin signal))
            = Ok findings) /\
        extends likely [] (emails result) /\
        (privacyUrl result = None \/
         exists url, privacyUrl result = Some url /\ Js.truthy url = true)
    | Throw e =>
        homepageFindings X origin (fetch_outcome X net (mkRequest origin signal)) = Throw e /\
        added = [mkRequest origin signal]
    end.
Proof.
  destruct (homepageFindings X origin (fetch_outcome X net (mkRequest origin signal)))
    as [findings|e] eqn:Hhome.
  2:{ exists (Throw e), [mkRequest origin signal].
      rewrite (CandidateFacts.scrapeOrigin_homepage_throw X origin signal net e Hhome).
      repeat split; simpl; try lia. repeat constructor. }
  rewrite (CandidateFacts.scrapeOrigin_after_homepage X origin signal net findings Hhome).
  destruct (homepageFindings_returns _ _ _ Hhome) as [Hext Hurl].
  destruct (Js.truthy_opt (fst findings)) eqn:Hlink.
  - destruct Hurl as [Hnone | (link & Hsome & Htruthy)];
      [rewrite Hnone in Hlink; discriminate |].
    rewrite Hsome. cbn [default from_option id].
    eexists. exists [mkRequest origin signal; mkRequest link signal].
    split; [now rewrite <- app_assoc |]. split; [reflexivity |].
    split; [simpl; lia |]. split; [repeat constructor |].
    split; [now exists findings |]. split.
    + cbn [emails].
      destruct (fetch_outcome X _ (mkRequest link signal)); [| exact Hext].
      eapply CollectFacts.extends_trans; [exact Hext | apply collect_call_extends].
    + right. now exists link.
  - destruct (tryCandidates_run signal (buildPrivacyCandidates origin)
                (net ++ [mkRequest origin signal])%list (fst findings) (snd findings))
      as (k & p' & found' & -> & Hext' & Hp).
    eexists. exists (mkRequest origin signal ::
                     requestsFor signal k (buildPrivacyCandidates origin)).
    split; [now rewrite <- app_assoc |]. split; [reflexivity |].
    split; [pose proof (requestsFor_length signal k (buildPrivacyCandidates origin));
            simpl in *; lia |].
    split; [constructor; [reflexivity | apply requestsFor_signal] |].
    split; [now exists findings |]. cbn [emails privacyUrl fst snd].
    split; [eapply CollectFacts.extends_trans; eassumption |].
    destruct Hp as [-> | (c & Hc & ->)]; [exact Hurl |].
    right. exists c. split; [reflexivity |]. now apply (candidate_truthy origin).
Qed.

End WithExternals.

End RunFacts.

(** X3: when the homepage is fetched, is read by cheerio without a throw
    and holds a privacy link, [scrapeOrigin] asks for the homepage and for
    that link and for nothing else, and returns; the link is the privacy
    URL whether or not its page could be fetched or read.  The emails are
    those of the homepage, followed by those of the page of the link: all
    of them when the page was read to its end, those of its [mailto:]
    links when [$.text()] threw on it, and none when [cheerio.load] threw
    on it or the page could not be fetched. *)
Theorem scrapeOrigin_follows_homepage_link :
  forall (X : Externals) (origin : string) (signal : bool) (net : list Request)
         (html link : string),
    fetch_outcome X net (mkRequest origin signal) = Ok html ->
    Js.truthy html = true ->
    findPrivacyLink_call X html origin = Ok (Some link) ->
    readable X html = true ->
    let net1 := (net ++ [mkRequest origin signal])%list in
    let homeEmails := collectEmailsFromHtml X html [] in
    findPrivacyLink X html origin = Some link /\
    scrapeOrigin X origin signal net =
    (Ok (mkResult (Some link)
                  match fetch_outcome X net1 (mkRequest link signal) with
                  | Ok page =>
                      match doc_load_error (cheerio_load X page),
                            doc_text_error (cheerio_load X page) with
                      | Some _, _ => homeEmails
                      | None, Some _ => collectMailtoLinks X page homeEmails
                      | None, None => collectEmailsFromHtml X page homeEmails
                      end
                  | Throw _ => homeEmails
                  end),
     (net1 ++ [mkRequest link signal])%list).
Proof.
  intros X origin signal net html link Hfetch Hhtml Hcall Hread net1 homeEmails.
  pose proof (RunFacts.findPrivacyLink_call_returns X _ _ _ Hcall) as Hlink.
  split; [now symmetry |].
  assert (Hhome : homepageFindings X origin (fetch_outcome X net (mkRequest origin signal))
                  = Ok (Some link, homeEmails)).
  { unfold homepageFindings.
    now rewrite Hfetch, Hhtml, Hcall, (CandidateFacts.collect_call_readable X html [] Hread). }
  rewrite (CandidateFacts.scrapeOrigin_after_homepage X origin signal net _ Hhome).
  cbn [fst snd default from_option id]. simpl Js.truthy_opt.
  rewrite (RunFacts.findPrivacyLink_truthy X html origin link (eq_sym Hlink)).
  fold net1. destruct (fetch_outcome X net1 (mkRequest link signal)) as [page|e];
    [| reflexivity].
  unfold collectEmailsFromHtml_call, collectEmailsFromHtml, collectMailtoLinks.
  destruct (doc_load_error (cheerio_load X page)); [reflexivity |].
  now destruct (doc_text_error (cheerio_load X page)).
Qed.

Lemma scrapeOrigin_follows_homepage_link_witness :
  findPrivacyLink linkedSite "<html>" "https://example.com"
  = Some "https://example.com/privacy" /\
  scrapeOrigin linkedSite "https://example.com" true []
  = (Ok (mkResult (Some "https://example.com/privacy") ["legal@example.com"]),
     [ mkRequest "https://example.com" true;
       mkRequest "https://example.com/privacy" true ]).
Proof.
  exact (scrapeOrigin_follows_homepage_link
           linkedSite "https://example.com" true [] "<html>" "https://example.com/privacy"
           eq_refl eq_refl eq_refl eq_refl).
Defined.

(** X4: [scrapeOrigin] asks for the origin first, for at most six pages
    in all, and every request carries the signal it was called with,
    whether it returns or throws.  It throws exactly when the homepage
    was fetched, is not the empty string, and makes cheerio throw in
    [findPrivacyLink] or, after that returned, in
    [collectEmailsFromHtml]; it throws what cheerio threw, and has asked
    for the homepage only.  No failure of the network and no page other
    than the homepage makes it throw. *)
Theorem scrapeOrigin_throws_on_homepage_only :
  forall (X : Externals) (origin : string) (signal : bool) (net : list Request),
    exists outcome added,
      scrapeOrigin X origin signal net = (outcome, (net ++ added)%list) /\
      head added = Some (mkRequest origin signal) /\
      (List.length added <= 6)%nat /\
      Forall (fun r => req_signal r = signal) added /\
      (forall e,
          outcome = Throw e <->
          exists html,
            fetch_outcome X net (mkRequest origin signal) = Ok html /\
            Js.truthy html = true /\
            (findPrivacyLink_call X html origin = Throw e \/
             (exists link, findPrivacyLink_call X html origin = Ok link) /\
             fst (collectEmailsFromHtml_call X html []) = Throw e)) /\
      (forall e, outcome = Throw e -> added = [mkRequest origin signal]).
Proof.
  intros X origin signal net.
  destruct (RunFacts.scrapeOrigin_run X origin signal net)
    as (outcome & added & Hrun & Hhead & Hlen & Hsig & Hout).
  exists outcome, added. repeat (split; [assumption |]).
  assert (Hthrow : forall e,
             homepageFindings X origin (fetch_outcome X net (mkRequest origin signal))
             = Throw e <->
             exists html,
               fetch_outcome X net (mkRequest origin signal) = Ok html /\
               Js.truthy html = true /\
               (findPrivacyLink_call X html origin = Throw e \/
                (exists link, findPrivacyLink_call X html origin = Ok link) /\
                fst (collectEmailsFromHtml_call X html []) = Throw e)).
  { intros e. unfold homepageFindings.
    destruct (fetch_outcome X net (mkRequest origin signal)) as [html|e0].
    - split.
      + intros Hhome. exists html. split; [reflexivity |].
        destruct (Js.truthy html); [| discriminate]. split; [reflexivity |].
        destruct (findPrivacyLink_call X html origin) as [link|e1];
          [| left; congruence].
        right. split; [now exists link |].
        destruct (collectEmailsFromHtml_call X html []) as [[[]|e2] found];
          [discriminate | simpl; congruence].
      + intros (html' & [= <-] & -> & [-> | [[link ->] Hcollect]]); [reflexivity |].
        destruct (collectEmailsFromHtml_call X html []) as [[[]|e2] found];
          simpl in Hcollect; congruence.
    - split; [discriminate | intros (html & Hfetch & _); discriminate]. }
  split.
  - intros e. rewrite <- Hthrow. destruct outcome as [result|e'].
    + destruct Hout as [[findings Hhome] _]. rewrite Hhome. split; discriminate.
    + destruct Hout as [Hhome _]. rewrite Hhome. split; congruence.
  - intros e ->. apply Hout.
Qed.

(** X5: a result [scrapeOrigin] returns holds no email twice and no
    string that fails [isLikelyEmail], and its privacy URL is [null] or a
    string that is not empty. *)
Theorem scrapeOrigin_result_is_clean :
  forall (X : Externals) (origin : string) (signal : bool) (net : list Request)
         (result : ScrapeResult),
    fst (scrapeOrigin X origin signal net) = Ok result ->
    NoDup (emails result) /\
    Forall (fun m => isLikelyEmail m = true) (emails result) /\
    (privacyUrl result = None \/ exists url, privacyUrl result = Some url /\ url <> "").
Proof.
  intros X origin signal net result Hresult.
  destruct (RunFacts.scrapeOrigin_run X origin signal net)
    as (outcome & added & Hrun & _ & _ & _ & Hout).
  rewrite Hrun in Hresult. cbn [fst] in Hresult. subst outcome.
  destruct Hout as (_ & Hext & Hurl).
  split; [apply (CollectFacts.extends_NoDup _ _ _ Hext); constructor |].
  split; [apply (CollectFacts.extends_Forall _ _ _ Hext); constructor |].
  destruct Hurl as [Hnone | (url & Hsome & Htruthy)]; [now left |].
  right. exists url. split; [exact Hsome |].
  intros ->. discriminate.
Qed.

Lemma scrapeOrigin_result_is_clean_witness :
  NoDup ["legal@example.com"; "dpo@example.com"; "privacy@example.com"] /\
  Forall (fun m => isLikelyEmail m = true)
         ["legal@example.com"; "dpo@example.com"; "privacy@example.com"] /\
  (Some "https://example.com/privacy-policy" = None \/
   exists url, Some "https://example.com/privacy-policy" = Some url /\ url <> "").
Proof.
  exact (scrapeOrigin_result_is_clean deepSite "https://example.com" true []
           (mkResult (Some "https://example.com/privacy-policy")
                     ["legal@example.com"; "dpo@example.com"; "privacy@example.com"])
           eq_refl).
Defined.

(* ================================================================== *)
(** * The wrapper over one or two runs *)
(* ================================================================== *)

Module WidenFacts.

(** The wrapper's two tests on the origin agree. *)
Lemma subdomain_iff_parent (origin : string) :
  originHasSubdomain origin = true <-> exists mainOrigin, getMainDomainOrigin origin = Some mainOrigin.
Proof.
  unfold originHasSubdomain, getMainDomainOrigin.
  destruct (URL_new origin) as [u|]; [| split; [discriminate | intros [m Hm]; discriminate]].
  destruct (Nat.leb_spec (List.length (Js.split "." (Url.hostname u))) 2) as [Hle|Hgt].
  - split; [| intros [m Hm]; discriminate].
    intros Hlt. apply Nat.ltb_lt in Hlt. lia.
  - split; [eauto |]. intros _. now apply Nat.ltb_lt.
Qed.

Lemma set_add_new (x : string) (l : list string) : x ∉ l -> Js.set_add x l = (l ++ [x])%list.
Proof.
  intros Hx. unfold Js.set_add.
  now rewrite (proj2 (CollectFacts.mem_not_elem_of x l) Hx).
Qed.

Lemma fold_set_add_NoDup (xs : list string) :
  forall acc, NoDup (acc ++ xs) ->
              fold_left (fun acc x => Js.set_add x acc) xs acc = (acc ++ xs)%list.
Proof.
  induction xs as [|x xs IH]; intros acc Hnd; simpl.
  - now rewrite app_nil_r.
  - assert (Hx : x ∉ acc).
    { apply NoDup_app in Hnd as (_ & Hdisjoint & _). intros Hin.
      apply (Hdisjoint x Hin). apply elem_of_cons. now left. }
    rewrite (set_add_new x acc Hx).
    rewrite IH; rewrite <- app_assoc; [reflexivity | exact Hnd].
Qed.

(** A list without duplicates goes through [[...new Set(xs)]] unchanged. *)
Lemma dedupe_NoDup (xs : list string) : NoDup xs -> dedupe xs = xs.
Proof. intros Hnd. unfold dedupe. now rewrite fold_set_add_NoDup. Qed.

(** The wrapper over [scrapeOrigin], in one equation. *)
Lemma wrapper_result :
  forall (X : Externals) (rawUrl : string) (net : list Request),
    let origin := normalizeOrigin rawUrl in
    let first := scrapeOrigin X origin true net in
    let result := collapsed (fst first) in
    findPrivacyPolicyAndEmails X rawUrl net =
    if foundNothing result then
      match getMainDomainOrigin origin with
      | Some mainOrigin =>
          let second := scrapeOrigin X mainOrigin false (snd first) in
          (Ok match fst second with
              | Ok mainResult => mainResult
              | Throw _ => mkResult None []
              end,
           snd second)
      | None => (Ok result, snd first)
      end
    else (Ok result, snd first).
Proof.
  intros X rawUrl net origin first result. unfold findPrivacyPolicyAndEmails.
  destruct (foundNothing result) eqn:Hnothing.
  - destruct (getMainDomainOrigin origin) as [mainOrigin|] eqn:Hmain.
    + assert (Hsub : originHasSubdomain origin = true).
      { apply subdomain_iff_parent. eauto. }
      rewrite (WrapperFacts.wrapper_widened (scrapeOrigin X) rawUrl net mainOrigin);
        fold origin; fold first; fold result; [| now rewrite Hnothing, Hsub | exact Hmain].
      assert (Hempty : result = mkResult None []).
      { subst result. destruct (RunFacts.scrapeOrigin_run X origin true net)
          as (outcome & added & Hrun & _ & _ & _ & Hout).
        fold first in Hrun. rewrite Hrun in *. cbn [fst collapsed] in *.
        destruct outcome as [r|e]; [| reflexivity]. cbn [collapsed] in *.
        destruct Hout as (_ & _ & Hurl).
        unfold foundNothing in Hnothing. apply andb_true_iff in Hnothing as [Hno Hlen].
        apply Nat.eqb_eq, length_zero_iff_nil in Hlen.
        destruct r as [p es]. cbn [privacyUrl emails] in *. subst es.
        destruct Hurl as [-> | (url & -> & Htruthy)]; [reflexivity |].
        simpl in Hno. now rewrite Htruthy in Hno. }
      cbv zeta.
      destruct (RunFacts.scrapeOrigin_run X mainOrigin false (snd first))
        as (outcome2 & added2 & Hrun2 & _ & _ & _ & Hout2).
      rewrite Hrun2. cbn [fst snd]. destruct outcome2 as [mainResult|e2].
      * destruct Hout2 as (_ & Hext & _). rewrite Hempty. cbn [privacyUrl emails].
        simpl app.
        rewrite dedupe_NoDup
          by (apply (CollectFacts.extends_NoDup _ _ _ Hext); constructor).
        destruct mainResult as [p es]. simpl. now destruct p.
      * now rewrite Hempty.
    + rewrite (WrapperFacts.wrapper_no_parent (scrapeOrigin X) rawUrl net);
        fold origin; fold first; [reflexivity | exact Hmain].
  - rewrite (WrapperFacts.wrapper_single (scrapeOrigin X) rawUrl net);
      fold origin; fold first; fold result; [reflexivity | now rewrite Hnothing].
Qed.

End WidenFacts.

(** X6: [originHasSubdomain] holds of an origin exactly when
    [getMainDomainOrigin] gives its parent, so the wrapper's second test
    never fails after the first has passed. *)
Theorem originHasSubdomain_iff_getMainDomainOrigin :
  forall origin : string,
    originHasSubdomain origin = true <->
    exists mainOrigin, getMainDomainOrigin origin = Some mainOrigin.
Proof. exact WidenFacts.subdomain_iff_parent. Qed.

(** X7: [findPrivacyPolicyAndEmails] returns what the first attempt of
    [scrapeOrigin] found on the origin, the empty result standing for an
    attempt that threw, unless that is nothing and the origin has a
    parent domain: then [scrapeOrigin] is called on the parent without
    the abort signal, and the wrapper returns what it found, unchanged by
    the merge, or the empty result when it threw. *)
Theorem findPrivacyPolicyAndEmails_first_or_parent_result :
  forall (X : Externals) (rawUrl : string) (net : list Request),
    let origin := normalizeOrigin rawUrl in
    let first := scrapeOrigin X origin true net in
    let result := collapsed (fst first) in
    findPrivacyPolicyAndEmails X rawUrl net =
    if foundNothing result then
      match getMainDomainOrigin origin with
      | Some mainOrigin =>
          let second := scrapeOrigin X mainOrigin false (snd first) in
          (Ok match fst second with
              | Ok mainResult => mainResult
              | Throw _ => mkResult None []
              end,
           snd second)
      | None => (Ok result, snd first)
      end
    else (Ok result, snd first).
Proof. exact WidenFacts.wrapper_result. Qed.

(** X8: [findPrivacyPolicyAndEmails] asks for at most six pages with the
    abort signal, the origin first, and then for at most six pages without
    it; the second run happens only for an origin with a subdomain. *)
Theorem findPrivacyPolicyAndEmails_requests :
  forall (X : Externals) (rawUrl : string) (net : list Request),
    exists result firstRun secondRun,
      findPrivacyPolicyAndEmails X rawUrl net =
      (Ok result, (net ++ firstRun ++ secondRun)%list) /\
      head firstRun = Some (mkRequest (normalizeOrigin rawUrl) true) /\
      (List.length firstRun <= 6)%nat /\ (List.length secondRun <= 6)%nat /\
      Forall (fun r => req_signal r = true) firstRun /\
      Forall (fun r => req_signal r = false) secondRun /\
      (secondRun <> [] -> originHasSubdomain (normalizeOrigin rawUrl) = true).
Proof.
  intros X rawUrl net. rewrite WidenFacts.wrapper_result.
  set (origin := normalizeOrigin rawUrl).
  destruct (RunFacts.scrapeOrigin_run X origin true net)
    as (outcome & added & Hrun & Hhead & Hlen & Hsig & _).
  rewrite Hrun. cbn [fst snd]. cbv zeta.
  set (result := collapsed outcome).
  assert (Hone : exists final firstRun secondRun,
             (@Ok ScrapeResult result, (net ++ added)%list) =
             (Ok final, (net ++ firstRun ++ secondRun)%list) /\
             head firstRun = Some (mkRequest origin true) /\
             (List.length firstRun <= 6)%nat /\ (List.length secondRun <= 6)%nat /\
             Forall (fun r => req_signal r = true) firstRun /\
             Forall (fun r => req_signal r = false) secondRun /\
             (secondRun <> [] -> originHasSubdomain origin = true)).
  { exists result, added, []. rewrite app_nil_r.
    repeat split; try assumption; try constructor; simpl; try lia. congruence. }
  destruct (foundNothing result); [| exact Hone].
  destruct (getMainDomainOrigin origin) as [mainOrigin|] eqn:Hmain; [| exact Hone].
  destruct (RunFacts.scrapeOrigin_run X mainOrigin false (net ++ added)%list)
    as (outcome2 & added2 & Hrun2 & _ & Hlen2 & Hsig2 & _).
  eexists. exists added, added2. rewrite Hrun2, <- app_assoc. cbn [fst snd].
  repeat split; try assumption.
  intros _. apply WidenFacts.subdomain_iff_parent. eauto.
Qed.

(* ================================================================== *)
(** * Candidates and origins *)
(* ================================================================== *)

Module SlashFacts.

Import Js.

Lemma drop_while_end_snoc (p : ascii -> bool) (s : string) (c : ascii) :
  p c = true -> drop_while_end p (s ++ String c "") = drop_while_end p s.
Proof.
  intros Hc. induction s as [|x s IH]; simpl.
  - now rewrite Hc.
  - now rewrite IH.
Qed.

Lemma append_inj_l (a s t : string) : a ++ s = a ++ t -> s = t.
Proof. induction a as [|c a IH]; simpl; [auto | intros [= H]; auto]. Qed.

Lemma NoDup_map_append (a : string) (l : list string) :
  NoDup l -> NoDup (map (fun s => a ++ s) l).
Proof.
  induction 1 as [|x l Hx Hl IH]; simpl; constructor; [| exact IH].
  intros Hin. apply Hx. apply list_elem_of_In in Hin.
  apply in_map_iff in Hin as (y & Heq & Hy).
  apply append_inj_l in Heq. subst y. now apply list_elem_of_In.
Qed.

End SlashFacts.

(** X9: a slash at the end of the origin changes no candidate, and the
    five candidates are five different URLs. *)
Theorem buildPrivacyCandidates_ignores_trailing_slash :
  forall origin : string,
    buildPrivacyCandidates (origin ++ "/") = buildPrivacyCandidates origin /\
    NoDup (buildPrivacyCandidates origin) /\
    List.length (buildPrivacyCandidates origin) = 5%nat.
Proof.
  intros origin. unfold buildPrivacyCandidates.
  rewrite SlashFacts.drop_while_end_snoc by reflexivity.
  split; [reflexivity |]. split; [| reflexivity].
  apply (SlashFacts.NoDup_map_append (Js.drop_while_end (Ascii.eqb "/") origin)).
  repeat (constructor; [rewrite ?elem_of_cons, elem_of_nil; intuition discriminate |]).
  constructor.
Qed.

Module PathFacts.

Import Js Url.

Lemma drop_while_end_app_keep (p : ascii -> bool) (a r : string) (d : ascii) :
  p d = false ->
  drop_while_end p (a ++ String d r) = a ++ String d (drop_while_end p r).
Proof.
  intros Hd. induction a as [|x a IH]; simpl.
  - destruct (drop_while_end p r); [now rewrite Hd | reflexivity].
  - rewrite IH. now destruct a.
Qed.

Lemma filter_string_app (p : ascii -> bool) (a b : string) :
  filter_string p (a ++ b) = filter_string p a ++ filter_string p b.
Proof.
  induction a as [|x a IH]; simpl; [reflexivity |].
  destruct (p x); simpl; now rewrite IH.
Qed.

Lemma take_while_stop (p : ascii -> bool) (a r : string) (d : ascii) :
  all_chars p a = true -> p d = false -> take_while p (a ++ String d r) = a.
Proof.
  intros Ha Hd. induction a as [|x a IH]; simpl.
  - now rewrite Hd.
  - simpl in Ha. apply andb_true_iff in Ha as [Hx Ha]. now rewrite Hx, IH.
Qed.

(** What follows the authority is cut off before the host is read. *)
Lemma preprocess_tail (P rest : string) (d : ascii) :
  P <> "" ->
  all_chars (fun c => negb (is_c0_or_space c)) P = true ->
  is_authority_end true d = true ->
  exists rest', preprocess (P ++ String d rest) = P ++ String d rest'.
Proof.
  intros Hne HP Hd. unfold preprocess.
  assert (Hspace : is_c0_or_space d = false) by (revert Hd; OriginFacts.by_cases_on d).
  assert (Htab : negb (is_tab_or_newline d) = true) by (revert Hd; OriginFacts.by_cases_on d).
  assert (Hstart : drop_while is_c0_or_space (P ++ String d rest) = P ++ String d rest).
  { destruct P as [|c P]; [congruence |]. simpl in *.
    apply andb_true_iff in HP as [Hc _]. apply negb_true_iff in Hc. now rewrite Hc. }
  rewrite Hstart, drop_while_end_app_keep by exact Hspace.
  rewrite filter_string_app. simpl. rewrite Htab.
  rewrite OriginFacts.filter_string_keep.
  - eexists. reflexivity.
  - eapply JsFacts.all_chars_impl; [| exact HP]. intros c. OriginFacts.by_cases_on c.
Qed.

Lemma parse_ignores_tail (scheme authority rest : string) (d : ascii) (u : URL) :
  has_tuple_origin scheme = true ->
  all_chars (fun c => negb (is_authority_end true c) && negb (is_c0_or_space c))
            authority = true ->
  is_authority_end true d = true ->
  parse (scheme ++ "://" ++ authority) = Some u ->
  parse (scheme ++ "://" ++ authority ++ String d rest) = Some u.
Proof.
  intros Hscheme Hauth Hd Hparse.
  destruct (OriginFacts.tuple_scheme_plain scheme Hscheme) as (Hplain & Hfile & Hspecial & _).
  assert (Hend : all_chars (fun c => negb (is_authority_end true c)) authority = true).
  { eapply JsFacts.all_chars_impl; [| exact Hauth].
    intros c Hc. now apply andb_true_iff in Hc as [Hc _]. }
  assert (Hspace : all_chars (fun c => negb (is_c0_or_space c)) authority = true).
  { eapply JsFacts.all_chars_impl; [| exact Hauth].
    intros c Hc. now apply andb_true_iff in Hc as [_ Hc]. }
  assert (HP : all_chars (fun c => negb (is_c0_or_space c)) ((scheme ++ "://") ++ authority)
               = true).
  { rewrite JsFacts.all_chars_append, Hplain, Hspace. reflexivity. }
  assert (Hslash : forall tail, authority <> "" ->
             drop_while is_slash ("//" ++ authority ++ tail) = authority ++ tail).
  { intros tail Hne. destruct authority as [|c a]; [congruence |]. simpl in *.
    apply andb_true_iff in Hend as [Hc _].
    replace (is_slash c) with false; [reflexivity |].
    symmetry. revert Hc. OriginFacts.by_cases_on c. }
  assert (Hne : authority <> "").
  { intros ->. revert Hparse. unfold parse.
    change (scheme ++ "://" ++ "") with (scheme ++ "://").
    rewrite (OriginFacts.preprocess_keep _ Hplain).
    change (scheme ++ "://") with (scheme ++ String ":" "//").
    rewrite (OriginFacts.parse_scheme_tuple scheme "//" Hscheme), Hfile, Hspecial.
    discriminate. }
  revert Hparse. unfold parse.
  replace (scheme ++ "://" ++ authority) with ((scheme ++ "://") ++ authority)
    by (now rewrite JsFacts.append_assoc).
  replace (scheme ++ "://" ++ authority ++ String d rest)
    with (((scheme ++ "://") ++ authority) ++ String d rest)
    by (now rewrite !JsFacts.append_assoc).
  rewrite (OriginFacts.preprocess_keep _ HP).
  destruct (preprocess_tail ((scheme ++ "://") ++ authority) rest d) as [rest' ->];
    [destruct scheme; discriminate | exact HP | exact Hd |].
  replace ((scheme ++ "://") ++ authority) with (scheme ++ String ":" ("//" ++ authority))
    by (now rewrite JsFacts.append_assoc).
  replace ((scheme ++ String ":" ("//" ++ authority)) ++ String d rest')
    with (scheme ++ String ":" ("//" ++ authority ++ String d rest'))
    by (now rewrite !JsFacts.append_assoc).
  rewrite !(OriginFacts.parse_scheme_tuple scheme _ Hscheme), Hfile, Hspecial.
  rewrite (Hslash (String d rest') Hne).
  rewrite <- (JsFacts.append_empty_r authority) at 1.
  rewrite (Hslash "" Hne), JsFacts.append_empty_r.
  unfold parse_authority.
  rewrite (take_while_stop _ authority rest' d Hend) by (now rewrite Hd).
  rewrite (OriginFacts.take_while_keep _ authority Hend).
  auto.
Qed.

End PathFacts.



(* ================================================================== *)
(** * The routes over one entry *)
(* ================================================================== *)

Module RouteFacts.

Lemma db_call_requests {A} (op : gmap Z Entry -> Outcome A * gmap Z Entry) (w : World) :
  w_requests (snd (db_call op w)) = w_requests w.
Proof.
  unfold db_call. destruct (w_faults w) as [|[e|] later]; simpl; try reflexivity;
    now destruct (op (w_rows w)).
Qed.

End RouteFacts.

(** X11: scraping an id that is not in the table throws [Entry not
    found] before anything is written or asked for, and the scrape route
    answers it with status 500, not 404. *)
Theorem scrapeEntry_unknown_id_is_a_server_error :
  forall (JSON_parse : string -> Outcome (list string))
         (discover : string -> M (list Request) ScrapeResult)
         (id : Z) (w : World),
    w_rows w !! id = None ->
    hd None (w_faults w) = None ->
    let w' := mkWorld (w_requests w) (w_rows w) (tail (w_faults w)) in
    scrapeEntry JSON_parse discover id w = (Throw (JsError "Entry not found"), w') /\
    scrapeRoute JSON_parse discover id w =
    (Ok (mkResponse 500 (ErrorJson "Entry not found")), w').
Proof.
  intros JSON_parse discover id w Hrow Hfault w'.
  assert (Hrun : scrapeEntry JSON_parse discover id w =
                 (Throw (JsError "Entry not found"), w')).
  { unfold scrapeEntry, bind, findUnique, throw.
    rewrite ServerFacts.db_call_through by exact Hfault.
    cbn [fst snd]. now rewrite Hrow. }
  split; [exact Hrun |].
  unfold scrapeRoute, try_catch, bind, ret. now rewrite Hrun.
Qed.

Lemma scrapeEntry_unknown_id_is_a_server_error_witness :
  scrapeRoute (fun _ => Ok []) (fun _ => ret (mkResult None [])) 2 (sampleWorld []) =
  (Ok (mkResponse 500 (ErrorJson "Entry not found")), sampleWorld []).
Proof.
  exact (proj2 (scrapeEntry_unknown_id_is_a_server_error
                  (fun _ => Ok []) (fun _ => ret (mkResult None [])) 2 (sampleWorld [])
                  eq_refl eq_refl)).
Defined.

(** X12: over a store that answers, [scrapeEntry] writes to its own row
    alone, and there to the status, the error message, the privacy URL
    and the scraped emails alone; it leaves the row as [no_results],
    [done] or [error], never as [pending] or [in_progress]. *)
Theorem scrapeEntry_writes_own_row_only :
  forall (JSON_parse : string -> Outcome (list string))
         (discover : string -> M (list Request) ScrapeResult)
         (id : Z) (w : World) (e : Entry),
    w_rows w !! id = Some e ->
    w_faults w = [] ->
    let rows' := w_rows (snd (scrapeEntry JSON_parse discover id w)) in
    (forall j, j <> id -> rows' !! j = w_rows w !! j) /\
    exists row,
      rows' !! id = Some row /\
      e_id row = e_id e /\ e_siteName row = e_siteName e /\ e_url row = e_url e /\
      e_username row = e_username e /\ e_sourceEmail row = e_sourceEmail e /\
      (e_status row = "no_results" \/ e_status row = "done" \/ e_status row = "error").
Proof.
  intros JSON_parse discover id w e Hrow Hfaults rows'. subst rows'.
  rewrite (ServerFacts.scrapeEntry_run JSON_parse discover id w e Hrow Hfaults).
  cbn [snd w_rows]. split.
  - intros j Hj. now rewrite lookup_insert_ne.
  - eexists. split; [apply lookup_insert_eq |].
    destruct (discover (e_url e) (w_requests w)) as [[result|err] net].
    + destruct (negb (Js.truthy_opt (privacyUrl result)) &&
                (List.length (emails result) =? 0)%nat); simpl; auto 10.
    + simpl. auto 10.
Qed.

Lemma scrapeEntry_writes_own_row_only_witness :
  exists row,
    w_rows (snd (scrapeEntry (fun _ => Ok []) (fun _ => throw JsOther) 1 (sampleWorld [])))
      !! 1%Z = Some row /\
    e_url row = "https://example.com" /\ e_sourceEmail row = Some "me@example.com".
Proof.
  destruct (proj2 (scrapeEntry_writes_own_row_only
                     (fun _ => Ok []) (fun _ => throw JsOther) 1 (sampleWorld []) sampleEntry
                     eq_refl eq_refl))
    as (row & Hrow & _ & _ & Hurl & _ & Hsource & _).
  exists row. split; [exact Hrow | split; [exact Hurl | exact Hsource]].
Defined.

(** X13: when the discovery throws and the update of the [catch] block
    throws as well, [scrapeEntry] throws that second error and the entry
    stays [in_progress]; the batch route, which takes the [pending] and
    the [error] entries, never takes it again. *)
Theorem scrapeEntry_failed_error_write_leaves_in_progress :
  forall (JSON_parse : string -> Outcome (list string))
         (discover : string -> M (list Request) ScrapeResult)
         (id : Z) (w : World) (e : Entry) (thrownByDiscovery thrownByStore : thrown)
         (net : list Request),
    w_rows w !! id = Some e ->
    w_faults w = [None; None; Some thrownByStore] ->
    discover (e_url e) (w_requests w) = (Throw thrownByDiscovery, net) ->
    let left := applyData (mkData (Some "in_progress") (Some None) None None) e in
    scrapeEntry JSON_parse discover id w =
    (Throw thrownByStore, mkWorld net (<[id := left]> (w_rows w)) []) /\
    e_status left = "in_progress" /\
    isCandidate left = false.
Proof.
  intros JSON_parse discover id w e d s net Hrow Hfaults Hd left.
  split; [| split; reflexivity].
  destruct w as [req rows faults]. simpl in *. subst faults.
  unfold scrapeEntry, bind, findUnique, update, throw, try_catch, ret.
  rewrite ServerFacts.db_call_through by reflexivity.
  cbn [fst snd w_rows w_requests w_faults tail]. rewrite Hrow.
  rewrite ServerFacts.db_call_through by reflexivity.
  cbn [fst snd w_rows w_requests w_faults tail]. rewrite Hrow. cbn [fst snd].
  unfold scrapeEntry_try, scrapeEntry_catch, bind, lift_net, update, ret.
  cbn [w_rows w_requests w_faults]. rewrite Hd.
  erewrite ServerFacts.db_call_fault by reflexivity. reflexivity.
Qed.

Lemma scrapeEntry_failed_error_write_leaves_in_progress_witness :
  fst (scrapeEntry (fun _ => Ok []) (fun _ => throw (JsError "socket hang up")) 1
                   (sampleWorld [None; None; Some (JsError "database is locked")]))
  = Throw (JsError "database is locked").
Proof.
  exact (f_equal fst
           (proj1 (scrapeEntry_failed_error_write_leaves_in_progress
                     (fun _ => Ok []) (fun _ => throw (JsError "socket hang up")) 1
                     (sampleWorld [None; None; Some (JsError "database is locked")])
                     sampleEntry (JsError "socket hang up") (JsError "database is locked") []
                     eq_refl eq_refl eq_refl))).
Defined.

(** X14: a PATCH of an entry writes the fields the body supplies, of
    the privacy URL, the scraped emails and the site name, and no other
    column and no other row; the answer is 200 with the row when the
    stored emails of the row parse, and a failure status otherwise, the
    write having been made all the same. *)
Theorem patchRoute_writes_supplied_fields_only :
  forall (JSON_parse : string -> Outcome (list string))
         (has_code : string -> thrown -> bool)
         (id : Z) (body : PatchBody) (w : World) (e : Entry),
    w_rows w !! id = Some e ->
    hd None (w_faults w) = None ->
    let ran := patchRoute JSON_parse has_code id body w in
    let row := applyPatch (patchData body) e in
    w_rows (snd ran) = <[id := row]> (w_rows w) /\
    (e_id row = e_id e /\ e_url row = e_url e /\ e_username row = e_username e /\
     e_sourceEmail row = e_sourceEmail e /\ e_status row = e_status e /\
     e_errorMessage row = e_errorMessage e) /\
    e_siteName row = default (e_siteName e) (b_siteName body) /\
    e_privacyUrl row = default (e_privacyUrl e) (b_privacyUrl body) /\
    e_scrapedEmails row =
      match b_scrapedEmails body with
      | Some supplied => Some (JSON_stringify supplied)
      | None => e_scrapedEmails e
      end /\
    match mapRow JSON_parse row with
    | Ok mapped => fst ran = Ok (mkResponse 200 (Json mapped))
    | Throw _ =>
        exists answer,
          fst ran = Ok answer /\ (r_status answer = 404%Z \/ r_status answer = 500%Z)
    end.
Proof.
  intros JSON_parse has_code id body w e Hrow Hfault ran row.
  assert (Hran : ran =
                 match mapRow JSON_parse row with
                 | Ok mapped => (Ok (mkResponse 200 (Json mapped)),
                                 mkWorld (w_requests w) (<[id := row]> (w_rows w))
                                         (tail (w_faults w)))
                 | Throw err =>
                     ((if has_code "P2025" err
                       then Ok (mkResponse 404 (ErrorJson "Entry not found"))
                       else Ok (mkResponse 500 (ErrorJson (messageOr "Update failed" err)))),
                      mkWorld (w_requests w) (<[id := row]> (w_rows w))
                              (tail (w_faults w)))
                 end).
  { subst ran. unfold patchRoute, try_catch, bind, updateFields, lift_outcome, ret.
    rewrite ServerFacts.db_call_through by exact Hfault.
    rewrite Hrow. cbn [fst snd]. fold row.
    destruct (mapRow JSON_parse row) as [mapped|err]; [reflexivity |].
    now destruct (has_code "P2025" err). }
  split; [rewrite Hran; now destruct (mapRow JSON_parse row) |].
  split; [repeat split |]. split; [reflexivity |]. split; [reflexivity |].
  split; [subst row; simpl; now destruct (b_scrapedEmails body) |].
  rewrite Hran. destruct (mapRow JSON_parse row) as [mapped|err]; [reflexivity |].
  destruct (has_code "P2025" err); eexists; (split; [reflexivity |]); simpl; auto.
Qed.

Lemma patchRoute_writes_supplied_fields_only_witness :
  exists row,
    w_rows (snd (patchRoute (fun _ => Throw (JsError "Unexpected token")) (fun _ _ => false) 1
                            (mkPatchBody None None (Some (Some "Example Inc.")))
                            (sampleWorld []))) !! 1%Z = Some row /\
    e_siteName row = Some "Example Inc." /\ e_status row = "error".
Proof.
  eexists. split.
  - rewrite (proj1 (patchRoute_writes_supplied_fields_only
                      (fun _ => Throw (JsError "Unexpected token")) (fun _ _ => false) 1
                      (mkPatchBody None None (Some (Some "Example Inc.")))
                      (sampleWorld []) sampleEntry eq_refl eq_refl)).
    apply lookup_insert_eq.
  - split; reflexivity.
Defined.

(** X15: for an id that is not in the table, and a store error that
    carries the code P2025, the PATCH route and the DELETE route answer
    404 and leave the table as it was. *)
Theorem patchRoute_deleteRoute_unknown_id :
  forall (JSON_parse : string -> Outcome (list string))
         (has_code : string -> thrown -> bool)
         (id : Z) (body : PatchBody) (w : World),
    w_rows w !! id = None ->
    hd None (w_faults w) = None ->
    has_code "P2025" recordNotFound = true ->
    let w' := mkWorld (w_requests w) (w_rows w) (tail (w_faults w)) in
    patchRoute JSON_parse has_code id body w =
    (Ok (mkResponse 404 (ErrorJson "Entry not found")), w') /\
    deleteRoute has_code id w = (Ok (mkResponse 404 (ErrorJson "Entry not found")), w').
Proof.
  intros JSON_parse has_code id body w Hrow Hfault Hcode w'. split.
  - unfold patchRoute, try_catch, bind, updateFields, ret.
    rewrite ServerFacts.db_call_through by exact Hfault.
    rewrite Hrow. cbn [fst snd]. now rewrite Hcode.
  - unfold deleteRoute, try_catch, bind, deleteEntry, ret.
    rewrite ServerFacts.db_call_through by exact Hfault.
    rewrite Hrow. cbn [fst snd]. now rewrite Hcode.
Qed.

Lemma patchRoute_deleteRoute_unknown_id_witness :
  deleteRoute (fun code _ => String.eqb code "P2025") 2 (sampleWorld []) =
  (Ok (mkResponse 404 (ErrorJson "Entry not found")), sampleWorld []).
Proof.
  exact (proj2 (patchRoute_deleteRoute_unknown_id
                  (fun _ => Ok []) (fun code _ => String.eqb code "P2025") 2
                  (mkPatchBody None None None) (sampleWorld [])
                  eq_refl eq_refl eq_refl)).
Defined.

(* ================================================================== *)
(** * The import *)
(* ================================================================== *)

Module ImportFacts.

(** A trimmed field is [null] or a string that is not empty. *)
Lemma orNull_trimmedOrNull (field : option string) :
  orNull (trimmedOrNull field) = trimmedOrNull field.
Proof.
  destruct field as [s|]; [| reflexivity]. unfold trimmedOrNull.
  destruct (Js.truthy (Js.trim s)) eqn:Htrim; [| reflexivity].
  unfold orNull. simpl. now rewrite Htrim.
Qed.

Lemma head_filter_elem {A} (P : A -> Prop) `{!forall x, Decision (P x)} (l : list A) (x : A) :
  x ∈ l -> P x -> exists y, head (filter P l) = Some y.
Proof.
  intros Hx HP.
  assert (Hin : x ∈ filter P l) by (apply list_elem_of_filter; now split).
  destruct (filter P l) as [|y rest]; [now apply elem_of_nil in Hin | now exists y].
Qed.

Section WithStore.

Variable has_code : string -> thrown -> bool.
Variable prisma_create : NewEntry -> gmap Z Entry -> Outcome Entry * gmap Z Entry.

(** Each item adds one to one counter, whatever the store does, and no
    item makes the handler throw. *)
Lemma importItem_step (item : ImportEntry) (count : Counters) (w : World) :
  exists count' w',
    importItem has_code prisma_create item count w = (Ok count', w') /\
    (c_imported count' + c_duplicates count' + c_invalid count' =
     S (c_imported count + c_duplicates count + c_invalid count))%nat /\
    w_requests w' = w_requests w.
Proof.
  unfold importItem.
  destruct (negb (Js.truthy (Js.trim (default "" (i_url item))))).
  { eexists; eexists. split; [reflexivity |]. simpl. split; [lia | reflexivity]. }
  unfold try_catch at 1.
  destruct (URL_new (Js.trim (default "" (i_url item)))) as [u|].
  2:{ eexists; eexists. split; [reflexivity |]. simpl. split; [lia | reflexivity]. }
  unfold bind at 1, findFirst.
  match goal with |- context [db_call ?op w] =>
    pose proof (RouteFacts.db_call_requests op w) as Hreq1;
    destruct (db_call op w) as [[existing|err] w1]
  end; cbn [snd] in Hreq1.
  2:{ eexists; eexists. split; [reflexivity |]. simpl. split; [lia | exact Hreq1]. }
  destruct existing as [found|].
  { eexists; eexists. split; [reflexivity |]. simpl. split; [lia | exact Hreq1]. }
  unfold try_catch, bind, create.
  match goal with |- context [db_call ?op w1] =>
    pose proof (RouteFacts.db_call_requests op w1) as Hreq2;
    destruct (db_call op w1) as [[row|err] w2]
  end; cbn [snd] in Hreq2.
  { eexists; eexists. split; [reflexivity |]. simpl. split; [lia | congruence]. }
  destruct (has_code "P2002" err);
    eexists; eexists; (split; [reflexivity |]); simpl; (split; [lia | congruence]).
Qed.

(** An item of the type the handler expects is handled as that type
    says. *)
Lemma importJsonItem_typed (item : JsonValue) (typed : ImportEntry) (count : Counters)
    (w : World) :
  asImportEntry item = Some typed ->
  importJsonItem has_code prisma_create item count w =
  importItem has_code prisma_create typed count w.
Proof.
  unfold asImportEntry, importJsonItem, importItem, importData, getMember.
  destruct item as [| b | n | s | items | members]; [discriminate | | | | |];
    try (cbn [ownProperty textOf]; intros [= <-]; reflexivity).
  generalize (ownProperty (JObject members) "name").
  generalize (ownProperty (JObject members) "url").
  generalize (ownProperty (JObject members) "username").
  generalize (ownProperty (JObject members) "sourceEmail").
  intros [[]|] [[]|] [[]|] [[]|]; try discriminate; intros [= <-]; reflexivity.
Qed.

(** An item with a [url] the handler can trim and another field it
    cannot is invalid, and the store is not asked. *)
Lemma importJsonItem_untyped (item : JsonValue) (count : Counters) (w : World) :
  breaksImport item = false ->
  asImportEntry item = None ->
  importJsonItem has_code prisma_create item count w =
  (Ok (mkCounters (c_imported count) (c_duplicates count) (S (c_invalid count))), w).
Proof.
  unfold asImportEntry, breaksImport, importJsonItem, getMember.
  destruct item as [| b | n | s | items | members]; try discriminate.
  generalize (ownProperty (JObject members) "name").
  generalize (ownProperty (JObject members) "url").
  generalize (ownProperty (JObject members) "username").
  generalize (ownProperty (JObject members) "sourceEmail").
  intros source user url name Hurl Htyped.
  destruct url as [[| b | n | s | items | fields]|]; try discriminate Hurl;
    unfold bind at 1 2; cbn [lift_outcome trimOrEmpty textOf] in *;
    match goal with |- context [negb (Js.truthy ?u)] => destruct (negb (Js.truthy u)) end;
    try reflexivity;
    unfold try_catch at 1;
    match goal with |- context [URL_new ?u] => destruct (URL_new u) end;
    try reflexivity;
    destruct name as [[]|]; try reflexivity;
    destruct user as [[]|]; try reflexivity;
    destruct source as [[]|]; try reflexivity; discriminate Htyped.
Qed.

(** The handler throws on an item it cannot read, before it asks the
    store. *)
Lemma importJsonItem_breaks (item : JsonValue) (count : Counters) (w : World) :
  breaksImport item = true ->
  exists e, importJsonItem has_code prisma_create item count w = (Throw e, w).
Proof.
  unfold breaksImport, importJsonItem, getMember.
  destruct item as [| b | n | s | items | members]; try discriminate;
    [intros _; eexists; reflexivity |].
  destruct (ownProperty (JObject members) "url") as [[]|]; try discriminate;
    intros _; eexists; reflexivity.
Qed.

Lemma importJsonItem_step (item : JsonValue) (count : Counters) (w : World) :
  breaksImport item = false ->
  exists count' w',
    importJsonItem has_code prisma_create item count w = (Ok count', w') /\
    (c_imported count' + c_duplicates count' + c_invalid count' =
     S (c_imported count + c_duplicates count + c_invalid count))%nat /\
    w_requests w' = w_requests w.
Proof.
  intros Hreads. destruct (asImportEntry item) as [typed|] eqn:Htyped.
  - rewrite (importJsonItem_typed item typed count w Htyped). apply importItem_step.
  - rewrite (importJsonItem_untyped item count w Hreads Htyped).
    eexists; eexists. split; [reflexivity |]. simpl. split; [lia | reflexivity].
Qed.

Lemma importLoop_run (entries : list JsonValue) :
  forall (count : Counters) (w : World),
    Forall (fun item => breaksImport item = false) entries ->
    exists count' w',
      importLoop has_code prisma_create entries count w = (Ok count', w') /\
      (c_imported count' + c_duplicates count' + c_invalid count' =
       c_imported count + c_duplicates count + c_invalid count + List.length entries)%nat /\
      w_requests w' = w_requests w.
Proof.
  induction entries as [|item rest IH]; intros count w Hreads; simpl.
  - exists count, w. split; [reflexivity |]. split; [lia | reflexivity].
  - apply Forall_cons in Hreads as [Hitem Hrest].
    destruct (importJsonItem_step item count w Hitem) as (count1 & w1 & Hrun & Hsum1 & Hreq1).
    destruct (IH count1 w1 Hrest) as (count2 & w2 & Hloop & Hsum2 & Hreq2).
    exists count2, w2. unfold bind. rewrite Hrun, Hloop.
    split; [reflexivity |]. split; [lia | congruence].
Qed.

(** The loop throws at the first item the handler cannot read, the
    items before it having been handled. *)
Lemma importLoop_breaks (before : list JsonValue) (item : JsonValue) (after : list JsonValue) :
  forall (count : Counters) (w : World),
    Forall (fun item => breaksImport item = false) before ->
    breaksImport item = true ->
    exists e,
      importLoop has_code prisma_create (before ++ item :: after) count w =
      (Throw e, snd (importLoop has_code prisma_create before count w)).
Proof.
  induction before as [|first before IH]; intros count w Hreads Hbreaks; simpl.
  - destruct (importJsonItem_breaks item count w Hbreaks) as [e He].
    exists e. unfold bind. now rewrite He.
  - apply Forall_cons in Hreads as [Hfirst Hrest].
    destruct (importJsonItem_step first count w Hfirst) as (count1 & w1 & Hrun & _).
    destruct (IH count1 w1 Hrest Hbreaks) as [e He].
    exists e. unfold bind. now rewrite Hrun, He.
Qed.

(** The loop never uses the network. *)
Lemma importLoop_requests (entries : list JsonValue) :
  forall (count : Counters) (w : World),
    w_requests (snd (importLoop has_code prisma_create entries count w)) = w_requests w.
Proof.
  induction entries as [|item rest IH]; intros count w; simpl; [reflexivity |].
  unfold bind. destruct (breaksImport item) eqn:Hitem.
  - destruct (importJsonItem_breaks item count w Hitem) as [e ->]. reflexivity.
  - destruct (importJsonItem_step item count w Hitem) as (count1 & w1 & -> & _ & Hreq).
    rewrite IH. exact Hreq.
Qed.

End WithStore.

End ImportFacts.

(** X16: the import never uses the network, and it answers exactly when
    it can read the body.  [req.body] is any JSON value: the handler
    throws when the body is [undefined], [null] or an array, when
    [entries] is a number, a boolean or an object, and at the first item
    that is [null] or whose [url] is neither nullish nor a string, the
    items before it having been handled.  Otherwise it answers, whatever
    the store throws, and counts every entry once: imported, duplicates
    and invalid add up to the total.  An item whose fields are strings
    or nullish is handled as [importItem] handles the [ImportEntry] it
    is; an item with a [url] string and another field that is neither
    nullish nor a string is invalid, and the store is not asked. *)
Theorem importRoute_counts_every_entry_once :
  forall (has_code : string -> thrown -> bool)
         (prisma_create : NewEntry -> gmap Z Entry -> Outcome Entry * gmap Z Entry)
         (body : option JsonValue) (w : World),
    let ran := importRoute has_code prisma_create body w in
    let reads := Forall (fun item => breaksImport item = false) in
    w_requests (snd ran) = w_requests w /\
    match bodyEntries body with
    | Throw e => ran = (Throw e, w)
    | Ok entries =>
        (reads entries ->
         exists summary,
           fst ran = Ok summary /\
           sum_total summary = List.length entries /\
           (sum_imported summary + sum_duplicates summary + sum_invalid summary =
            sum_total summary)%nat) /\
        (forall before item after,
            entries = (before ++ item :: after)%list ->
            reads before ->
            breaksImport item = true ->
            exists e,
              ran = (Throw e,
                     snd (importLoop has_code prisma_create before (mkCounters 0 0 0) w)))
    end /\
    (forall item typed count w0,
        asImportEntry item = Some typed ->
        importJsonItem has_code prisma_create item count w0 =
        importItem has_code prisma_create typed count w0) /\
    (forall typed, asImportEntry (jsonOfImportEntry typed) = Some typed) /\
    (forall item count w0,
        breaksImport item = false ->
        asImportEntry item = None ->
        importJsonItem has_code prisma_create item count w0 =
        (Ok (mkCounters (c_imported count) (c_duplicates count) (S (c_invalid count))), w0)).
Proof.
  intros has_code prisma_create body w ran reads. subst ran. unfold importRoute.
  unfold bind at 1. unfold lift_outcome.
  split; [| split; [| split; [| split]]].
  - destruct (bodyEntries body) as [entries|e]; [| reflexivity].
    pose proof (ImportFacts.importLoop_requests has_code prisma_create entries
                  (mkCounters 0 0 0) w) as Hreq.
    unfold bind, ret.
    now destruct (importLoop has_code prisma_create entries (mkCounters 0 0 0) w)
      as [[count|e] w'].
  - destruct (bodyEntries body) as [entries|e]; [| reflexivity]. split.
    + intros Hreads.
      destruct (ImportFacts.importLoop_run has_code prisma_create entries
                  (mkCounters 0 0 0) w Hreads) as (count & w' & Hloop & Hsum & _).
      eexists. unfold bind, ret. rewrite Hloop.
      split; [reflexivity |]. split; [reflexivity | exact Hsum].
    + intros before item after -> Hreads Hbreaks.
      destruct (ImportFacts.importLoop_breaks has_code prisma_create before item after
                  (mkCounters 0 0 0) w Hreads Hbreaks) as [e He].
      exists e. unfold bind. now rewrite He.
  - intros item typed count w0. apply ImportFacts.importJsonItem_typed.
  - intros [[n|] [u|] [un|] [se|]]; reflexivity.
  - intros item count w0. apply ImportFacts.importJsonItem_untyped.
Qed.

(** The import of [{ "entries": [null] }] and of a JSON array: the
    handler throws. *)
Example importRoute_throws_on_null_item :
  forall (has_code : string -> thrown -> bool)
         (prisma_create : NewEntry -> gmap Z Entry -> Outcome Entry * gmap Z Entry)
         (w : World),
    importRoute has_code prisma_create (Some (JObject [("entries", JArray [JNull])])) w
    = (Throw (JsError "Cannot read properties of null"), w) /\
    importRoute has_code prisma_create (Some (JArray [])) w
    = (Throw (JsError "entries is not iterable"), w).
Proof. intros has_code prisma_create w. split; reflexivity. Qed.

(** X17: an item whose URL, once trimmed, is not one the URL
    constructor accepts (an absent or blank URL among them) is counted
    invalid, and the store is never called for it. *)
Theorem importItem_invalid_url_never_reaches_store :
  forall (has_code : string -> thrown -> bool)
         (prisma_create : NewEntry -> gmap Z Entry -> Outcome Entry * gmap Z Entry)
         (item : ImportEntry) (count : Counters) (w : World),
    URL_new (Js.trim (default "" (i_url item))) = None ->
    importItem has_code prisma_create item count w =
    (Ok (mkCounters (c_imported count) (c_duplicates count) (S (c_invalid count))), w).
Proof.
  intros has_code prisma_create item count w Hurl. unfold importItem.
  destruct (negb (Js.truthy (Js.trim (default "" (i_url item))))); [reflexivity |].
  unfold try_catch. now rewrite Hurl.
Qed.

Lemma importItem_invalid_url_never_reaches_store_witness :
  importItem (fun _ _ => false) (fun _ rows => (Throw JsOther, rows))
             (mkImport (Some "Example") (Some "  example.com/login ") (Some "me") None)
             (mkCounters 0 0 0) (sampleWorld [Some JsOther])
  = (Ok (mkCounters 0 0 1), sampleWorld [Some JsOther]).
Proof.
  exact (importItem_invalid_url_never_reaches_store
           (fun _ _ => false) (fun _ rows => (Throw JsOther, rows))
           (mkImport (Some "Example") (Some "  example.com/login ") (Some "me") None)
           (mkCounters 0 0 0) (sampleWorld [Some JsOther]) eq_refl).
Defined.

(** X18: an item whose origin and trimmed username are those of a row
    of the table is counted a duplicate, and the table stays as it was:
    the path, the query and the letter case of the host of its URL make no
    difference, the origin alone is compared. *)
Theorem importItem_existing_origin_is_duplicate :
  forall (has_code : string -> thrown -> bool)
         (prisma_create : NewEntry -> gmap Z Entry -> Outcome Entry * gmap Z Entry)
         (item : ImportEntry) (count : Counters) (w : World)
         (u : Url.URL) (k : Z) (e : Entry),
    URL_new (Js.trim (default "" (i_url item))) = Some u ->
    hd None (w_faults w) = None ->
    w_rows w !! k = Some e ->
    e_url e = Url.origin u ->
    e_username e = trimmedOrNull (i_username item) ->
    importItem has_code prisma_create item count w =
    (Ok (mkCounters (c_imported count) (S (c_duplicates count)) (c_invalid count)),
     mkWorld (w_requests w) (w_rows w) (tail (w_faults w))).
Proof.
  intros has_code prisma_create item count w u k e Hurl Hfault Hrow Horigin Huser.
  unfold importItem.
  destruct (Js.trim (default "" (i_url item))) as [|c url] eqn:Htrim; [discriminate |].
  change (negb (Js.truthy (String c url))) with false. cbv iota.
  unfold try_catch at 1. rewrite Hurl.
  unfold bind at 1, findFirst.
  rewrite ServerFacts.db_call_through by exact Hfault. cbn [fst snd].
  unfold importData. cbn [n_url n_username]. rewrite ImportFacts.orNull_trimmedOrNull.
  destruct (ImportFacts.head_filter_elem
              (fun e0 : Entry =>
                 bool_decide (e_url e0 = Url.origin u /\
                              e_username e0 = trimmedOrNull (i_username item)))
              (map snd (map_to_list (w_rows w))) e) as [found ->].
  - apply list_elem_of_In. apply (in_map snd _ (k, e)).
    apply list_elem_of_In. now apply elem_of_map_to_list.
  - apply bool_decide_pack. now split.
  - reflexivity.
Qed.

Lemma importItem_existing_origin_is_duplicate_witness :
  importItem (fun _ _ => false) (fun _ rows => (Throw JsOther, rows))
             (mkImport None (Some "HTTPS://Example.com/account/login?next=%2F") None None)
             (mkCounters 0 0 0) (sampleWorld [])
  = (Ok (mkCounters 0 1 0), sampleWorld []).
Proof.
  exact (importItem_existing_origin_is_duplicate
           (fun _ _ => false) (fun _ rows => (Throw JsOther, rows))
           (mkImport None (Some "HTTPS://Example.com/account/login?next=%2F") None None)
           (mkCounters 0 0 0) (sampleWorld [])
           (Url.mkURL "https" (Some (Url.Domain "example.com")) None None) 1 sampleEntry
           eq_refl eq_refl eq_refl eq_refl eq_refl).
Defined.

(* ================================================================== *)
(** * The batch route, the progress route and the client's counts *)
(* ================================================================== *)

Module CountFacts.

Lemma filter_bool_cons {A} (f : A -> bool) (x : A) (l : list A) :
  filter (fun y => f y) (x :: l) = if f x then x :: filter (fun y => f y) l
                                   else filter (fun y => f y) l.
Proof.
  rewrite filter_cons. destruct (decide (f x)) as [Hx|Hx]; destruct (f x); simpl in *;
    try reflexivity; contradiction.
Qed.

Lemma decide_Is_true_if {A} (b : bool) (x y : A) :
  (if decide (Is_true b) then x else y) = if b then x else y.
Proof. now destruct b. Qed.

(** The entries of a status. *)
Lemma count_cons (status : string) (e : Entry) (l : list Entry) :
  List.length (filter (fun x => String.eqb (e_status x) status) (e :: l)) =
  ((if String.eqb (e_status e) status then 1 else 0) +
   List.length (filter (fun x => String.eqb (e_status x) status) l))%nat.
Proof.
  rewrite (filter_bool_cons (fun x => String.eqb (e_status x) status)).
  now destruct (String.eqb (e_status e) status).
Qed.

(** An entry counts for one status at most, and for one exactly when
    its status is one the server writes. *)
Lemma status_once (s : string) :
  let hit status := if String.eqb s status then 1%nat else 0%nat in
  (hit "pending" + hit "in_progress" + hit "done" + hit "error" + hit "no_results" <= 1)%nat /\
  ((hit "pending" + hit "in_progress" + hit "done" + hit "error" + hit "no_results" = 1)%nat
   <-> s ∈ knownStatuses).
Proof.
  unfold knownStatuses. cbv zeta. rewrite !elem_of_cons, elem_of_nil.
  destruct (String.eqb_spec s "pending") as [->|H1]; [simpl; split; [lia | tauto] |].
  destruct (String.eqb_spec s "in_progress") as [->|H2]; [simpl; split; [lia | tauto] |].
  destruct (String.eqb_spec s "done") as [->|H3]; [simpl; split; [lia | tauto] |].
  destruct (String.eqb_spec s "error") as [->|H4]; [simpl; split; [lia | tauto] |].
  destruct (String.eqb_spec s "no_results") as [->|H5]; [simpl; split; [lia | tauto] |].
  simpl. split; [lia |]. split; [lia | tauto].
Qed.

(** The loop of the scheduler takes the ids from the front of the queue
    until the ceiling is met. *)
Lemma processLoop_take (C : Z) (q : list Z) :
  forall (a : Z) (s f : list Z),
    (a <= C)%Z ->
    let n := Z.to_nat (C - a) in
    processLoop C q a s f =
    (skipn n q, (a + Z.of_nat (List.length (firstn n q)))%Z,
     (s ++ firstn n q)%list, (f ++ firstn n q)%list).
Proof.
  induction q as [|id q IH]; intros a s f Ha n; simpl.
  - subst n. rewrite skipn_nil, firstn_nil, !app_nil_r. simpl. now rewrite Z.add_0_r.
  - destruct (Z.ltb_spec a C) as [Hlt|Hge].
    + rewrite IH by lia. subst n.
      replace (Z.to_nat (C - a)) with (S (Z.to_nat (C - (a + 1)))) by lia.
      cbn [firstn skipn List.length]. rewrite <- !app_assoc. cbn [app].
      rewrite Nat2Z.inj_succ. do 3 f_equal. lia.
    + subst n. replace (Z.to_nat (C - a)) with 0%nat by lia.
      simpl. now rewrite !app_nil_r, Z.add_0_r.
Qed.

Lemma mapRow_status (JSON_parse : string -> Outcome (list string)) (row : Entry)
    (api : ApiEntry) :
  mapRow JSON_parse row = Ok api ->
  api_status api = e_status row /\ api_id api = e_id row /\
  api_siteName api = e_siteName row /\ api_url api = e_url row /\
  api_sourceEmail api = e_sourceEmail row /\ api_privacyUrl api = e_privacyUrl row /\
  (if Js.truthy_opt (e_scrapedEmails row)
   then JSON_parse (default "" (e_scrapedEmails row)) = Ok (api_scrapedEmails api)
   else api_scrapedEmails api = []).
Proof.
  unfold mapRow.
  destruct (Js.truthy_opt (e_scrapedEmails row)).
  - destruct (JSON_parse _) as [scraped|err]; [| discriminate].
    intros [= <-]. simpl. auto 10.
  - intros [= <-]. simpl. auto 10.
Qed.

End CountFacts.

(** X19: the progress route counts each entry in the total, and in one
    of the five other counts when its status is [pending], [in_progress],
    [done], [error] or [no_results]; the five add up to the total exactly
    when every entry has one of these statuses. *)
Theorem scrapeProgressRoute_counts_add_up :
  forall allEntries : list Entry,
    let stats := scrapeProgressRoute allEntries in
    let counted :=
      (p_pending stats + p_inProgress stats + p_done stats + p_error stats +
       p_noResults stats)%nat in
    p_total stats = List.length allEntries /\
    (counted <= p_total stats)%nat /\
    (counted = p_total stats <-> Forall (fun e => e_status e ∈ knownStatuses) allEntries).
Proof.
  intros allEntries. cbv zeta. unfold scrapeProgressRoute.
  cbn [p_total p_pending p_inProgress p_done p_error p_noResults].
  split; [reflexivity |].
  induction allEntries as [|e l [IHle IHiff]].
  - simpl. split; [lia |]. split; [constructor | reflexivity].
  - rewrite !CountFacts.count_cons.
    destruct (CountFacts.status_once (e_status e)) as [Hle Hiff]. cbv zeta in Hle, Hiff.
    simpl List.length. split; [lia |]. rewrite Forall_cons, <- Hiff, <- IHiff. lia.
Qed.

(** X20: the batch route answers with the number of [pending] and
    [error] entries as [started] and as [totalCandidates] alike, while the
    batch it starts has the first twenty-five of them in flight, in the
    order of the table, and the others queued. *)
Theorem scrapeBatchRoute_starts_twenty_five :
  forall table : list Entry,
    let ids := map e_id (filter isCandidate table) in
    let response := fst (scrapeBatchRoute table) in
    let batch := snd (scrapeBatchRoute table) in
    bs_started response = List.length ids /\
    bs_totalCandidates response = List.length ids /\
    started batch = firstn 25 ids /\
    inFlight batch = firstn 25 ids /\
    queue batch = skipn 25 ids /\
    (completions batch = 1%nat <-> ids = []).
Proof.
  intros table. cbv zeta. unfold scrapeBatchRoute. cbn [fst snd bs_started bs_totalCandidates].
  set (ids := map e_id (filter isCandidate table)).
  split; [reflexivity |]. split; [subst ids; now rewrite length_map |].
  unfold processScrapeQueue. destruct ids as [|i ids]; [simpl; tauto |].
  simpl Nat.eqb. cbv iota. unfold processNext.
  cbn [queue activeCount started inFlight completions].
  rewrite (CountFacts.processLoop_take 25 (i :: ids) 0 [] []) by lia.
  change (Z.to_nat (25 - 0)) with 25%nat.
  replace ((0 + Z.of_nat (List.length (firstn 25 (i :: ids))) =? 0)%Z) with false
    by (symmetry; apply Z.eqb_neq; simpl; lia).
  simpl andb. cbv iota. cbn [queue activeCount started inFlight completions].
  repeat split; try reflexivity; discriminate.
Qed.

(** X21: over the entries the server sends, the client counts as
    pending what the batch route would report as started, and its total
    and its completed count are the total and the done count of the
    progress route. *)
Theorem useEntriesStats_agrees_with_routes :
  forall (JSON_parse : string -> Outcome (list string))
         (table : list Entry) (entries : list ApiEntry),
    Forall2 (fun row entry => mapRow JSON_parse row = Ok entry) table entries ->
    let stats := useEntriesStats (Some entries) in
    st_pending stats = bs_started (fst (scrapeBatchRoute table)) /\
    st_total stats = p_total (scrapeProgressRoute table) /\
    st_completed stats = p_done (scrapeProgressRoute table).
Proof.
  intros JSON_parse table entries Hmapped. cbv zeta.
  unfold useEntriesStats, scrapeBatchRoute, scrapeProgressRoute.
  cbn [fst bs_started st_pending st_total st_completed p_total p_done default from_option id].
  rewrite length_map.
  induction Hmapped as [|row entry table entries Hrow _ (IHp & IHt & IHd)]; [now simpl |].
  destruct (CountFacts.mapRow_status _ _ _ Hrow) as (Hstatus & _).
  rewrite !filter_cons, !CountFacts.decide_Is_true_if.
  unfold isCandidate at 1, Js.mem. cbn [existsb]. rewrite orb_false_r, Hstatus.
  destruct (String.eqb (e_status row) "pending" || String.eqb (e_status row) "error"),
           (String.eqb (e_status row) "done"); simpl; auto.
Qed.

Lemma useEntriesStats_agrees_with_routes_witness :
  st_pending
    (useEntriesStats
       (Some [mkApiEntry 1 (Some "Example") "https://example.com" None (Some "me@example.com")
                [] (Some "https://example.com/privacy") "error" (Some "HTTP 500")]))
  = bs_started (fst (scrapeBatchRoute [sampleEntry])).
Proof.
  exact (proj1 (useEntriesStats_agrees_with_routes
                  (fun _ => Ok []) [sampleEntry]
                  [mkApiEntry 1 (Some "Example") "https://example.com" None
                     (Some "me@example.com") [] (Some "https://example.com/privacy")
                     "error" (Some "HTTP 500")]
                  ltac:(constructor; [reflexivity | constructor]))).
Defined.

(* ================================================================== *)
(** * The export *)
(* ================================================================== *)

Module CsvFacts.

Lemma fold_push {A B} (g : B -> A) (xs : list B) :
  forall out : list A,
    fold_left (fun acc x => (acc ++ [g x])%list) xs out = (out ++ map g xs)%list.
Proof.
  induction xs as [|x xs IH]; intros out; simpl.
  - now rewrite app_nil_r.
  - now rewrite IH, <- app_assoc.
Qed.

Lemma fold_append {A B} (step : list A -> B -> list A) (xs : list B) :
  (forall out x, step out x = (out ++ step [] x)%list) ->
  forall out, fold_left step xs out = (out ++ flat_map (step []) xs)%list.
Proof.
  intros Hstep. induction xs as [|x xs IH]; intros out; simpl.
  - now rewrite app_nil_r.
  - now rewrite IH, Hstep, app_assoc.
Qed.

Lemma filter_all {A} (P : A -> Prop) `{!forall x, Decision (P x)} (l : list A) :
  Forall P l -> filter P l = l.
Proof.
  induction 1 as [|x l Hx _ IH]; [reflexivity |].
  rewrite filter_cons, IH. now destruct (decide (P x)).
Qed.

Lemma filter_none {A} (P : A -> Prop) `{!forall x, Decision (P x)} (l : list A) :
  Forall (fun x => ~ P x) l -> filter P l = [].
Proof.
  induction 1 as [|x l Hx _ IH]; [reflexivity |].
  rewrite filter_cons, IH. now destruct (decide (P x)).
Qed.

Lemma filter_flat_map {A B} (P : B -> Prop) `{!forall x, Decision (P x)}
    (f g : A -> list B) (l : list A) :
  (forall x, filter P (f x) = g x) -> filter P (flat_map f l) = flat_map g l.
Proof.
  intros Hfg. induction l as [|x l IH]; [reflexivity |].
  simpl. now rewrite filter_app, Hfg, IH.
Qed.

Lemma Forall_map_const {A B} (P : B -> Prop) (g : A -> B) (l : list A) :
  (forall x, P (g x)) -> Forall P (map g l).
Proof. intros Hg. induction l; simpl; constructor; auto. Qed.

(** The lines of a text that was joined by a separator. *)
Lemma split_join (c : ascii) (parts : list string) :
  parts <> [] ->
  Forall (fun part => Js.has_char c part = false) parts ->
  Js.split c (Js.join (String c "") parts) = parts.
Proof.
  intros Hne Hfree. induction Hfree as [|x rest Hx Hrest IH]; [congruence |].
  destruct rest as [|y rest].
  - simpl. now apply JsFacts.split_absent.
  - rewrite JsFacts.join_cons by discriminate.
    change (x ++ String c "" ++ Js.join (String c "") (y :: rest))
      with (x ++ String c (Js.join (String c "") (y :: rest))).
    rewrite (JsFacts.split_first _ _ _ Hx), IH by discriminate. reflexivity.
Qed.

(** [JSON.stringify] writes no line feed. *)
Lemma json_escape_char_one_line (c : ascii) :
  Js.has_char lineFeed (json_escape_char c) = false.
Proof. OriginFacts.by_cases_on c. Qed.

Lemma json_quote_one_line (s : string) : Js.has_char lineFeed (json_quote s) = false.
Proof.
  unfold json_quote. rewrite JsFacts.has_char_cons, JsFacts.has_char_append.
  assert (Hescape : Js.has_char lineFeed (json_escape s) = false).
  { induction s as [|c s IH]; [reflexivity |]. simpl.
    now rewrite JsFacts.has_char_append, json_escape_char_one_line, IH. }
  now rewrite Hescape.
Qed.

Lemma csvLine_one_line (url siteName email source : string) :
  Js.has_char lineFeed (csvLine url siteName email source) = false.
Proof.
  unfold csvLine. cbn [map Js.join].
  now rewrite !JsFacts.has_char_append, !json_quote_one_line.
Qed.

Lemma csv_lines (lines : list string) :
  Forall (fun line => Js.has_char lineFeed line = false) lines ->
  Js.split lineFeed (csvHeader ++ Js.join (String lineFeed "") lines) =
  "url,site_name,email,source" :: match lines with [] => [""] | _ => lines end.
Proof.
  intros Hlines. unfold csvHeader. rewrite JsFacts.append_assoc.
  change (String lineFeed "" ++ Js.join (String lineFeed "") lines)
    with (String lineFeed (Js.join (String lineFeed "") lines)).
  rewrite JsFacts.split_first by reflexivity. f_equal.
  destruct lines as [|l ls]; [reflexivity |].
  now apply split_join.
Qed.

Section WithParser.

Variable JSON_parse : string -> Outcome (list string).

Lemma exportRow_app (scope : string) (out : list EmailRow) (row : Entry) :
  exportRow JSON_parse scope out row = (out ++ exportRow JSON_parse scope [] row)%list.
Proof.
  unfold exportRow.
  destruct (String.eqb scope "all" || String.eqb scope "source"),
           (String.eqb scope "all" || String.eqb scope "scraped"),
           (Js.truthy_opt (e_sourceEmail row)), (Js.truthy_opt (e_scrapedEmails row));
    try destruct (JSON_parse _); rewrite ?fold_push, ?app_nil_r, <- ?app_assoc;
    reflexivity.
Qed.

Lemma exportRows_flat (scope : string) (rows : list Entry) :
  exportRows JSON_parse scope rows = flat_map (exportRow JSON_parse scope []) rows.
Proof.
  unfold exportRows. rewrite (fold_append (exportRow JSON_parse scope)).
  - reflexivity.
  - intros out row. apply exportRow_app.
Qed.

Lemma exportRow_all (row : Entry) :
  exportRow JSON_parse "all" [] row =
  (exportRow JSON_parse "source" [] row ++ exportRow JSON_parse "scraped" [] row)%list.
Proof.
  unfold exportRow. cbn [String.eqb Ascii.eqb Bool.eqb orb andb].
  destruct (Js.truthy_opt (e_sourceEmail row)), (Js.truthy_opt (e_scrapedEmails row));
    try destruct (JSON_parse _); rewrite ?fold_push, ?app_nil_r; reflexivity.
Qed.

Lemma exportRow_source (row : Entry) :
  Forall (fun r => x_source r = "from_passwords") (exportRow JSON_parse "source" [] row).
Proof.
  unfold exportRow. cbn [String.eqb Ascii.eqb Bool.eqb orb andb].
  destruct (Js.truthy_opt (e_sourceEmail row)); repeat constructor.
Qed.

Lemma exportRow_scraped (row : Entry) :
  Forall (fun r => x_source r = "from_privacy_policy")
         (exportRow JSON_parse "scraped" [] row).
Proof.
  unfold exportRow. cbn [String.eqb Ascii.eqb Bool.eqb orb andb].
  destruct (Js.truthy_opt (e_scrapedEmails row)); [| constructor].
  destruct (JSON_parse _); [| constructor].
  rewrite fold_push. simpl app. now apply Forall_map_const.
Qed.

End WithParser.

End CsvFacts.

(** X22: the export of scope [all] holds the rows of scope [source]
    and the rows of scope [scraped], each kind in its order, and nothing
    else. *)
Theorem exportRows_all_is_source_and_scraped :
  forall (JSON_parse : string -> Outcome (list string)) (rows : list Entry),
    let all := exportRows JSON_parse "all" rows in
    filter (fun r => x_source r = "from_passwords") all = exportRows JSON_parse "source" rows /\
    filter (fun r => x_source r = "from_privacy_policy") all =
      exportRows JSON_parse "scraped" rows /\
    List.length all =
      (List.length (exportRows JSON_parse "source" rows) +
       List.length (exportRows JSON_parse "scraped" rows))%nat.
Proof.
  intros JSON_parse rows. cbv zeta. rewrite !CsvFacts.exportRows_flat.
  assert (Hsource : forall row,
             filter (fun r => x_source r = "from_passwords")
                    (exportRow JSON_parse "all" [] row) =
             exportRow JSON_parse "source" [] row).
  { intros row. rewrite CsvFacts.exportRow_all, filter_app.
    rewrite (CsvFacts.filter_all _ _ (CsvFacts.exportRow_source JSON_parse row)).
    rewrite CsvFacts.filter_none; [apply app_nil_r |].
    eapply Forall_impl; [apply CsvFacts.exportRow_scraped |].
    intros r Hr. simpl in Hr. rewrite Hr. discriminate. }
  assert (Hscraped : forall row,
             filter (fun r => x_source r = "from_privacy_policy")
                    (exportRow JSON_parse "all" [] row) =
             exportRow JSON_parse "scraped" [] row).
  { intros row. rewrite CsvFacts.exportRow_all, filter_app.
    rewrite (CsvFacts.filter_all _ _ (CsvFacts.exportRow_scraped JSON_parse row)).
    rewrite CsvFacts.filter_none; [reflexivity |].
    eapply Forall_impl; [apply CsvFacts.exportRow_source |].
    intros r Hr. simpl in Hr. rewrite Hr. discriminate. }
  split; [now apply CsvFacts.filter_flat_map |].
  split; [now apply CsvFacts.filter_flat_map |].
  induction rows as [|row rows IH]; [reflexivity |].
  simpl. rewrite !length_app, IH, CsvFacts.exportRow_all, length_app. lia.
Qed.

(** X23: the text of the export has the header on its first line and
    one line for each row after it, whatever the fields hold: no site
    name, URL or email can break a line in two. *)
Theorem exportRoute_one_line_per_row :
  forall (JSON_parse : string -> Outcome (list string))
         (scopeRaw : option string) (rows : list Entry),
    let out := exportRows JSON_parse (exportScope scopeRaw) rows in
    Js.split lineFeed (exportRoute JSON_parse scopeRaw rows) =
    "url,site_name,email,source" ::
    match out with
    | [] => [""]
    | _ => map (fun r => csvLine (x_url r) (x_siteName r) (x_email r) (x_source r)) out
    end.
Proof.
  intros JSON_parse scopeRaw rows out. unfold exportRoute. fold out.
  rewrite CsvFacts.csv_lines.
  - now destruct out.
  - apply CsvFacts.Forall_map_const. intros r. apply CsvFacts.csvLine_one_line.
Qed.

(** X24: a row whose stored emails do not parse makes [mapRow] throw,
    and with it the listing of the entries, while the export leaves the
    emails of that row out and goes on. *)
Theorem exportRow_skips_what_mapRow_throws_on :
  forall (JSON_parse : string -> Outcome (list string))
         (row : Entry) (out : list EmailRow) (stored : string) (err : thrown),
    e_scrapedEmails row = Some stored ->
    stored <> "" ->
    JSON_parse stored = Throw err ->
    mapRow JSON_parse row = Throw err /\
    exportRow JSON_parse "scraped" out row = out /\
    exportRow JSON_parse "all" out row = exportRow JSON_parse "source" out row.
Proof.
  intros JSON_parse row out stored err Hstored Hne Hparse.
  assert (Htruthy : Js.truthy_opt (e_scrapedEmails row) = true).
  { rewrite Hstored. simpl. unfold Js.truthy. apply negb_true_iff.
    now apply String.eqb_neq. }
  unfold mapRow, exportRow. rewrite Htruthy, Hstored. cbn [default from_option id].
  rewrite Hparse. cbn [String.eqb Ascii.eqb Bool.eqb orb andb].
  repeat split.
Qed.

Lemma exportRow_skips_what_mapRow_throws_on_witness :
  exportRow (fun _ => Throw (JsError "Unexpected token"))
            "all" []
            (mkEntry 3 None "https://example.org" None (Some "me@example.org")
                     (Some "old@example.org") None "done" None)
  = [mkEmailRow "https://example.org" "" "me@example.org" "from_passwords"].
Proof.
  exact (proj2 (proj2 (exportRow_skips_what_mapRow_throws_on
                         (fun _ => Throw (JsError "Unexpected token"))
                         (mkEntry 3 None "https://example.org" None (Some "me@example.org")
                                  (Some "old@example.org") None "done" None)
                         [] "old@example.org" (JsError "Unexpected token")
                         eq_refl ltac:(discriminate) eq_refl))).
Defined.

(* ================================================================== *)
(** * The client *)
(* ================================================================== *)

Module ClientFacts.

(** The lines of one entry in the client's export. *)
Lemma entriesToExportCsv_lines (entries : list ApiEntry) :
  exists linesOf : ApiEntry -> list string,
    entriesToExportCsv entries =
    csvHeader ++ Js.join (String lineFeed "") (flat_map linesOf entries) /\
    forall row,
      linesOf row =
      ((if Js.truthy_opt (api_sourceEmail row)
        then [csvLine (api_url row) (default "" (api_siteName row))
                      (default "" (api_sourceEmail row)) "from_passwords"]
        else []) ++
       map (fun email => csvLine (api_url row) (default "" (api_siteName row)) email
                                 "from_privacy_policy")
           (api_scrapedEmails row))%list.
Proof.
  unfold entriesToExportCsv.
  match goal with |- context [fold_left ?f entries []] => set (step := f) end.
  assert (Hstep : forall out row, step out row = (out ++ step [] row)%list).
  { intros out row. subst step. cbv beta zeta.
    destruct (Js.truthy_opt (api_sourceEmail row));
      rewrite !CsvFacts.fold_push, ?app_nil_r, <- ?app_assoc; reflexivity. }
  exists (step []). split.
  - now rewrite (CsvFacts.fold_append step entries Hstep).
  - intros row. subst step. cbv beta zeta.
    destruct (Js.truthy_opt (api_sourceEmail row)); now rewrite CsvFacts.fold_push.
Qed.

End ClientFacts.

(** X25: the CSV the client builds of the entries it was sent is, to the
    character, the CSV of the export route of scope [all] over the rows
    those entries were made of. *)
Theorem entriesToExportCsv_agrees_with_exportRoute :
  forall (JSON_parse : string -> Outcome (list string))
         (rows : list Entry) (entries : list ApiEntry),
    Forall2 (fun row entry => mapRow JSON_parse row = Ok entry) rows entries ->
    entriesToExportCsv entries = exportRoute JSON_parse None rows.
Proof.
  intros JSON_parse rows entries Hmapped.
  destruct (ClientFacts.entriesToExportCsv_lines entries) as (linesOf & -> & HlinesOf).
  unfold exportRoute. change (exportScope None) with "all". cbv zeta.
  rewrite CsvFacts.exportRows_flat. do 2 f_equal.
  induction Hmapped as [|row entry rows entries Hrow _ IH]; [reflexivity |].
  simpl. rewrite map_app, <- IH. f_equal.
  destruct (CountFacts.mapRow_status _ _ _ Hrow)
    as (_ & _ & Hname & Hurl & Hsource & _ & Hscraped).
  rewrite HlinesOf, Hname, Hurl, Hsource. unfold exportRow.
  cbn [String.eqb Ascii.eqb Bool.eqb orb andb].
  destruct (Js.truthy_opt (e_sourceEmail row)), (Js.truthy_opt (e_scrapedEmails row));
    rewrite Hscraped, ?CsvFacts.fold_push; simpl; rewrite ?map_map; reflexivity.
Qed.

Lemma entriesToExportCsv_agrees_with_exportRoute_witness :
  entriesToExportCsv
    [mkApiEntry 1 (Some "Example") "https://example.com" None (Some "me@example.com")
       ["old@example.com"] (Some "https://example.com/privacy") "error" (Some "HTTP 500")]
  = exportRoute (fun _ => Ok ["old@example.com"]) None [sampleEntry].
Proof.
  exact (entriesToExportCsv_agrees_with_exportRoute
           (fun _ => Ok ["old@example.com"]) [sampleEntry]
           [mkApiEntry 1 (Some "Example") "https://example.com" None (Some "me@example.com")
              ["old@example.com"] (Some "https://example.com/privacy") "error"
              (Some "HTTP 500")]
           ltac:(constructor; [reflexivity | constructor])).
Defined.

(** X26: hiding the entries without emails changes nothing in the CSV
    the client exports: an entry the filter hides has no line in it. *)
Theorem useFilteredEntries_keeps_the_export :
  forall (entries : option (list ApiEntry)) (hideNoEmails : bool),
    entriesToExportCsv (useFilteredEntries entries hideNoEmails) =
    entriesToExportCsv (default [] entries).
Proof.
  intros entries hideNoEmails. unfold useFilteredEntries. cbv zeta.
  destruct hideNoEmails; [| reflexivity].
  set (l := default [] entries).
  match goal with |- context [filter ?p l] => set (keep := p) end.
  destruct (ClientFacts.entriesToExportCsv_lines (filter keep l)) as (f & -> & Hf).
  destruct (ClientFacts.entriesToExportCsv_lines l) as (g & -> & Hg).
  do 2 f_equal. clearbody l. induction l as [|e l IH]; [reflexivity |].
  rewrite filter_cons. subst keep. cbv beta.
  rewrite CountFacts.decide_Is_true_if.
  destruct ((0 <? List.length (api_scrapedEmails e))%nat || Js.truthy_opt (api_sourceEmail e)
            || Js.truthy_opt (api_privacyUrl e)) eqn:Hkeep.
  - simpl. now rewrite IH, Hf, Hg.
  - apply orb_false_iff in Hkeep as [Hkeep _].
    apply orb_false_iff in Hkeep as [Hnone Hsource].
    simpl. rewrite IH, Hg, Hsource.
    destruct (api_scrapedEmails e); [reflexivity | discriminate].
Qed.

Module RowFacts.

Section WithMatcher.

Variable email_match : string -> option string.

(** What [getFirst] gives is trimmed and not empty. *)
Lemma getFirst_trimmed (row : gmap string string) (keys : list string) (v : string) :
  getFirst row keys = Some v -> v <> "" /\ Js.trim v = v.
Proof.
  induction keys as [|key keys IH]; simpl; [discriminate |].
  destruct (row !! key) as [x|]; [| exact IH].
  destruct (Js.truthy x); [| exact IH]. simpl.
  destruct (Js.truthy (Js.trim x)) eqn:Htrim; [| exact IH].
  intros [= <-]. split; [| apply TrimFacts.trim_idem].
  intros Hempty. rewrite Hempty in Htrim. discriminate.
Qed.

Lemma getFirst_agree (row row' : gmap string string) (keys : list string) :
  Forall (fun key => row !! key = row' !! key) keys ->
  getFirst row keys = getFirst row' keys.
Proof.
  induction 1 as [|key keys Hkey _ IH]; simpl; [reflexivity |].
  now rewrite <- Hkey, IH.
Qed.

Lemma normalizeRow_agree (row row' : gmap string string) :
  (forall key, key ∈ readColumns -> row !! key = row' !! key) ->
  normalizeRow email_match row = normalizeRow email_match row'.
Proof.
  intros Hagree. unfold normalizeRow.
  assert (Hkeys : Forall (fun key => row !! key = row' !! key) readColumns).
  { apply Forall_forall. exact Hagree. }
  unfold readColumns in Hkeys.
  repeat match type of Hkeys with
         | Forall _ (_ :: _) =>
             let H := fresh "Hkey" in apply Forall_cons in Hkeys as [H Hkeys]
         end.
  rewrite !(getFirst_agree row row') by (repeat constructor; assumption).
  reflexivity.
Qed.

Lemma normalizeRow_kept (row : gmap string string) :
  let entry := normalizeRow email_match row in
  Js.truthy (default "" (i_url entry)) &&
  (0 <? String.length (Js.trim (default "" (i_url entry))))%nat = true ->
  exists url, i_url entry = Some url /\ url <> "" /\ Js.trim url = url.
Proof.
  unfold normalizeRow. cbn [i_url default from_option id].
  destruct (getFirst row _) as [v|] eqn:Hfirst; [| discriminate].
  intros _. exists v. split; [reflexivity |].
  exact (getFirst_trimmed row _ v Hfirst).
Qed.

End WithMatcher.

End RowFacts.

(** X27: every entry [normalizeRows] sends has a URL that is not empty
    and carries no white space at either end, so the import never counts
    it invalid for a blank URL; and no more entries are sent than the file
    has rows. *)
Theorem normalizeRows_sends_trimmed_urls :
  forall (email_match : string -> option string) (rows : list (gmap string string)),
    Forall (fun entry => exists url, i_url entry = Some url /\ url <> "" /\ Js.trim url = url)
           (normalizeRows email_match rows) /\
    (List.length (normalizeRows email_match rows) <= List.length rows)%nat.
Proof.
  intros email_match rows. unfold normalizeRows. split.
  - apply Forall_forall. intros entry Hentry.
    apply list_elem_of_filter in Hentry as [Hkept Hin].
    apply list_elem_of_In, in_map_iff in Hin as (row & <- & _).
    apply RowFacts.normalizeRow_kept. now apply Is_true_true.
  - etransitivity; [apply length_filter |]. now rewrite length_map.
Qed.

(** X28: [normalizeRows] reads the twenty-two columns it names and no
    other: two files that agree on these columns give the same entries,
    and the column of the passwords is not among them. *)
Theorem normalizeRows_reads_named_columns_only :
  forall (email_match : string -> option string) (rows rows' : list (gmap string string)),
    Forall2 (fun row row' => forall key, key ∈ readColumns -> row !! key = row' !! key)
            rows rows' ->
    normalizeRows email_match rows = normalizeRows email_match rows' /\
    ("password" ∉ readColumns) /\ ("Password" ∉ readColumns).
Proof.
  intros email_match rows rows' Hagree. split.
  - unfold normalizeRows. f_equal.
    induction Hagree as [|row row' rows rows' Hrow _ IH]; [reflexivity |].
    simpl. now rewrite IH, (RowFacts.normalizeRow_agree email_match row row' Hrow).
  - split; apply CollectFacts.mem_not_elem_of; reflexivity.
Qed.

Lemma normalizeRows_reads_named_columns_only_witness :
  normalizeRows (fun _ => None)
    [ <["url" := "https://example.com/login"]> (<["password" := "hunter2"]> ∅) ] =
  normalizeRows (fun _ => None)
    [ <["url" := "https://example.com/login"]> ∅ ].
Proof.
  refine (proj1 (normalizeRows_reads_named_columns_only (fun _ => None)
                   [ <["url" := "https://example.com/login"]> (<["password" := "hunter2"]> ∅) ]
                   [ <["url" := "https://example.com/login"]> ∅ ] _)).
  constructor; [| constructor].
  intros key Hkey. unfold readColumns in Hkey.
  repeat (apply elem_of_cons in Hkey as [->|Hkey]; [reflexivity |]).
  now apply elem_of_nil in Hkey.
Defined.

(* ================================================================== *)
(** * The stored emails *)
(* ================================================================== *)

Module JsonFacts.

Lemma unescape_head (c : ascii) (rest : string) :
  json_unescape_head (json_escape_char c ++ rest) = Some (c, rest).
Proof. OriginFacts.by_cases_on c. Qed.

Lemma json_escape_inj (a : string) :
  forall (b r1 r2 : string),
    json_escape a ++ String dquote r1 = json_escape b ++ String dquote r2 ->
    a = b /\ r1 = r2.
Proof.
  induction a as [|c a IH]; intros [|d b] r1 r2; simpl; intros Heq.
  - injection Heq as ->. now split.
  - rewrite JsFacts.append_assoc in Heq.
    apply (f_equal json_unescape_head) in Heq. rewrite unescape_head in Heq. discriminate.
  - rewrite JsFacts.append_assoc in Heq.
    apply (f_equal json_unescape_head) in Heq. rewrite unescape_head in Heq. discriminate.
  - rewrite !JsFacts.append_assoc in Heq.
    apply (f_equal json_unescape_head) in Heq. rewrite !unescape_head in Heq.
    injection Heq as -> Hrest. destruct (IH _ _ _ Hrest) as [-> ->]. now split.
Qed.

Lemma json_quote_inj (x y r1 r2 : string) :
  json_quote x ++ r1 = json_quote y ++ r2 -> x = y /\ r1 = r2.
Proof.
  unfold json_quote. simpl. rewrite !JsFacts.append_assoc. simpl.
  intros [= Heq]. now apply json_escape_inj.
Qed.

Lemma json_rest_inj (xs : list string) :
  forall ys, json_rest xs = json_rest ys -> xs = ys.
Proof.
  induction xs as [|x xs IH]; intros [|y ys]; simpl; try discriminate; [reflexivity |].
  intros Heq. apply (SlashFacts.append_inj_l ",") in Heq.
  destruct (json_quote_inj _ _ _ _ Heq) as [-> Hrest].
  now rewrite (IH _ Hrest).
Qed.

Lemma join_rest (x : string) (xs : list string) :
  Js.join "," (map json_quote (x :: xs)) ++ "]" = json_quote x ++ json_rest xs.
Proof.
  revert x. induction xs as [|y ys IH]; intros x; [reflexivity |].
  change (map json_quote (x :: y :: ys)) with (json_quote x :: map json_quote (y :: ys)).
  rewrite JsFacts.join_cons by discriminate.
  rewrite !JsFacts.append_assoc, IH. reflexivity.
Qed.

Lemma stringify_cons (x : string) (xs : list string) :
  JSON_stringify (x :: xs) = "[" ++ json_quote x ++ json_rest xs.
Proof. unfold JSON_stringify. now rewrite join_rest. Qed.

End JsonFacts.

(** X29: [JSON.stringify] stores two different lists of emails as two
    different texts: the stored column tells the list it was written
    from. *)
Theorem JSON_stringify_tells_lists_apart :
  forall xs ys : list string, JSON_stringify xs = JSON_stringify ys -> xs = ys.
Proof.
  intros [|x xs] [|y ys]; [reflexivity | | |].
  - rewrite JsonFacts.stringify_cons. discriminate.
  - rewrite JsonFacts.stringify_cons. discriminate.
  - rewrite !JsonFacts.stringify_cons. intros Heq.
    apply (SlashFacts.append_inj_l "[") in Heq.
    destruct (JsonFacts.json_quote_inj _ _ _ _ Heq) as [-> Hrest].
    now rewrite (JsonFacts.json_rest_inj _ _ Hrest).
Qed.

Lemma JSON_stringify_tells_lists_apart_witness :
  ["privacy@example.com"; "dpo@example.com"] = ["privacy@example.com"; "dpo@example.com"].
Proof.
  exact (JSON_stringify_tells_lists_apart
           ["privacy@example.com"; "dpo@example.com"]
           ["privacy@example.com"; "dpo@example.com"] eq_refl).
Defined.

(* ================================================================== *)
(** * The end of a batch *)
(* ================================================================== *)

Module EndFacts.

Lemma remaining_start (C : Z) (ids : list Z) :
  (1 <= C)%Z -> remaining (processScrapeQueue ids C) = List.length ids.
Proof.
  intros HC. unfold processScrapeQueue.
  destruct ids as [|i ids]; [reflexivity |].
  simpl Nat.eqb. cbv iota. unfold processNext.
  cbn [queue activeCount started inFlight completions].
  rewrite (CountFacts.processLoop_take C (i :: ids) 0 [] []) by lia.
  cbv zeta. simpl app.
  set (n := Z.to_nat (C - 0)).
  assert (Hlen : (List.length (skipn n (i :: ids)) + List.length (firstn n (i :: ids)) =
                  List.length (i :: ids))%nat).
  { rewrite <- (firstn_skipn n (i :: ids)) at 3. rewrite length_app. lia. }
  destruct (_ && _); unfold remaining, resolve;
    cbn [queue activeCount started inFlight completions]; exact Hlen.
Qed.

Lemma after_wellPlaced (C : Z) (ids : list Z) (settlements : list Settlement) :
  (1 <= C)%Z ->
  forall b,
    Inv C ids b -> wellPlaced C settlements b = true ->
    (List.length settlements <= remaining b)%nat /\
    remaining (after C settlements b) = (remaining b - List.length settlements)%nat.
Proof.
  intros HC. induction settlements as [|s ss IH]; intros b Hb Hplaced.
  - simpl. split; [lia |]. unfold after. simpl. lia.
  - simpl in Hplaced. apply andb_true_iff in Hplaced as [Hk Hrest].
    apply Nat.ltb_lt in Hk.
    rewrite BatchFacts.settle_state, decide_True in Hrest by exact Hk.
    destruct (BatchFacts.onFinally_spec C ids (s_position s) b HC Hb Hk) as (Hb' & Hrem & _).
    destruct (IH _ Hb' Hrest) as [Hle Hafter].
    assert (Hpos : (1 <= remaining b)%nat).
    { unfold remaining. destruct (inFlight b); simpl in *; lia. }
    unfold after in *. simpl fold_left.
    rewrite BatchFacts.settle_state, decide_True by exact Hk.
    rewrite Hafter, Hrem. simpl List.length. split; lia.
Qed.

End EndFacts.

(** X30: for a ceiling of at least one, a batch over N ids takes N
    settlements: after fewer its completion promise is not settled, and
    after the N-th it is; no more than N calls ever settle. *)
Theorem processScrapeQueue_resolves_at_last_settlement :
  forall (ids : list Z) (C : Z) (settlements : list Settlement),
    (1 <= C)%Z ->
    wellPlaced C settlements (processScrapeQueue ids C) = true ->
    let b := after C settlements (processScrapeQueue ids C) in
    (List.length settlements <= List.length ids)%nat /\
    remaining b = (List.length ids - List.length settlements)%nat /\
    (completions b = 1%nat <-> List.length settlements = List.length ids) /\
    (completions b = 0%nat <-> (List.length settlements < List.length ids)%nat).
Proof.
  intros ids C settlements HC Hplaced b.
  pose proof (BatchFacts.Inv_start C ids HC) as Hstart.
  destruct (EndFacts.after_wellPlaced C ids settlements HC _ Hstart Hplaced) as [Hle Hrem].
  rewrite EndFacts.remaining_start in Hle, Hrem by exact HC. fold b in Hrem.
  pose proof (BatchFacts.Inv_after C ids settlements HC _ Hstart) as [_ _ _ Hdone].
  fold b in Hdone.
  assert (Hidle : idle b = true <-> remaining b = 0%nat).
  { unfold idle, remaining. destruct (queue b), (inFlight b); simpl; split;
      try reflexivity; try discriminate; lia. }
  split; [exact Hle |]. split; [exact Hrem |].
  rewrite Hdone. destruct (idle b).
  - assert (remaining b = 0%nat) by now apply Hidle. split; split; intros; try lia.
  - assert (remaining b <> 0%nat) by (intros H0; apply Hidle in H0; discriminate).
    split; split; intros; try lia.
Qed.

Lemma processScrapeQueue_resolves_at_last_settlement_witness :
  completions
    (after 2 [mkSettlement 1 (Throw JsOther); mkSettlement 0 (Throw JsOther);
              mkSettlement 0 (Throw JsOther)]
           (processScrapeQueue [11; 12; 13]%Z 2)) = 1%nat.
Proof.
  exact (proj2 (proj1 (proj2 (proj2
           (processScrapeQueue_resolves_at_last_settlement
              [11; 12; 13]%Z 2
              [mkSettlement 1 (Throw JsOther); mkSettlement 0 (Throw JsOther);
               mkSettlement 0 (Throw JsOther)]
              ltac:(lia) eq_refl)))) eq_refl).
Defined.
